(** * Review agent: batching, parsing and refinement of suggestions

    A shallow embedding of the review engine of [review-agent.ts] and
    [prompts.ts] (Week-8, SecureAgent-SecureCode), with the properties the
    design document states about it.

    Conventions of the embedding:
    - a JavaScript string is the list of its UTF-16 code units; the
      development covers the strings whose code units are all below 256,
      so a code unit is an [ascii];
    - a JavaScript number that holds a line number or a token count is an
      integer ([Z] or [nat]);
    - a promise that may reject, or a call that may throw, returns [Exc];
    - services outside the repository (the chat completion endpoint, the
      tokenizer, the XML parser, the content fetcher) are parameters. *)

From Stdlib Require Import Ascii String Numbers.DecimalString.
From Stdlib Require Import List Bool Arith NArith ZArith Lia Permutation Sorted.
Import ListNotations.

Set Implicit Arguments.
Set Warnings "-register-all".

(** ** JavaScript strings *)

Module JS.

Definition jstring := list ascii.

Definition str (s : string) : jstring := list_ascii_of_string s.

Arguments str : simpl never.

Definition code (c : ascii) : nat := nat_of_ascii c.

Definition jstring_eqb (a b : jstring) : bool :=
  if list_eq_dec ascii_dec a b then true else false.

(** The line feed, as a code unit and as a separator string. *)
Definition LF : ascii := "010"%char.
Definition NL : jstring := [LF].

(** [Set.prototype.has] over a literal set of strings. *)
Definition has (set : list jstring) (x : jstring) : bool :=
  existsb (jstring_eqb x) set.

(** A string is truthy when it is not empty. *)
Definition truthy (s : jstring) : bool :=
  match s with [] => false | _ :: _ => true end.

(** [String.prototype.split] with a separator of one code unit. The
    result always has at least one segment. *)
Fixpoint split (sep : ascii) (s : jstring) : list jstring :=
  match s with
  | [] => [[]]
  | c :: s' =>
      if Ascii.eqb c sep then [] :: split sep s'
      else match split sep s' with
           | [] => [[c]]
           | w :: ws => (c :: w) :: ws
           end
  end.

(** [Array.prototype.join]. *)
Fixpoint join (sep : jstring) (l : list jstring) : jstring :=
  match l with
  | [] => []
  | [x] => x
  | x :: rest => x ++ sep ++ join sep rest
  end.

(** [Array.prototype.pop], the value it returns ([None] for undefined). *)
Fixpoint pop {A} (l : list A) : option A :=
  match l with
  | [] => None
  | [x] => Some x
  | _ :: rest => pop rest
  end.

(** [String.prototype.toLowerCase] on code units below 256: the letters
    A-Z and the Latin-1 capitals U+00C0 to U+00DE, the multiplication sign
    U+00D7 excepted. *)
Definition lower_char (c : ascii) : ascii :=
  let n := code c in
  if ((65 <=? n) && (n <=? 90))
     || ((192 <=? n) && (n <=? 222) && negb (n =? 215))
  then ascii_of_nat (n + 32) else c.

Definition toLowerCase (s : jstring) : jstring := map lower_char s.

(** White space and line terminators below 256: TAB, LF, VT, FF, CR, SP
    and NBSP. This is what [trim] strips and what [\s] matches. *)
Definition is_space (c : ascii) : bool :=
  let n := code c in
  ((9 <=? n) && (n <=? 13)) || (n =? 32) || (n =? 160).

Fixpoint trimStart (s : jstring) : jstring :=
  match s with
  | c :: s' => if is_space c then trimStart s' else s
  | [] => []
  end.

Definition trimEnd (s : jstring) : jstring := rev (trimStart (rev s)).

Definition trim (s : jstring) : jstring := trimEnd (trimStart s).

Fixpoint startsWith (s prefix : jstring) : bool :=
  match prefix, s with
  | [], _ => true
  | p :: prefix', c :: s' => Ascii.eqb c p && startsWith s' prefix'
  | _ :: _, [] => false
  end.

(** [String.prototype.substring(0, n)] for a count [n]. *)
Definition substring0 (n : N) (s : jstring) : jstring :=
  firstn (N.to_nat n) s.

(** [String.prototype.substring(a, b)]: the arguments are clamped to the
    length and swapped when [a] is the larger. *)
Definition substring (a b : nat) (s : jstring) : jstring :=
  let a' := Nat.min a (length s) in
  let b' := Nat.min b (length s) in
  let lo := Nat.min a' b' in
  let hi := Nat.max a' b' in
  firstn (hi - lo) (skipn lo s).

(** [String.prototype.indexOf]: [None] stands for -1. *)
Fixpoint indexOf (s needle : jstring) : option nat :=
  if startsWith s needle then Some 0
  else match s with
       | [] => None
       | _ :: s' => option_map S (indexOf s' needle)
       end.

(** [String.prototype.lastIndexOf]. *)
Fixpoint lastIndexOf (s needle : jstring) : option nat :=
  match s with
  | [] => if startsWith s needle then Some 0 else None
  | _ :: s' =>
      match lastIndexOf s' needle with
      | Some i => Some (S i)
      | None => if startsWith s needle then Some 0 else None
      end
  end.

Definition includes (s needle : jstring) : bool :=
  match indexOf s needle with
  | Some _ => true
  | None => false
  end.

(** [Array.prototype.slice(start, end)] and [String.prototype.slice] on
    integers: a negative index counts from the end. *)
Definition relativeIndex (len : nat) (i : Z) : nat :=
  if (i <? 0)%Z then Z.to_nat (Z.max (Z.of_nat len + i) 0)
  else Nat.min (Z.to_nat i) len.

Definition slice {A} (l : list A) (start stop : Z) : list A :=
  let from := relativeIndex (length l) start in
  let to := relativeIndex (length l) stop in
  firstn (to - from) (skipn from l).

(** [slice(start)] to the end. *)
Definition sliceFrom {A} (l : list A) (start : Z) : list A :=
  skipn (relativeIndex (length l) start) l.

(** The text that [String.prototype.replace] puts in for a replacement
    pattern, when the searched value is a string: [$$], [$&], the text
    before and the text after; there are no captures to refer to. *)
Fixpoint getSubstitution (matched before after replacement : jstring)
  : jstring :=
  match replacement with
  | [] => []
  | x :: tl =>
      if Ascii.eqb x "$" then
        match tl with
        | [] => [x]
        | c :: rest =>
            if Ascii.eqb c "$" then
              x :: getSubstitution matched before after rest
            else if Ascii.eqb c "&" then
              matched ++ getSubstitution matched before after rest
            else if Ascii.eqb c "`" then
              before ++ getSubstitution matched before after rest
            else if Ascii.eqb c "'" then
              after ++ getSubstitution matched before after rest
            else x :: getSubstitution matched before after tl
        end
      else x :: getSubstitution matched before after tl
  end.

(** [String.prototype.replace(pattern, replacement)] with two strings:
    the first occurrence only. *)
Definition replaceFirst (s pattern replacement : jstring) : jstring :=
  match indexOf s pattern with
  | None => s
  | Some i =>
      let before := firstn i s in
      let after := skipn (i + length pattern) s in
      before ++ getSubstitution pattern before after replacement ++ after
  end.

End JS.

Import JS.

(** ** Exceptions *)

(** The outcome of a call that may throw or of a promise that may
    reject. The payload of [Raise] is the message of the error. *)
Inductive Exc (A : Type) : Type :=
| Ok (a : A)
| Raise (msg : jstring).

Arguments Ok {A} a.
Arguments Raise {A} msg.

Definition bindE {A B} (m : Exc A) (k : A -> Exc B) : Exc B :=
  match m with
  | Ok a => k a
  | Raise e => Raise e
  end.

Notation "x <-! m ;; k" := (bindE m (fun x => k))
  (at level 61, m at next level, right associativity).

(** [Promise.all] over the outcomes of the promises: the first rejection,
    in order, or the list of all values. *)
Fixpoint promiseAll {A} (ps : list (Exc A)) : Exc (list A) :=
  match ps with
  | [] => Ok []
  | p :: rest =>
      x <-! p ;;
      xs <-! promiseAll rest ;;
      Ok (x :: xs)
  end.

(** ** Data model *)

(** [PRFile] of constants.ts, by the fields the engine reads and writes. *)
Record PRFile := mkPRFile {
  filename : jstring;
  patch : jstring;
  old_contents : option jstring;
  current_contents : option jstring;
  patchTokenLength : N
}.

(** One role-tagged message of a chat conversation. *)
Record Message := mkMessage {
  role : jstring;
  content : jstring
}.

Definition Conversation := list Message.

(** ** The file filter *)

Definition extensionsToIgnore : list jstring :=
  map str ["pdf"; "png"; "jpg"; "jpeg"; "gif"; "mp4"; "mp3"; "md"; "json";
           "env"; "toml"; "svg"]%string.

Definition filesToIgnore : list jstring :=
  map str ["package-lock.json"; "yarn.lock"; ".gitignore"; "package.json";
           "tsconfig.json"; "poetry.lock"; "readme.md"]%string.

Definition filterFile (file : PRFile) : bool :=
  let basename := pop (split "/" (toLowerCase (filename file))) in
  if match basename with
     | Some f => truthy f && has filesToIgnore f
     | None => false
     end
  then false
  else
    let splitFilename := split "." (toLowerCase (filename file)) in
    if length splitFilename <=? 1 then false
    else
      let extension := option_map toLowerCase (pop splitFilename) in
      if match extension with
         | Some e => truthy e && has extensionsToIgnore e
         | None => false
         end
      then false
      else true.

(** ** Token budget *)

(** The model in use ([GROQ_MODEL] of llms/groq.ts, the default of
    [isConversationWithinLimit]) and the table of context sizes of
    prompts.ts. *)
Definition GROQ_MODEL : jstring := str "llama-3.3-70b-versatile".

Definition ModelsToTokenLimits : list (jstring * N) :=
  [ (str "llama-3.3-70b-versatile", 128000%N);
    (str "gemma-7b-it", 32768%N);
    (str "llama3-70b-8192", 8192%N) ].

(** Property lookup in a record keyed by strings: [None] is undefined. *)
Fixpoint lookup {V} (table : list (jstring * V)) (key : jstring) : option V :=
  match table with
  | [] => None
  | (k, v) :: rest => if jstring_eqb k key then Some v else lookup rest key
  end.

Definition constructPrompt
    (files : list PRFile)
    (patchBuilder : PRFile -> jstring)
    (convoBuilder : jstring -> Conversation) : Conversation :=
  let patches := map patchBuilder files in
  let diff := join NL patches in
  convoBuilder diff.

Section Engine.

(** The tokenizer of gpt-tokenizer: [encodeChat convo] and [encode blob],
    by the number of tokens they return. *)
Variable encodeChat : Conversation -> N.
Variable encode : jstring -> N.

(** The two patch strategies of context/review. *)
Variable rawPatchStrategy : PRFile -> jstring.
Variable smarterContextPatchStrategy : PRFile -> jstring.

Definition buildPatchPrompt (file : PRFile) : jstring :=
  match old_contents file with
  | None => rawPatchStrategy file
  | Some _ => smarterContextPatchStrategy file
  end.

Definition getTokenLength (blob : jstring) : N := encode blob.

(** A comparison with an undefined limit is false. *)
Definition isConversationWithinLimit (convo : Conversation) (model : jstring)
  : bool :=
  let convoTokens := encodeChat convo in
  match lookup ModelsToTokenLimits model with
  | Some limit => (convoTokens <? limit)%N
  | None => false
  end.

(** ** Batch planner *)

(** [Map.prototype.get(k).push(file)] on a map kept in insertion order,
    after [set(k, [])] when the key is new. *)
Fixpoint pushAt (k : jstring) (file : PRFile)
    (m : list (jstring * list PRFile)) : list (jstring * list PRFile) :=
  match m with
  | [] => [(k, [file])]
  | (k', fs) :: rest =>
      if jstring_eqb k' k then (k', fs ++ [file]) :: rest
      else (k', fs) :: pushAt k file rest
  end.

(** [file.filename.split(".").pop()?.toLowerCase()]. *)
Definition extensionOf (file : PRFile) : option jstring :=
  option_map toLowerCase (pop (split "." (filename file))).

(** The test [if (extension)] on it. *)
Definition hasExtension (file : PRFile) : bool :=
  match extensionOf file with
  | Some e => truthy e
  | None => false
  end.

Definition groupFilesByExtension (files : list PRFile)
  : list (jstring * list PRFile) :=
  fold_left
    (fun filesByExtension file =>
       let extension := extensionOf file in
       match extension with
       | Some e => if truthy e then pushAt e file filesByExtension
                   else filesByExtension
       | None => filesByExtension
       end)
    files [].

Definition nonemptyEntry (e : jstring * list PRFile) : Prop := snd e <> [].

(** All the files held by the map, key after key. *)
Definition flat (m : list (jstring * list PRFile)) : list PRFile :=
  concat (map snd m).

(** [Array.prototype.sort] with the comparator
    [a.patchTokenLength - b.patchTokenLength]: a stable sort. *)
Fixpoint insertByTokens (file : PRFile) (sorted : list PRFile) : list PRFile :=
  match sorted with
  | [] => [file]
  | x :: rest =>
      if (patchTokenLength file <=? patchTokenLength x)%N then file :: sorted
      else x :: insertByTokens file rest
  end.

Definition sortByTokens (files : list PRFile) : list PRFile :=
  fold_right insertByTokens [] files.

Section Planner.

Variable patchBuilder : PRFile -> jstring.
Variable convoBuilder : jstring -> Conversation.

Definition fits (files : list PRFile) : bool :=
  isConversationWithinLimit
    (constructPrompt files patchBuilder convoBuilder) GROQ_MODEL.

(** A file that fits the budget alone, and a group as the design wants
    it: within the budget and not empty. *)
Definition fitsAlone (f : PRFile) : Prop := fits [f] = true.

Definition goodGroup (g : list PRFile) : Prop := fits g = true /\ g <> [].

(** One step of the loop that packs a sorted extension group: the state is
    the groups closed so far and the group being filled. *)
Definition packStep (st : list (list PRFile) * list PRFile) (file : PRFile)
  : list (list PRFile) * list PRFile :=
  let (processGroups, currentGroup) := st in
  let isPotentialGroupWithinLimit := fits (currentGroup ++ [file]) in
  if isPotentialGroupWithinLimit then (processGroups, currentGroup ++ [file])
  else (processGroups ++ [currentGroup], [file]).

Definition packExtension (processGroups : list (list PRFile))
    (filesForExt : list PRFile) : list (list PRFile) :=
  let (processGroups', currentGroup) :=
    fold_left packStep (sortByTokens filesForExt) (processGroups, []) in
  if 0 <? length currentGroup then processGroups' ++ [currentGroup]
  else processGroups'.

Definition processWithinLimitFiles (files : list PRFile)
  : list (list PRFile) :=
  let convoWithinModelLimit := fits files in
  if negb convoWithinModelLimit then
    let grouped := groupFilesByExtension files in
    fold_left
      (fun processGroups entry =>
         let filesForExt := snd entry in
         let extGroupWithinModelLimit := fits filesForExt in
         if extGroupWithinModelLimit then processGroups ++ [filesForExt]
         else packExtension processGroups filesForExt)
      grouped []
  else [files].

Definition stripRemovedLines (originalFile : PRFile) : PRFile :=
  let originalPatch := patch originalFile in
  let strippedPatch :=
    join NL
      (filter (fun line => negb (startsWith line (str "-")))
              (split LF originalPatch)) in
  {| filename := filename originalFile;
     patch := strippedPatch;
     old_contents := old_contents originalFile;
     current_contents := current_contents originalFile;
     patchTokenLength := patchTokenLength originalFile |}.

(** The files that [processOutsideLimitFiles] collects in its local
    [exceedingLimits] and leaves out of every group. *)
Definition exceedingLimits (files : list PRFile) : list PRFile :=
  match files with
  | [] => []
  | _ :: _ =>
      let files := map stripRemovedLines files in
      if fits files then []
      else filter (fun file => negb (fits [file])) files
  end.

Definition processOutsideLimitFiles (files : list PRFile)
  : list (list PRFile) :=
  match files with
  | [] => []
  | _ :: _ =>
      let files := map stripRemovedLines files in
      let convoWithinModelLimit := fits files in
      if convoWithinModelLimit then [files]
      else
        let withinLimits := filter (fun file => fits [file]) files in
        let withinLimitsGroup := processWithinLimitFiles withinLimits in
        withinLimitsGroup
  end.

End Planner.

(** The first half of [reviewChanges]: filtering, token lengths, and the
    groups that are sent for review. *)
Definition setPatchTokenLength (file : PRFile) : PRFile :=
  {| filename := filename file;
     patch := patch file;
     old_contents := old_contents file;
     current_contents := current_contents file;
     patchTokenLength := getTokenLength (buildPatchPrompt file) |}.

Definition filteredFilesOf (files : list PRFile) : list PRFile :=
  map setPatchTokenLength (filter filterFile files).

Definition patchesWithinModelLimit
    (convoBuilder : jstring -> Conversation) (files : list PRFile)
  : list PRFile :=
  filter (fun file => fits buildPatchPrompt convoBuilder [file])
         (filteredFilesOf files).

Definition patchesOutsideModelLimit
    (convoBuilder : jstring -> Conversation) (files : list PRFile)
  : list PRFile :=
  filter (fun file => negb (fits buildPatchPrompt convoBuilder [file]))
         (filteredFilesOf files).

Definition reviewGroups
    (convoBuilder : jstring -> Conversation) (files : list PRFile)
  : list (list PRFile) :=
  let patchBuilder := buildPatchPrompt in
  let withinLimitsPatchGroups :=
    processWithinLimitFiles patchBuilder convoBuilder
      (patchesWithinModelLimit convoBuilder files) in
  let exceedingLimitsPatchGroups :=
    processOutsideLimitFiles patchBuilder convoBuilder
      (patchesOutsideModelLimit convoBuilder files) in
  withinLimitsPatchGroups ++ exceedingLimitsPatchGroups.

End Engine.

(** ** Prompts *)

(** The double quote, kept out of string literals. *)
Definition DQ : ascii := "034"%char.

Definition REVIEW_DIFF_PROMPT : jstring :=
  join NL
    [ str "You are PR-Reviewer, a language model designed to review git pull requests.";
      str "Your task is to provide constructive and concise feedback for the PR, and also provide meaningful code suggestions.";
      [];
      str "Example PR Diff input:";
      str "'";
      str "## src/file1.py";
      [];
      str "@@ -12,5 +12,5 @@ def func1():";
      str "code line that already existed in the file...";
      str "code line that already existed in the file....";
      str "-code line that was removed in the PR";
      str "+new code line added in the PR";
      str " code line that already existed in the file...";
      str " code line that already existed in the file...";
      [];
      str "@@ ... @@ def func2():";
      str "...";
      [];
      [];
      str "## src/file2.py";
      str "...";
      str "'";
      [];
      str "The review should focus on new code added in the PR (lines starting with '+'), and not on code that already existed in the file (lines starting with '-', or without prefix).";
      [];
      str "- ONLY PROVIDE CODE SUGGESTIONS";
      str "- Focus on important suggestions like fixing code problems, improving performance, improving security, improving readability";
      str "- Avoid making suggestions that have already been implemented in the PR code. For example, if you want to add logs, or change a variable to const, or anything else, make sure it isn't already in the PR code.";
      str "- Don't suggest adding docstring, type hints, or comments.";
      str "- Suggestions should focus on improving the new code added in the PR (lines starting with '+')";
      str "- Do not say things like without seeing the full repo, or full code, or rest of the codebase. Comment only on the code you have!";
      [];
      str "Make sure the provided code suggestions are in the same programming language.";
      [];
      str "Don't repeat the prompt in the answer, and avoid outputting the 'type' and 'description' fields.";
      [];
      str "Think through your suggestions and make exceptional improvements." ].

Definition XML_PR_REVIEW_PROMPT : jstring :=
  join NL
    [ str "As the PR-Reviewer AI model, you are tasked to analyze git pull requests across any programming language and provide comprehensive and precise code enhancements. Keep your focus on the new code modifications indicated by '+' lines in the PR. Your feedback should hunt for code issues, opportunities for performance enhancement, security improvements, and ways to increase readability. ";
      [];
      str "Ensure your suggestions are novel and haven't been previously incorporated in the '+' lines of the PR code. Refrain from proposing enhancements that add docstrings, type hints, or comments. Your recommendations should strictly target the '+' lines without suggesting the need for complete context such as the whole repo or codebase.";
      [];
      str "Your code suggestions should match the programming language in the PR, steer clear of needless repetition or inclusion of 'type' and 'description' fields.";
      [];
      str "IMPORTANT: You MUST follow the exact XML format shown below for your response. Each suggestion must have all the required elements in the exact order shown.";
      [];
      str "Formulate thoughtful suggestions aimed at strengthening performance, security, and readability, and represent them in an XML format utilizing the tags: <review>, <suggestion>, <describe>, <type>, <comment>, <code>, <filename>. While multiple recommendations can be given, they should all reside within one <review> tag.";
      [];
      str "All your code suggestions should follow the valid Markdown syntax for GitHub, identifying the language they're written in, and should be enclosed within triple backticks.";
      [];
      str "Example output:";
      str "<review>";
      str "  <suggestion>";
      str "    <describe>Brief description of the issue</describe>";
      str "    <type>security</type>";
      str "    <comment>Detailed explanation of the security vulnerability and how to fix it</comment>";
      str "    <code>```javascript";
      str "console.log(" ++ [DQ] ++ str "This is secure code" ++ [DQ] ++ str ");";
      str "```</code>";
      str "    <filename>src/example.js</filename>";
      str "  </suggestion>";
      str "  <suggestion>";
      str "    <describe>Performance issue in loop</describe>";
      str "    <type>performance</type>";
      str "    <comment>The current implementation is inefficient because...</comment>";
      str "    <code>```javascript";
      str "// More efficient implementation";
      str "const result = array.map(item => item * 2);";
      str "```</code>";
      str "    <filename>src/utils.js</filename>";
      str "  </suggestion>";
      str "</review>";
      [];
      str "CRITICAL: Make sure each <code> tag contains properly formatted code with triple backticks and language specification.";
      str "CRITICAL: Each suggestion must include ALL five required elements: describe, type, comment, code, and filename.";
      str "CRITICAL: Always wrap your entire response in a single <review> tag." ].

Definition PR_SUGGESTION_TEMPLATE : jstring :=
  join NL
    [ str "{COMMENT}";
      str "{ISSUE_LINK}";
      [];
      str "{CODE}";
      [] ].

Definition getReviewPrompt (diff : jstring) : Conversation :=
  [ {| role := str "system"; content := REVIEW_DIFF_PROMPT |};
    {| role := str "user"; content := diff |} ].

Definition getXMLReviewPrompt (diff : jstring) : Conversation :=
  [ {| role := str "system"; content := XML_PR_REVIEW_PROMPT |};
    {| role := str "user"; content := diff |} ].

(** ** Suggestions and review results *)

(** [PRSuggestion] of constants.ts: the five fields of a suggestion. *)
Record PRSuggestion := mkPRSuggestion {
  sug_describe : jstring;
  sug_type : jstring;
  sug_comment : jstring;
  sug_code : jstring;
  sug_filename : jstring
}.

(** [BuilderResponse] of constants.ts. *)
Record BuilderResponse := mkBuilderResponse {
  comment : jstring;
  structuredComments : list PRSuggestion
}.

(** [Builders] of constants.ts: a prompt builder with its parser. *)
Record Builders := mkBuilders {
  convoBuilder : jstring -> Conversation;
  responseBuilder : list jstring -> Exc BuilderResponse
}.

(** ** Review of the groups and retry over strategies *)

Section Review.

Variable encodeChat : Conversation -> N.
Variable encode : jstring -> N.
Variable rawPatchStrategy : PRFile -> jstring.
Variable smarterContextPatchStrategy : PRFile -> jstring.

(** [generateChatCompletion] of llms/chat on a plain request, by the
    content of the message it resolves to, or the error it rejects with. *)
Variable generateChatCompletion : Conversation -> Exc jstring.

Definition reviewDiff (messages : Conversation) : Exc jstring :=
  content <-! generateChatCompletion messages ;;
  Ok content.

Definition reviewFiles
    (files : list PRFile)
    (patchBuilder : PRFile -> jstring)
    (convoBuilder : jstring -> Conversation) : Exc jstring :=
  let patches := map patchBuilder files in
  let messages := convoBuilder (join NL patches) in
  feedback <-! reviewDiff messages ;;
  Ok feedback.

(** [try { ... } catch (exc) { handler }] around a computation. *)
Definition tryCatch {A} (body : Exc A) (handler : jstring -> Exc A) : Exc A :=
  match body with
  | Ok a => Ok a
  | Raise e => handler e
  end.

(** [reviewChanges] of a run in which the tokenizer and the patch
    strategies return, as the variables of this section do: the
    planning before the [try] then throws nothing.
    [Throwing.reviewChanges] below is the function with a tokenizer and
    patch strategies that can throw. *)
Definition reviewChanges
    (files : list PRFile)
    (convoBuilder : jstring -> Conversation)
    (responseBuilder : list jstring -> Exc BuilderResponse)
  : Exc BuilderResponse :=
  let patchBuilder :=
    buildPatchPrompt rawPatchStrategy smarterContextPatchStrategy in
  let groups :=
    reviewGroups encodeChat encode rawPatchStrategy
      smarterContextPatchStrategy convoBuilder files in
  tryCatch
    (feedbacks <-!
       promiseAll
         (map (fun patchGroup =>
                 reviewFiles patchGroup patchBuilder convoBuilder)
              groups) ;;
     tryCatch
       (responseBuilder feedbacks)
       (fun exc =>
          Ok {| comment :=
                  str "Unable to process XML response correctly. Review generated but parsing failed.";
                structuredComments := [] |}))
    (fun error =>
       Ok {| comment := str "Error occurred during review process";
             structuredComments := [] |}).

Fixpoint reviewChangesRetry (files : list PRFile) (builders : list Builders)
  : Exc BuilderResponse :=
  match builders with
  | [] => Raise (str "All convoBuilders failed.")
  | b :: rest =>
      tryCatch
        (reviewChanges files (convoBuilder b) (responseBuilder b))
        (fun error => reviewChangesRetry files rest)
  end.

End Review.

(** ** Stand-ins for the outside services, for worked scenarios *)

Module Scenario.

(** A tokenizer that counts one token per code unit of content. *)
Definition charTokens (convo : Conversation) : N :=
  fold_right (fun m acc => (N.of_nat (length (content m)) + acc)%N) 0%N convo.

Definition charCount (blob : jstring) : N := N.of_nat (length blob).

(** Modelled from the spec: the raw strategy of context/review, which is
    the diff text of the host under a header with the filename. *)
Definition headerPatch (file : PRFile) : jstring :=
  str "## " ++ filename file ++ NL ++ NL ++ patch file.

(** A changed file as the host lists it: no contents fetched yet. *)
Definition changed (name : string) (diff : jstring) : PRFile :=
  {| filename := str name;
     patch := diff;
     old_contents := None;
     current_contents := None;
     patchTokenLength := 0 |}.

(** Modelled from the spec: the identity of data/PRSuggestionImpl, which
    is derived from the five fields of the suggestion. Here it is their
    texts, each ended by a line feed. *)
Definition contentIdentity (s : PRSuggestion) : jstring :=
  sug_describe s ++ NL ++ sug_type s ++ NL ++ sug_comment s ++ NL
    ++ sug_code s ++ NL ++ sug_filename s ++ NL.

Definition suggest (describe type comment code filename : string)
  : PRSuggestion :=
  {| sug_describe := str describe;
     sug_type := str type;
     sug_comment := str comment;
     sug_code := str code;
     sug_filename := str filename |}.

(** A hunk that adds one line of [n] code units. *)
Definition addedLine (n : N) : jstring :=
  str "@@ -0,0 +1,1 @@" ++ NL ++ repeat "+"%char (N.to_nat n).

End Scenario.

(** ** Regular expressions *)

(** A backtracking matcher in the order of preference of the language:
    alternatives left to right, greedy repetitions longest first, lazy
    ones shortest first. A regular expression literal of the source is a
    value of [re]. *)
Module Regex.

Inductive re : Type :=
| Eps : re
| Chr : (ascii -> bool) -> re
| Seq : re -> re -> re
| Alt : re -> re -> re
| Rep : bool -> nat -> option nat -> re -> re
| Group : nat -> re -> re
| Bol : re
| Eol : re.

(** A position in the subject: its index, the text from there on, and the
    captures made so far. *)
Record mstate := mkState {
  pos : nat;
  rest : jstring;
  caps : list (nat * jstring)
}.

Definition predMax (max : option nat) : option nat := option_map pred max.

Definition maxIsZero (max : option nat) : bool :=
  match max with
  | Some 0 => true
  | _ => false
  end.

(** The loop of a repetition of [one]: at least [min] and at most [max]
    turns, the longer way first when [greedy]. A turn past the first
    [min] ones has to consume input. The fuel is never used up when it is
    more than [min] plus what is left of the subject. *)
Fixpoint repeatRe (one : mstate -> (mstate -> option mstate) -> option mstate)
    (greedy : bool) (k : mstate -> option mstate)
    (fuel min : nat) (max : option nat) (s : mstate) {struct fuel}
  : option mstate :=
  match fuel with
  | 0 => None
  | S fuel' =>
      match min with
      | S min' =>
          one s (fun s1 => repeatRe one greedy k fuel' min' (predMax max) s1)
      | 0 =>
          if maxIsZero max then k s
          else if greedy then
            match one s
                    (fun s1 =>
                       if length (rest s1) <? length (rest s)
                       then repeatRe one greedy k fuel' 0 (predMax max) s1
                       else None) with
            | Some x => Some x
            | None => k s
            end
          else
            match k s with
            | Some x => Some x
            | None =>
                one s
                  (fun s1 =>
                     if length (rest s1) <? length (rest s)
                     then repeatRe one greedy k fuel' 0 (predMax max) s1
                     else None)
            end
      end
  end.

(** [matchRe r s k]: match [r] at [s], then continue with [k]. *)
Fixpoint matchRe (r : re) (s : mstate) (k : mstate -> option mstate)
    {struct r} : option mstate :=
  match r with
  | Eps => k s
  | Chr p =>
      match rest s with
      | c :: s' =>
          if p c then k (mkState (S (pos s)) s' (caps s)) else None
      | [] => None
      end
  | Seq a b => matchRe a s (fun s1 => matchRe b s1 k)
  | Alt a b =>
      match matchRe a s k with
      | Some x => Some x
      | None => matchRe b s k
      end
  | Rep greedy min max a =>
      repeatRe (matchRe a) greedy k (min + length (rest s) + 1) min max s
  | Group i a =>
      matchRe a s
        (fun s1 =>
           k (mkState (pos s1) (rest s1)
                (caps s1 ++ [(i, firstn (pos s1 - pos s) (rest s))])))
  | Bol => if pos s =? 0 then k s else None
  | Eol => match rest s with [] => k s | _ :: _ => None end
  end.

(** The end of the subject, as an index: it is the same all along a
    match. *)
Definition endOf (s : mstate) : nat := pos s + length (rest s).

(** [s'] is [s] or a later position of the same subject. *)
Definition later (s s' : mstate) : Prop :=
  pos s <= pos s' /\ endOf s' = endOf s.

(** A match: where it starts, where it ends, and what it captured. *)
Record rmatch := mkMatch {
  index : nat;
  final : nat;
  text : jstring;
  groups : list (nat * jstring)
}.

(** Capture [i] of a match; [None] is undefined. The last entry wins. *)
Fixpoint capture (i : nat) (gs : list (nat * jstring)) : option jstring :=
  match gs with
  | [] => None
  | (j, v) :: rest =>
      match capture i rest with
      | Some w => Some w
      | None => if j =? i then Some v else None
      end
  end.

Definition matchAt (r : re) (p : nat) (s : jstring) : option rmatch :=
  match matchRe r (mkState p s []) Some with
  | Some e => Some (mkMatch p (pos e) (firstn (pos e - p) s) (caps e))
  | None => None
  end.

(** The leftmost match in [s], the text from index [p] on. *)
Fixpoint search (r : re) (p : nat) (s : jstring) : option rmatch :=
  match matchAt r p s with
  | Some m => Some m
  | None =>
      match s with
      | [] => None
      | _ :: s' => search r (S p) s'
      end
  end.

(** [RegExp.prototype.exec] from [lastIndex]. *)
Definition exec (r : re) (subject : jstring) (lastIndex : nat)
  : option rmatch :=
  if length subject <? lastIndex then None
  else search r lastIndex (skipn lastIndex subject).

(** [String.prototype.match] and [RegExp.prototype.test] without the
    global flag. *)
Definition firstMatch (r : re) (subject : jstring) : option rmatch :=
  exec r subject 0.

Definition test (r : re) (subject : jstring) : bool :=
  match firstMatch r subject with
  | Some _ => true
  | None => false
  end.

(** [String.prototype.replace] with a global expression and a replacer
    function. After an empty match the scan moves on by one code unit. *)
Fixpoint replaceFrom (fuel : nat) (r : re) (replacer : rmatch -> jstring)
    (p : nat) (s : jstring) : jstring :=
  match fuel with
  | 0 => s
  | S fuel' =>
      match search r p s with
      | None => s
      | Some m =>
          let before := firstn (index m - p) s in
          let after := skipn (final m - p) s in
          if final m =? index m then
            match after with
            | [] => before ++ replacer m
            | c :: after' =>
                before ++ replacer m ++ c
                  :: replaceFrom fuel' r replacer (S (final m)) after'
            end
          else
            before ++ replacer m
              ++ replaceFrom fuel' r replacer (final m) after
      end
  end.

Definition replaceAll (r : re) (replacer : rmatch -> jstring)
    (subject : jstring) : jstring :=
  replaceFrom (S (length subject)) r replacer 0 subject.

(** [String.prototype.split] with an expression without captures:
    [p] is the end of the last separator, [q] the position tried. *)
Fixpoint splitFrom (fuel : nat) (r : re) (subject : jstring) (p q : nat)
  : list jstring :=
  match fuel with
  | 0 => [skipn p subject]
  | S fuel' =>
      if q <? length subject then
        match matchAt r q (skipn q subject) with
        | None => splitFrom fuel' r subject p (S q)
        | Some m =>
            let e := Nat.min (final m) (length subject) in
            if e =? p then splitFrom fuel' r subject p (S q)
            else firstn (q - p) (skipn p subject)
                   :: splitFrom fuel' r subject e e
        end
      else [skipn p subject]
  end.

Definition splitRe (r : re) (subject : jstring) : list jstring :=
  match subject with
  | [] =>
      match matchAt r 0 [] with
      | Some _ => []
      | None => [[]]
      end
  | _ :: _ => splitFrom (2 * length subject + 2) r subject 0 0
  end.

(** *** Building blocks *)

Definition chr (c : ascii) : re := Chr (Ascii.eqb c).

(** A letter under the flag i: either case of it. *)
Definition chrI (c : ascii) : re :=
  Chr (fun x => Ascii.eqb (lower_char x) (lower_char c)).

Fixpoint seqOf (rs : list re) : re :=
  match rs with
  | [] => Eps
  | [r] => r
  | r :: rest => Seq r (seqOf rest)
  end.

Definition lit (s : string) : re := seqOf (map chr (str s)).
Definition litI (s : string) : re := seqOf (map chrI (str s)).

Definition star (a : re) : re := Rep true 0 None a.
Definition plus (a : re) : re := Rep true 1 None a.
Definition opt (a : re) : re := Rep true 0 (Some 1) a.
Definition lazyStar (a : re) : re := Rep false 0 None a.

Definition inRange (lo hi : nat) (c : ascii) : bool :=
  (lo <=? code c) && (code c <=? hi).

Definition is_digit (c : ascii) : bool := inRange 48 57 c.
Definition is_alnum (c : ascii) : bool :=
  inRange 97 122 c || inRange 65 90 c || is_digit c.
Definition is_word (c : ascii) : bool := is_alnum c || Ascii.eqb c "_".

Definition digit : re := Chr is_digit.
Definition word : re := Chr is_word.
Definition space : re := Chr is_space.
Definition anyChar : re := Chr (fun _ => true).

End Regex.

(** ** Numbers as text *)

(** The numbers of the source are doubles. An integer below 2^53 in
    absolute value is a double, and the sum of two such integers below
    2^53 is their sum as doubles; from 2^53 on a double stands for the
    nearest integer it can hold. The integers here are exact, so they
    are the numbers of the source below 2^53 only. *)

(** The decimal text of an integer below 10^21 in absolute value, as
    [String(n)] gives it. *)
Definition numberToString (z : Z) : jstring :=
  str (NilZero.string_of_int (Z.to_int z)).

(** [parseInt] on a run of decimal digits: the number they write, which
    is the number of the source when it is below 2^53. *)
Definition parseInt (digits : jstring) : N :=
  fold_left (fun acc c => (acc * 10 + N.of_nat (code c - 48))%N) digits 0%N.

(** ** Line numbers for a diff (prompts.ts) *)

(** [/@@ -\d+,\d+ \+(\d+),\d+ @@/] *)
Definition hunkHeader : Regex.re :=
  Regex.seqOf
    [ Regex.lit "@@ -"; Regex.plus Regex.digit; Regex.chr ",";
      Regex.plus Regex.digit; Regex.lit " +";
      Regex.Group 1 (Regex.plus Regex.digit); Regex.chr ",";
      Regex.plus Regex.digit; Regex.lit " @@" ].

(** The start line that a chunk header gives for the new file; reading
    group 1 of a failed match throws a TypeError. *)
Definition hunkStart (line : jstring) : Exc N :=
  match Regex.firstMatch hunkHeader line with
  | None => Raise (str "TypeError: Cannot read properties of null")
  | Some m =>
      match Regex.capture 1 (Regex.groups m) with
      | Some digits => Ok (parseInt digits)
      | None => Raise (str "TypeError: Cannot read properties of null")
      end
  end.

(** The loop of [assignLineNumbers] over the lines that remain, with
    [newLine] the number of the next line of the new file. *)
Fixpoint numberLines (newLine : N) (lines : list jstring)
  : Exc (list jstring) :=
  match lines with
  | [] => Ok []
  | line :: rest =>
      if startsWith line (str "@@") then
        start <-! hunkStart line ;;
        lineNumbers <-! numberLines start rest ;;
        Ok (line :: lineNumbers)
      else if negb (startsWith line (str "-")) then
        lineNumbers <-! numberLines (newLine + 1) rest ;;
        Ok ((numberToString (Z.of_N newLine) ++ str ": " ++ line)
              :: lineNumbers)
      else numberLines newLine rest
  end.

(** The value of [newLine] after the loop has gone over [lines] without
    throwing. *)
Fixpoint nextLine (newLine : N) (lines : list jstring) : N :=
  match lines with
  | [] => newLine
  | line :: rest =>
      if startsWith line (str "@@") then
        match hunkStart line with
        | Ok start => nextLine start rest
        | Raise _ => nextLine newLine rest
        end
      else if negb (startsWith line (str "-")) then
        nextLine (newLine + 1) rest
      else nextLine newLine rest
  end.

(** A line that the loop can take: if it starts as a chunk header, it
    holds one. *)
Definition wellFormedLine (line : jstring) : Prop :=
  startsWith line (str "@@") = true -> exists start, hunkStart line = Ok start.

(** The lines [kept], numbered from [newLine] on. *)
Fixpoint numbered (newLine : N) (kept : list jstring) : list jstring :=
  match kept with
  | [] => []
  | line :: rest =>
      (numberToString (Z.of_N newLine) ++ str ": " ++ line)
        :: numbered (newLine + 1) rest
  end.

Definition isRemoved (line : jstring) : bool := startsWith line (str "-").

Definition assignLineNumbers (diff : jstring) : Exc jstring :=
  let lines := split LF diff in
  lineNumbers <-! numberLines 0 lines ;;
  Ok (join NL lineNumbers).

Definition buildSuggestionPrompt (file : PRFile) : Exc jstring :=
  let rawPatch := patch file in
  patchWithLines <-! assignLineNumbers rawPatch ;;
  Ok (str "## " ++ filename file ++ NL ++ NL ++ patchWithLines).

(** ** Deduplication *)

(** [Map.prototype.set] on a map kept in insertion order: a key that is
    present keeps its place and takes the new value. *)
Fixpoint mapSet {V} (k : jstring) (v : V) (m : list (jstring * V))
  : list (jstring * V) :=
  match m with
  | [] => [(k, v)]
  | (k', v') :: rest =>
      if jstring_eqb k' k then (k', v) :: rest
      else (k', v') :: mapSet k v rest
  end.

Section Dedup.

(** [PRSuggestionImpl.identity] of data/PRSuggestionImpl. *)
Variable identity : PRSuggestion -> jstring.

Definition dedupSuggestions (suggestions : list PRSuggestion)
  : list PRSuggestion :=
  let suggestionsMap :=
    fold_left
      (fun suggestionsMap suggestion =>
         mapSet (identity suggestion) suggestion suggestionsMap)
      suggestions [] in
  map snd suggestionsMap.

(** One turn of the loop, and the map under construction: its keys are
    distinct, every value sits under its own identity. *)
Definition dedupStep (m : list (jstring * PRSuggestion)) (s : PRSuggestion) :=
  mapSet (identity s) s m.

Definition keyed (m : list (jstring * PRSuggestion)) : Prop :=
  NoDup (map fst m) /\ Forall (fun e => identity (snd e) = fst e) m.

(** The last suggestion of a list that has the identity [k]. *)
Fixpoint lastWith (k : jstring) (l : list PRSuggestion)
  : option PRSuggestion :=
  match l with
  | [] => None
  | s :: rest =>
      match lastWith k rest with
      | Some x => Some x
      | None => if jstring_eqb (identity s) k then Some s else None
      end
  end.

End Dedup.

(** ** Issue links *)

(** [encodeURIComponent] on code units below 256: the unreserved marks
    stay, the rest is the percent-encoded UTF-8 of the code unit. *)
Definition hexDigit (n : nat) : ascii :=
  if n <? 10 then ascii_of_nat (48 + n) else ascii_of_nat (55 + n).

Definition percent (byte : nat) : jstring :=
  ["%"%char; hexDigit (byte / 16); hexDigit (byte mod 16)].

Definition uriUnreserved (c : ascii) : bool :=
  Regex.is_alnum c || existsb (Ascii.eqb c) (str "-_.!~*'()").

Definition encodeChar (c : ascii) : jstring :=
  if uriUnreserved c then [c]
  else if code c <? 128 then percent (code c)
  else percent (192 + code c / 64) ++ percent (128 + code c mod 64).

Definition encodeURIComponent (s : jstring) : jstring :=
  flat_map encodeChar s.

(** [/^[a-zA-Z0-9-_.]+$/] *)
Definition safeNameChar (c : ascii) : bool :=
  Regex.is_alnum c || existsb (Ascii.eqb c) (str "-_.").

Definition safeName : Regex.re :=
  Regex.seqOf [Regex.Bol; Regex.plus (Regex.Chr safeNameChar); Regex.Eol].

Definition issuePlaceholder : jstring :=
  str "[Create Issue](https://github.com)".

(** [generateGithubIssueUrl] on texts of code units below 256. On these
    [encodeURIComponent] does not throw and the [catch] is not entered;
    [Wide.generateGithubIssueUrl] below is the function on texts of any
    code units, with the [catch]. *)
Definition generateGithubIssueUrl
    (owner repoName title body : jstring) (codeblock : option jstring)
  : jstring :=
  if negb (truthy owner) || negb (truthy repoName) then issuePlaceholder
  else if negb (Regex.test safeName owner)
          || negb (Regex.test safeName repoName)
  then issuePlaceholder
  else
    let sanitizedTitle := substring0 200 title in
    let sanitizedBody := substring0 5000 body in
    let sanitizedCodeBlock :=
      match codeblock with
      | Some c => if truthy c then substring0 10000 c else []
      | None => []
      end in
    let encodedTitle := encodeURIComponent sanitizedTitle in
    let encodedBody := encodeURIComponent sanitizedBody in
    let encodedCodeBlock :=
      if truthy sanitizedCodeBlock
      then encodeURIComponent (NL ++ sanitizedCodeBlock ++ NL)
      else [] in
    let base :=
      str "https://github.com/" ++ owner ++ str "/" ++ repoName
        ++ str "/issues/new?title=" ++ encodedTitle
        ++ str "&body=" ++ encodedBody in
    let url := base ++ encodedCodeBlock in
    let url := if 2048 <? length url then base else url in
    str "[Create Issue](" ++ url ++ str ")".

(** ** Comment rendering *)

(** [Map.get(k).push(v)] after [set(k, [])] for a new key, on a map kept
    in insertion order. *)
Fixpoint pushSuggestion (k : jstring) (v : PRSuggestion)
    (m : list (jstring * list PRSuggestion))
  : list (jstring * list PRSuggestion) :=
  match m with
  | [] => [(k, [v])]
  | (k', vs) :: rest =>
      if jstring_eqb k' k then (k', vs ++ [v]) :: rest
      else (k', vs) :: pushSuggestion k v rest
  end.

Definition convertPRSuggestionToComment
    (owner repo : jstring) (suggestions : list PRSuggestion)
  : list jstring :=
  let suggestionsMap :=
    fold_left
      (fun m suggestion => pushSuggestion (sug_filename suggestion) suggestion m)
      suggestions [] in
  map
    (fun entry =>
       let '(filename, suggestions) := entry in
       let temp :=
         (str "## " ++ filename ++ NL)
           :: map
                (fun suggestion =>
                   let issueLink :=
                     generateGithubIssueUrl owner repo
                       (sug_describe suggestion) (sug_comment suggestion)
                       (Some (sug_code suggestion)) in
                   replaceFirst
                     (replaceFirst
                        (replaceFirst PR_SUGGESTION_TEMPLATE
                           (str "{COMMENT}") (sug_comment suggestion))
                        (str "{CODE}") (sug_code suggestion))
                     (str "{ISSUE_LINK}") issueLink)
                suggestions in
       join NL temp)
    suggestionsMap.

(** ** The fallback parser *)

(** [/```(?:(\w+))?\s*([\s\S]*?)```/g] *)
Definition codeBlockRegex : Regex.re :=
  Regex.seqOf
    [ Regex.lit "```";
      Regex.opt (Regex.Group 1 (Regex.plus Regex.word));
      Regex.star Regex.space;
      Regex.Group 2 (Regex.lazyStar Regex.anyChar);
      Regex.lit "```" ].

(** [([^\s,]+\.[a-zA-Z0-9]+)] *)
Definition dottedName : Regex.re :=
  Regex.Group 1
    (Regex.seqOf
       [ Regex.plus
           (Regex.Chr (fun c => negb (is_space c || Ascii.eqb c ",")));
         Regex.chr ".";
         Regex.plus (Regex.Chr Regex.is_alnum) ]).

(** [(?:file|filename|path)] under the flag i. *)
Definition fileWord : Regex.re :=
  Regex.Alt (Regex.litI "file")
    (Regex.Alt (Regex.litI "filename") (Regex.litI "path")).

Definition filenamePatterns : list Regex.re :=
  [ Regex.seqOf
      [ fileWord;
        Regex.plus (Regex.Chr (fun c => Ascii.eqb c ":" || is_space c));
        dottedName ];
    Regex.seqOf
      [ Regex.litI "in"; Regex.plus Regex.space; Regex.opt fileWord;
        Regex.plus Regex.space; dottedName ];
    Regex.seqOf
      [ Regex.litI "for"; Regex.plus Regex.space; Regex.opt fileWord;
        Regex.plus Regex.space; dottedName ];
    Regex.seqOf [ dottedName; Regex.chr ":" ] ].

(** The loop over the patterns: the first that matches gives the name. *)
Fixpoint findFilename (patterns : list Regex.re) (beforeBlock : jstring)
  : option jstring :=
  match patterns with
  | [] => None
  | pattern :: rest =>
      match Regex.firstMatch pattern beforeBlock with
      | Some filenameMatch => Regex.capture 1 (Regex.groups filenameMatch)
      | None => findFilename rest beforeBlock
      end
  end.

(** The own properties of the literal [extensionMap]. *)
Definition extensionMap : list (jstring * jstring) :=
  map (fun kv => (str (fst kv), str (snd kv)))
    [ ("js", "js"); ("javascript", "js"); ("ts", "ts"); ("typescript", "ts");
      ("py", "py"); ("python", "py"); ("java", "java"); ("c", "c");
      ("cpp", "cpp"); ("cs", "cs"); ("go", "go"); ("rust", "rs");
      ("php", "php"); ("ruby", "rb"); ("html", "html"); ("css", "css")
    ]%string.

(** [x || y] on strings. *)
Definition orElse (x y : jstring) : jstring := if truthy x then x else y.

(** [/\n\s*\n/] and [/[.!?]\s+/] *)
Definition paragraphBreak : Regex.re :=
  Regex.seqOf [Regex.chr LF; Regex.star Regex.space; Regex.chr LF].

Definition sentenceEnd : Regex.re :=
  Regex.seqOf
    [ Regex.Chr (fun c => existsb (Ascii.eqb c) (str ".!?"));
      Regex.plus Regex.space ].

Definition tooShort (comment : jstring) : bool :=
  negb (truthy comment) || (length comment <? 20).

Definition extractComment (beforeBlock language : jstring) : jstring :=
  let commentSearchArea := sliceFrom beforeBlock (-300) in
  let paragraphs := Regex.splitRe paragraphBreak commentSearchArea in
  let comment :=
    if 0 <? length paragraphs then trim (last paragraphs []) else [] in
  let comment :=
    if tooShort comment then
      let sentences := Regex.splitRe sentenceEnd commentSearchArea in
      if 0 <? length sentences
      then trim (join (str ". ") (sliceFrom sentences (-2)))
      else comment
    else comment in
  if tooShort comment then
    str "Consider this code improvement for better " ++ language
      ++ str " implementation"
  else comment.

(** What the literal inherits from [Object.prototype] under a name that
    a language tag in lower case can spell: the constructor and the
    prototype. Both are truthy, and the template of the filename turns
    them into text, as Node prints them. *)
Definition inheritedProperties : list (jstring * jstring) :=
  map (fun kv => (str (fst kv), str (snd kv)))
    [ ("constructor", "function Object() { [native code] }");
      ("__proto__", "[object Object]") ]%string.

(** The name made from the language when no name is found:
    [extensionMap[language.toLowerCase()] || 'txt'] in the template of
    the filename. *)
Definition fallbackFilename (language : jstring) : jstring :=
  let extension :=
    match lookup extensionMap (toLowerCase language) with
    | Some e => orElse e (str "txt")
    | None =>
        match lookup inheritedProperties (toLowerCase language) with
        | Some inherited => inherited
        | None => str "txt"
        end
    end in
  str "code-suggestion." ++ extension.

(** The body of the loop for one match of [codeBlockRegex]: the
    suggestion it pushes, or [None] when it skips the block. *)
Definition suggestionOfBlock (text : jstring) (m : Regex.rmatch)
  : option PRSuggestion :=
  let language :=
    match Regex.capture 1 (Regex.groups m) with
    | Some l => orElse l (str "js")
    | None => str "js"
    end in
  let code :=
    match Regex.capture 2 (Regex.groups m) with
    | Some c => c
    | None => []
    end in
  if negb (truthy code) || (length (trim code) =? 0) then None
  else
    let searchStart := Regex.index m - 500 in
    let beforeBlock := substring searchStart (Regex.index m) text in
    let filename := findFilename filenamePatterns beforeBlock in
    let filename :=
      match filename with
      | Some f => if truthy f then f else fallbackFilename language
      | None => fallbackFilename language
      end in
    let comment := extractComment beforeBlock language in
    Some
      {| sug_describe := str "Code suggestion for " ++ filename;
         sug_type := str "improvement";
         sug_comment := comment;
         sug_code :=
           str "```" ++ language ++ NL ++ code ++ NL ++ str "```";
         sug_filename := filename |}.

(** The loop [while ((match = codeBlockRegex.exec(text)) !== null)], with
    [lastIndex] the index where the next search starts. Every match is at
    least six code units long, so a fuel of the length of the text is
    never used up; [None] would mean that it is. *)
Fixpoint fallbackLoop (fuel : nat) (text : jstring) (lastIndex : nat)
  : option (list PRSuggestion) :=
  match Regex.exec codeBlockRegex text lastIndex with
  | None => Some []
  | Some m =>
      match fuel with
      | 0 => None
      | S fuel' =>
          match fallbackLoop fuel' text (Regex.final m) with
          | None => None
          | Some suggestions =>
              match suggestionOfBlock text m with
              | Some suggestion => Some (suggestion :: suggestions)
              | None => Some suggestions
              end
          end
      end
  end.

(** The matches that a loop over [exec] with a global expression goes
    through, from [lastIndex] on; [None] when the fuel is used up. *)
Fixpoint execAll (fuel : nat) (r : Regex.re) (text : jstring)
    (lastIndex : nat) : option (list Regex.rmatch) :=
  match Regex.exec r text lastIndex with
  | None => Some []
  | Some m =>
      match fuel with
      | 0 => None
      | S fuel' =>
          match execAll fuel' r text (Regex.final m) with
          | None => None
          | Some ms => Some (m :: ms)
          end
      end
  end.

(** The fenced code blocks of a reply, as the parser finds them. *)
Definition codeBlocks (text : jstring) : list Regex.rmatch :=
  match execAll (length text) codeBlockRegex text 0 with
  | Some ms => ms
  | None => []
  end.

(** The body of a block, after the language and the white space that
    follows it, and the test that makes the parser skip the block. *)
Definition blockBody (m : Regex.rmatch) : jstring :=
  match Regex.capture 2 (Regex.groups m) with
  | Some c => c
  | None => []
  end.

Definition isBlank (code : jstring) : bool :=
  negb (truthy code) || (length (trim code) =? 0).

(** [map] followed by the removal of the undefined results. *)
Fixpoint filterMap {A B} (f : A -> option B) (l : list A) : list B :=
  match l with
  | [] => []
  | x :: rest =>
      match f x with
      | Some y => y :: filterMap f rest
      | None => filterMap f rest
      end
  end.

Definition fallbackTextParser (text : jstring) : list PRSuggestion :=
  match fallbackLoop (length text) text 0 with
  | Some suggestions => suggestions
  | None => []
  end.

(** ** JavaScript values *)

(** The values that the XML parser and [JSON.parse] build. The fields of
    an object are in the order of enumeration. *)
Inductive JSValue : Type :=
| JUndefined : JSValue
| JNull : JSValue
| JBool : bool -> JSValue
| JNum : Z -> JSValue
| JStr : jstring -> JSValue
| JArr : list JSValue -> JSValue
| JObj : list (jstring * JSValue) -> JSValue.

Module Value.

(** Truthiness, as [!v] and [v && ...] test it. *)
Definition truthyV (v : JSValue) : bool :=
  match v with
  | JUndefined | JNull => false
  | JBool b => b
  | JNum z => negb (z =? 0)%Z
  | JStr s => truthy s
  | JArr _ | JObj _ => true
  end.

Definition isString (v : JSValue) : bool :=
  match v with JStr _ => true | _ => false end.

Definition isNumber (v : JSValue) : bool :=
  match v with JNum _ => true | _ => false end.

(** [typeof v === 'object'] *)
Definition isObjectType (v : JSValue) : bool :=
  match v with JNull | JArr _ | JObj _ => true | _ => false end.

Definition isNull (v : JSValue) : bool :=
  match v with JNull => true | _ => false end.

Definition isArray (v : JSValue) : bool :=
  match v with JArr _ => true | _ => false end.

(** Reading the property [name] of a value that is neither null nor
    undefined, for a name that is neither an index nor [length]. *)
Definition get (v : JSValue) (name : string) : JSValue :=
  match v with
  | JObj fields =>
      match lookup fields (str name) with
      | Some x => x
      | None => JUndefined
      end
  | _ => JUndefined
  end.

(** [String(v)] *)
Fixpoint toStr (v : JSValue) : jstring :=
  match v with
  | JUndefined => str "undefined"
  | JNull => str "null"
  | JBool true => str "true"
  | JBool false => str "false"
  | JNum z => numberToString z
  | JStr s => s
  | JArr items =>
      join (str ",")
        ((fix each (l : list JSValue) : list jstring :=
            match l with
            | [] => []
            | x :: l' =>
                match x with
                | JUndefined | JNull => []
                | _ => toStr x
                end :: each l'
            end) items)
  | JObj _ => str "[object Object]"
  end.

(** The quoting of a string by [JSON.stringify]. *)
Definition lowerHex (n : nat) : ascii :=
  if n <? 10 then ascii_of_nat (48 + n) else ascii_of_nat (87 + n).

Definition quoteChar (c : ascii) : jstring :=
  let n := code c in
  if n =? 34 then str "\" ++ [DQ]
  else if n =? 92 then str "\\"
  else if n =? 8 then str "\b"
  else if n =? 9 then str "\t"
  else if n =? 10 then str "\n"
  else if n =? 12 then str "\f"
  else if n =? 13 then str "\r"
  else if n <? 32 then str "\u00" ++ [lowerHex (n / 16); lowerHex (n mod 16)]
  else [c].

Definition quote (s : jstring) : jstring :=
  [DQ] ++ flat_map quoteChar s ++ [DQ].

(** [JSON.stringify(v)] without indentation, for a value that is not
    undefined: an undefined item of an array is [null], an undefined
    field of an object is left out. *)
Fixpoint stringify (v : JSValue) : jstring :=
  match v with
  | JUndefined => str "undefined"
  | JNull => str "null"
  | JBool true => str "true"
  | JBool false => str "false"
  | JNum z => numberToString z
  | JStr s => quote s
  | JArr items =>
      str "["
        ++ join (str ",")
             ((fix each (l : list JSValue) : list jstring :=
                 match l with
                 | [] => []
                 | x :: l' =>
                     match x with
                     | JUndefined => str "null"
                     | _ => stringify x
                     end :: each l'
                 end) items)
        ++ str "]"
  | JObj fields =>
      str "{"
        ++ join (str ",")
             ((fix each (l : list (jstring * JSValue)) : list jstring :=
                 match l with
                 | [] => []
                 | (k, x) :: l' =>
                     match x with
                     | JUndefined => each l'
                     | _ => (quote k ++ str ":" ++ stringify x) :: each l'
                     end
                 end) fields)
        ++ str "}"
  end.

(** [JSON.stringify]: undefined for the undefined value. *)
Definition JSON_stringify (v : JSValue) : option jstring :=
  match v with
  | JUndefined => None
  | _ => Some (stringify v)
  end.

(** [Array.prototype.flat(1)] *)
Definition flat1 (l : list JSValue) : list JSValue :=
  flat_map (fun v => match v with JArr items => items | _ => [v] end) l.

End Value.

(** ** The structured parser *)

(** [/<!DOCTYPE[^>]*>/gi] and [/<!ENTITY[^>]*>/gi] *)
Definition notGt : Regex.re := Regex.Chr (fun c => negb (Ascii.eqb c ">")).

Definition doctypeDecl : Regex.re :=
  Regex.seqOf [Regex.litI "<!DOCTYPE"; Regex.star notGt; Regex.chr ">"].

Definition entityDecl : Regex.re :=
  Regex.seqOf [Regex.litI "<!ENTITY"; Regex.star notGt; Regex.chr ">"].

(** [/<code>([\s\S]*?)<\/code>/g] *)
Definition codeElement : Regex.re :=
  Regex.seqOf
    [ Regex.lit "<code>"; Regex.Group 1 (Regex.lazyStar Regex.anyChar);
      Regex.lit "</code>" ].

(** [/```[\w]*\n/g] and [/```/g] *)
Definition openingFence : Regex.re :=
  Regex.seqOf [Regex.lit "```"; Regex.star Regex.word; Regex.chr LF].

Definition fence : Regex.re := Regex.lit "```".

(** The expression for a fenced block with its language on the opening
    line: three backticks, group 1 of word characters, a line feed, group
    2 lazily, three backticks; global. *)
Definition fencedBlock : Regex.re :=
  Regex.seqOf
    [ Regex.lit "```"; Regex.Group 1 (Regex.star Regex.word); Regex.chr LF;
      Regex.Group 2 (Regex.lazyStar Regex.anyChar); Regex.lit "```" ].

Definition captureOr (i : nat) (m : Regex.rmatch) : jstring :=
  match Regex.capture i (Regex.groups m) with
  | Some v => v
  | None => []
  end.

Definition cdataCode (inner : jstring) : jstring :=
  str "<code><![CDATA[" ++ inner ++ str "]]></code>".

(** The text that is handed to the XML parser for one reply, or [None]
    when the reply has no review element. *)
Definition sanitizeFeedback (fb : jstring) : option jstring :=
  if negb (includes fb (str "<review>"))
     || negb (includes fb (str "</review>"))
  then None
  else
    match indexOf fb (str "<review>"), lastIndexOf fb (str "</review>") with
    | Some reviewStartIndex, Some closing =>
        let reviewEndIndex := closing + length (str "</review>") in
        let fb := substring reviewStartIndex reviewEndIndex fb in
        let sanitizedFb :=
          Regex.replaceAll entityDecl (fun _ => [])
            (Regex.replaceAll doctypeDecl (fun _ => []) fb) in
        let sanitizedFb :=
          Regex.replaceAll codeElement
            (fun m =>
               let codeContent := captureOr 1 m in
               let cleanCode :=
                 Regex.replaceAll fence (fun _ => [])
                   (Regex.replaceAll openingFence (fun _ => []) codeContent) in
               cdataCode cleanCode)
            sanitizedFb in
        let sanitizedFb :=
          Regex.replaceAll fencedBlock
            (fun m => cdataCode (captureOr 2 m))
            sanitizedFb in
        Some sanitizedFb
    | _, _ => None
    end.

(** The placeholder [{ review: { suggestion: [] } }]. *)
Definition emptyReview : JSValue :=
  JObj [(str "review", JObj [(str "suggestion", JArr [])])].

(** A field that may come as a string or as a list: the string, or the
    text of the first item, or the empty string. *)
Definition textField (v : JSValue) : jstring :=
  match v with
  | JStr s => s
  | JArr (first :: _) => Value.toStr first
  | _ => []
  end.

(** The test [v._ && typeof v._ === 'string'], with the text it finds. *)
Definition charData (v : JSValue) : option jstring :=
  match Value.get v "_" with
  | JStr s => if truthy s then Some s else None
  | _ => None
  end.

(** The text of the code field, normalized over its shapes; [None] when
    the suggestion is dropped for its code. *)
Definition codeContentOf (code : JSValue) : option jstring :=
  match code with
  | JStr s => Some s
  | JArr (firstElement :: _) =>
      match firstElement with
      | JStr s => Some s
      | JArr _ | JObj _ =>
          match charData firstElement with
          | Some s => Some s
          | None =>
              if Value.truthyV (Value.get firstElement "$")
              then Value.JSON_stringify (Value.get firstElement "$")
              else Value.JSON_stringify firstElement
          end
      | _ => None
      end
  | JArr [] | JObj _ =>
      match charData code with
      | Some s => Some s
      | None =>
          if Value.truthyV (Value.get code "$")
             && Value.isObjectType (Value.get code "$")
          then Value.JSON_stringify (Value.get code "$")
          else Value.JSON_stringify code
      end
  | _ => None
  end.

(** [array[i] = f(array[i])] for the first and for the last item. *)
Definition mapFirst {A} (f : A -> A) (l : list A) : list A :=
  match l with
  | [] => []
  | x :: rest => f x :: rest
  end.

Definition mapLast {A} (f : A -> A) (l : list A) : list A :=
  rev (mapFirst f (rev l)).

(** The callback of [allSuggestions.map]: the suggestion built from one
    parsed element, or [None] for null. *)
Definition normalizeSuggestion (rawSuggestion : JSValue)
  : option PRSuggestion :=
  if negb (Value.truthyV rawSuggestion) then None
  else if negb (Value.truthyV (Value.get rawSuggestion "code")) then None
  else
    match codeContentOf (Value.get rawSuggestion "code") with
    | None => None
    | Some codeContent =>
        let lines := split LF (trim codeContent) in
        let lines := mapFirst trim lines in
        let lines := mapLast trim lines in
        let code := join NL lines in
        Some
          {| sug_describe := textField (Value.get rawSuggestion "describe");
             sug_type := textField (Value.get rawSuggestion "type");
             sug_comment := textField (Value.get rawSuggestion "comment");
             sug_code := code;
             sug_filename := textField (Value.get rawSuggestion "filename") |}
    end.

(** [filter(Boolean)] after a map to suggestions or null. *)
Fixpoint filterBoolean {A} (l : list (option A)) : list A :=
  match l with
  | [] => []
  | Some x :: rest => x :: filterBoolean rest
  | None :: rest => filterBoolean rest
  end.

Section StructuredParser.

(** [xmlParser.parseStringPromise] of xml2js with the options of the
    source: the parsed document, or the error it rejects with. *)
Variable parseStringPromise : jstring -> Exc JSValue.

Definition parseFeedback (fb : jstring) : JSValue :=
  match sanitizeFeedback fb with
  | None => emptyReview
  | Some sanitizedFb =>
      match parseStringPromise sanitizedFb with
      | Ok result => result
      | Raise _ => emptyReview
      end
  end.

(** The suggestion elements of all the replies, flattened one level. *)
Definition allSuggestionsOf (feedbacks : list jstring) : list JSValue :=
  let parsedSuggestions := map parseFeedback feedbacks in
  Value.flat1
    (map (fun sug => Value.get (Value.get sug "review") "suggestion")
       (filter
          (fun sug =>
             Value.truthyV sug
             && Value.truthyV (Value.get sug "review")
             && Value.truthyV (Value.get (Value.get sug "review") "suggestion"))
          parsedSuggestions)).

Definition processXMLSuggestions (feedbacks : list jstring)
  : list PRSuggestion :=
  let allSuggestions := allSuggestionsOf feedbacks in
  filterBoolean (map normalizeSuggestion allSuggestions).

End StructuredParser.

(** ** Inline fixes *)

(** [CodeSuggestion] of constants.ts. The comment is whatever value the
    arguments of the function call carry. *)
Record CodeSuggestion := mkCodeSuggestion {
  file : jstring;
  line_start : Z;
  line_end : Z;
  correction : jstring;
  fix_comment : JSValue
}.

(** [/^[ \t]{0,100}/]: up to a hundred leading spaces and tabs. *)
Definition leadingBlanks : Regex.re :=
  Regex.Seq Regex.Bol
    (Regex.Rep true 0 (Some 100)
       (Regex.Chr (fun c => Ascii.eqb c " " || Ascii.eqb c "009"))).

Definition indentCodeFix (file code : jstring) (lineStart : Z) : jstring :=
  let fileLines := split LF file in
  if (lineStart <? 1)%Z || (Z.of_nat (length fileLines) <? lineStart)%Z
  then code
  else
    let firstLine := nth (Z.to_nat (lineStart - 1)) fileLines [] in
    let codeLines := split LF code in
    let indentation :=
      match Regex.firstMatch leadingBlanks firstLine with
      | Some indentMatch => Regex.text indentMatch
      | None => []
      end in
    let indentedCodeLines := map (fun line => indentation ++ line) codeLines in
    join NL indentedCodeLines.

Definition isCodeSuggestionNew (contents : jstring)
    (suggestion : CodeSuggestion) : bool :=
  let fileLines := split LF contents in
  let targetLines :=
    join NL (slice fileLines (line_start suggestion - 1) (line_end suggestion)) in
  if jstring_eqb (trim targetLines) (trim (correction suggestion))
  then false
  else true.

(** The lines [first] to [last] of a text, numbered from 1, both ends
    included, as one text. *)
Definition lineRange (contents : jstring) (first last : Z) : jstring :=
  join NL
    (firstn (Z.to_nat (last - first + 1))
       (skipn (Z.to_nat (first - 1)) (split LF contents))).

(** What the completion service answers to the request for an inline
    fix: the [function_call] of the message, if it has one, by the text of
    its arguments. *)
Record FunctionCall := mkFunctionCall {
  arguments : jstring
}.

Section InlineFix.

(** [getInlineFixPrompt] of prompts/inline-prompt. *)
Variable getInlineFixPrompt : jstring -> PRSuggestion -> Conversation.

(** [generateChatCompletion] on a request that names the inline fix
    function. *)
Variable generateFunctionCall : Conversation -> Exc (option FunctionCall).

(** [JSON.parse] *)
Variable JSON_parse : jstring -> Exc JSValue.

(** The fix that [generateInlineComments] builds from the answer of the
    service, before it tests whether the fix is new; [None] when the
    function returns null before that point. *)
Definition proposedFix (suggestion : PRSuggestion) (file : PRFile)
  : option CodeSuggestion :=
  match current_contents file with
  | None => None
  | Some contents =>
      if negb (truthy contents) then None
      else
        match generateFunctionCall (getInlineFixPrompt contents suggestion) with
        | Ok (Some function_call) =>
            match JSON_parse (arguments function_call) with
            | Ok args =>
                match args, Value.get args "lineStart",
                      Value.get args "lineEnd" with
                | JUndefined, _, _ | JNull, _, _ => None
                | _, JNum lineStart, JNum lineEnd =>
                    if negb (Value.truthyV (Value.get args "code")) then None
                    else
                      Some
                        {| file := sug_filename suggestion;
                           line_start := lineStart;
                           line_end := lineEnd;
                           correction :=
                             indentCodeFix contents
                               (Value.toStr (Value.get args "code")) lineStart;
                           fix_comment :=
                             if Value.truthyV (Value.get args "comment")
                             then Value.get args "comment"
                             else JStr [] |}
                | _, _, _ => None
                end
            | Raise _ => None
            end
        | _ => None
        end
  end.

(** [generateInlineComments]; [None] is the null it returns. Every error
    raised inside is caught, so the promise always resolves. *)
Definition generateInlineComments (suggestion : PRSuggestion) (file : PRFile)
  : option CodeSuggestion :=
  match current_contents file with
  | None => None
  | Some contents =>
      if negb (truthy contents) then None
      else
        let messages := getInlineFixPrompt contents suggestion in
        match generateFunctionCall messages with
        | Raise _ => None
        | Ok None => None
        | Ok (Some function_call) =>
            match JSON_parse (arguments function_call) with
            | Raise _ => None
            | Ok args =>
                match args with
                | JUndefined | JNull => None
                | _ =>
                    match Value.get args "lineStart",
                          Value.get args "lineEnd" with
                    | JNum lineStart, JNum lineEnd =>
                        if negb (Value.truthyV (Value.get args "code"))
                        then None
                        else
                          let initialCode :=
                            Value.toStr (Value.get args "code") in
                          let indentedCode :=
                            indentCodeFix contents initialCode lineStart in
                          let codeFix :=
                            {| file := sug_filename suggestion;
                               line_start := lineStart;
                               line_end := lineEnd;
                               correction := indentedCode;
                               fix_comment :=
                                 if Value.truthyV (Value.get args "comment")
                                 then Value.get args "comment"
                                 else JStr [] |} in
                          if isCodeSuggestionNew contents codeFix
                          then Some codeFix
                          else None
                    | _, _ => None
                    end
                end
            end
        end
  end.

End InlineFix.

(** ** Response builders *)

Section Builders.

Variable identity : PRSuggestion -> jstring.
Variable parseStringPromise : jstring -> Exc JSValue.

Definition noCommentsMessage : jstring :=
  str "The code review was completed successfully, but no specific comments were generated.".

Definition noSuggestionsMessage : jstring :=
  str "The code was reviewed but no specific suggestions were generated. The code appears to follow good practices.".

(** [xmlResponseBuilder] catches whatever is raised inside it, so its
    promise always resolves. *)
Definition xmlResponseBuilder (owner repoName : jstring)
    (feedbacks : list jstring) : Exc BuilderResponse :=
  let parsedXMLSuggestions :=
    processXMLSuggestions parseStringPromise feedbacks in
  if 0 <? length parsedXMLSuggestions then
    let comments :=
      convertPRSuggestionToComment owner repoName
        (dedupSuggestions identity parsedXMLSuggestions) in
    if length comments =? 0 then
      Ok {| comment := noCommentsMessage;
            structuredComments := parsedXMLSuggestions |}
    else
      let commentBlob := join NL comments in
      if negb (truthy commentBlob) || negb (truthy (trim commentBlob)) then
        Ok {| comment := noCommentsMessage;
              structuredComments := parsedXMLSuggestions |}
      else
        Ok {| comment := commentBlob;
              structuredComments := parsedXMLSuggestions |}
  else
    let allSuggestions := flat_map fallbackTextParser feedbacks in
    if 0 <? length allSuggestions then
      let comments :=
        convertPRSuggestionToComment owner repoName
          (dedupSuggestions identity allSuggestions) in
      let commentBlob := join NL comments in
      Ok {| comment := commentBlob; structuredComments := allSuggestions |}
    else
      Ok {| comment := noSuggestionsMessage; structuredComments := [] |}.

Definition curriedXmlResponseBuilder (owner repoName : jstring)
    (feedbacks : list jstring) : Exc BuilderResponse :=
  xmlResponseBuilder owner repoName feedbacks.

Definition basicResponseBuilder (feedbacks : list jstring)
  : Exc BuilderResponse :=
  let commentBlob := join NL feedbacks in
  Ok {| comment := commentBlob; structuredComments := [] |}.

End Builders.

(** ** The pull request as a whole *)

(** [BranchDetails] of constants.ts, and the part of the webhook payload
    that the engine reads. *)
Record BranchDetails := mkBranchDetails {
  name : jstring;
  sha : jstring;
  url : jstring
}.

Record Payload := mkPayload {
  owner_login : jstring;
  repository_name : jstring;
  base : BranchDetails;
  head : BranchDetails
}.

(** [Review] of constants.ts: the review, or null, and the inline fixes. *)
Record Review := mkReview {
  review : option BuilderResponse;
  suggestions : list CodeSuggestion
}.

Definition noReview : Review := {| review := None; suggestions := [] |}.

Section PullRequest.

Variable encodeChat : Conversation -> N.
Variable encode : jstring -> N.
Variable rawPatchStrategy : PRFile -> jstring.
Variable smarterContextPatchStrategy : PRFile -> jstring.
Variable generateChatCompletion : Conversation -> Exc jstring.
Variable identity : PRSuggestion -> jstring.
Variable parseStringPromise : jstring -> Exc JSValue.
Variable getInlineFixPrompt : jstring -> PRSuggestion -> Conversation.
Variable generateFunctionCall : Conversation -> Exc (option FunctionCall).
Variable JSON_parse : jstring -> Exc JSValue.

(** [getGitFile] of reviews.ts, by the content it resolves to (null when
    the file is not there), or the error it rejects with. *)
Variable getGitFile : BranchDetails -> jstring -> Exc (option jstring).

(** [preprocessFile] writes the contents into the file object. *)
Definition preprocessFile (payload : Payload) (file : PRFile) : Exc PRFile :=
  let baseBranch := base payload in
  let currentBranch := head payload in
  oldContents <-! getGitFile baseBranch (filename file) ;;
  currentContents <-! getGitFile currentBranch (filename file) ;;
  Ok {| filename := filename file;
        patch := patch file;
        old_contents := oldContents;
        current_contents := currentContents;
        patchTokenLength := patchTokenLength file |}.

(** The strategies, in the order in which they are tried. *)
Definition strategies (owner repoName : jstring) : list Builders :=
  [ {| convoBuilder := getXMLReviewPrompt;
       responseBuilder :=
         curriedXmlResponseBuilder identity parseStringPromise owner repoName |};
    {| convoBuilder := getReviewPrompt;
       responseBuilder := basicResponseBuilder |} ].

(** [files.find((file) => file.filename === suggestion.filename)] *)
Definition findFile (files : list PRFile) (suggestion : PRSuggestion)
  : option PRFile :=
  find (fun file => jstring_eqb (filename file) (sug_filename suggestion)) files.

(** The array [files] after [preprocessFile] has run on the objects that
    pass the filter: the same objects, with their contents. *)
Fixpoint preprocessed (payload : Payload) (files : list PRFile)
  : Exc (list PRFile) :=
  match files with
  | [] => Ok []
  | f :: rest =>
      if filterFile f then
        f' <-! preprocessFile payload f ;;
        rest' <-! preprocessed payload rest ;;
        Ok (f' :: rest')
      else
        rest' <-! preprocessed payload rest ;;
        Ok (f :: rest')
  end.

Definition processPullRequest (payload : Payload) (files : list PRFile)
    (includeSuggestions : bool) : Review :=
  let filteredFiles := filter filterFile files in
  if length filteredFiles =? 0 then noReview
  else
    match preprocessed payload files with
    | Raise _ => noReview
    | Ok files =>
        let filteredFiles := filter filterFile files in
        let owner := owner_login payload in
        let repoName := repository_name payload in
        if negb (Regex.test safeName owner)
           || negb (Regex.test safeName repoName)
        then noReview
        else
          match
            reviewChangesRetry encodeChat encode rawPatchStrategy
              smarterContextPatchStrategy generateChatCompletion
              filteredFiles (strategies owner repoName)
          with
          | Raise _ => noReview
          | Ok reviewComments =>
              if includeSuggestions then
                let inlineComments :=
                  if 0 <? length (structuredComments reviewComments) then
                    map
                      (fun suggestion =>
                         match findFile files suggestion with
                         | None => None
                         | Some file =>
                             generateInlineComments getInlineFixPrompt
                               generateFunctionCall JSON_parse suggestion file
                         end)
                      (structuredComments reviewComments)
                  else [] in
                {| review := Some reviewComments;
                   suggestions := filterBoolean inlineComments |}
              else {| review := Some reviewComments; suggestions := [] |}
          end
    end.

End PullRequest.

(** ** Stand-ins for the completion service, for worked scenarios *)

Module Service.

(** A prompt for the inline fix: the file, then the comment. *)
Definition inlinePrompt (contents : jstring) (suggestion : PRSuggestion)
  : Conversation :=
  [ {| role := str "system"; content := contents |};
    {| role := str "user"; content := sug_comment suggestion |} ].

(** A service that answers every request for an inline fix with the
    same function call, and a [JSON.parse] that reads it as [args]. *)
Definition answering (text : string) (_ : Conversation)
  : Exc (option FunctionCall) :=
  Ok (Some {| arguments := str text |}).

Definition parsingAs (args : JSValue) (_ : jstring) : Exc JSValue := Ok args.

Definition fixArgs (code : string) (lineStart lineEnd : Z) : JSValue :=
  JObj [ (str "code", JStr (str code));
         (str "lineStart", JNum lineStart);
         (str "lineEnd", JNum lineEnd);
         (str "comment", JStr (str "Use this.")) ].

(** A completion service that is down. *)
Definition unavailable (_ : Conversation) : Exc jstring :=
  Raise (str "503 Service Unavailable").

(** An XML parser that answers every document with [doc]. *)
Definition parsingXmlAs (doc : JSValue) (_ : jstring) : Exc JSValue := Ok doc.

(** What the XML parser of the source gives for an element that holds
    only text: a list of one object, with the text under [_]. *)
Definition textElement (s : string) : JSValue :=
  JArr [JObj [(str "_", JStr (str s))]].

(** A content source that finds no file, and a pull request. *)
Definition notFound (_ : BranchDetails) (_ : jstring) : Exc (option jstring) :=
  Ok None.

Definition pullRequest : Payload :=
  {| owner_login := str "acme";
     repository_name := str "api";
     base := {| name := str "main"; sha := str "1f3a"; url := str "pulls/7" |};
     head := {| name := str "fix"; sha := str "9c2e"; url := str "pulls/7" |} |}.

(** A file whose current content has been fetched. *)
Definition fetched (name : string) (contents : jstring) : PRFile :=
  {| filename := str name;
     patch := [];
     old_contents := None;
     current_contents := Some contents;
     patchTokenLength := 0 |}.

End Service.

(** ** Notions for the properties of the planner *)

(** Ascending order of the cached patch sizes. *)
Definition tokensLe (a b : PRFile) : Prop :=
  (patchTokenLength a <= patchTokenLength b)%N.

(** [R] holds between every element of a list and the next one. *)
Fixpoint adjacent {A} (R : A -> A -> Prop) (l : list A) : Prop :=
  match l with
  | a :: (b :: _) as rest => R a b /\ adjacent R rest
  | _ => True
  end.

(** A group that was closed because the first file of the next group did
    not fit into it any more. *)
Definition closedOnOverflow
    (encodeChat : Conversation -> N) (patchBuilder : PRFile -> jstring)
    (builder : jstring -> Conversation) (g next : list PRFile) : Prop :=
  match next with
  | f :: _ => fits encodeChat patchBuilder builder (g ++ [f]) = false
  | [] => False
  end.

(** The keys of a map in insertion order, as [pushAt] builds them, for a
    list of keys given in the order of the pushes. *)
Fixpoint firstSeen (keys : list jstring) (seen : list jstring) : list jstring :=
  match keys with
  | [] => []
  | k :: rest =>
      if has seen k then firstSeen rest seen
      else k :: firstSeen rest (seen ++ [k])
  end.

(** The file has the non-empty extension [k]. *)
Definition hasExtensionKey (k : jstring) (file : PRFile) : bool :=
  match extensionOf file with
  | Some e => truthy e && jstring_eqb e k
  | None => false
  end.

(** What holds of the map of [groupFilesByExtension] after the files [p]:
    distinct non-empty keys, under each key the files of [p] with that
    extension in their order, and a key for every extension met. *)
Definition groupedUpTo (p : list PRFile) (m : list (jstring * list PRFile))
  : Prop :=
  NoDup (map fst m)
  /\ (forall k fs, In (k, fs) m ->
        truthy k = true /\ fs <> [] /\ fs = filter (hasExtensionKey k) p)
  /\ (forall f e, In f p -> extensionOf f = Some e -> truthy e = true ->
        In e (map fst m)).

(** A name that passes both checks of [generateGithubIssueUrl]: not
    empty, and made of letters, digits, [-], [_] and [.] only. *)
Definition validName (name : jstring) : bool :=
  truthy name && forallb safeNameChar name.

(** The code units of a link target that [generateGithubIssueUrl] builds
    itself: what [encodeURIComponent] leaves or writes, and the
    separators of the address. *)
Definition linkChar (c : ascii) : bool :=
  uriUnreserved c || existsb (Ascii.eqb c) (str "%:/?=&").

(** A space or a tab, the class of [leadingBlanks]. *)
Definition indentChar (c : ascii) : bool :=
  Ascii.eqb c " " || Ascii.eqb c "009".

(** The longest prefix of [s] of at most [n] code units that all
    satisfy [p]. *)
Fixpoint leadingRun (p : ascii -> bool) (n : nat) (s : jstring) : jstring :=
  match n, s with
  | S n', c :: s' => if p c then c :: leadingRun p n' s' else []
  | _, _ => []
  end.

Module Host.

(** A completion service that answers every request with [text], and a
    content source that holds [contents] for every file on every
    branch. *)
Definition replying (text : string) (_ : Conversation) : Exc jstring :=
  Ok (str text).

Definition holding (contents : jstring) (_ : BranchDetails) (_ : jstring)
  : Exc (option jstring) :=
  Ok (Some contents).

(** A parsed review with one suggestion whose elements are lists of one
    text. *)
Definition oneSuggestion (describe type comment code filename : string)
  : JSValue :=
  JObj [ (str "review",
          JObj [ (str "suggestion",
                  JArr [ JObj [ (str "describe", JArr [JStr (str describe)]);
                                (str "type", JArr [JStr (str type)]);
                                (str "comment", JArr [JStr (str comment)]);
                                (str "code", JArr [JStr (str code)]);
                                (str "filename",
                                 JArr [JStr (str filename)]) ] ]) ]) ].

End Host.

(** ** The fenced code blocks of a reply *)

(** Modelled from the spec: a fenced code block is delimited by triple
    backticks and may name a language. The tag of the language is the
    run of letters, digits and underscores that follows the opening
    fence. *)
Fixpoint languageTag (content : jstring) : jstring :=
  match content with
  | c :: rest => if Regex.is_word c then c :: languageTag rest else []
  | [] => []
  end.

(** Modelled from the spec: a fenced code block of a text, by the index
    of its opening fence, the tag of its language (empty when it names
    none) and its body, which is what stands between the fences after
    the tag and the white space that follows the tag. *)
Record FencedBlock := mkFencedBlock {
  fence_index : nat;
  fence_language : jstring;
  fence_body : jstring
}.

(** Modelled from the spec: the fenced code blocks of [s], the part of a
    text from the index [offset] on, from left to right. A block opens
    at the first run of three backticks and is closed by the next run of
    three backticks after it; the search for the next block goes on
    after the closing fence. An opening fence that is never closed opens
    no block. Every block takes six code units at least, so a fuel of
    the length of the text is never used up. *)
Fixpoint fencedFrom (fuel offset : nat) (s : jstring) : list FencedBlock :=
  match fuel with
  | 0 => []
  | S fuel' =>
      match indexOf s (str "```") with
      | None => []
      | Some i =>
          let after := skipn (i + 3) s in
          match indexOf after (str "```") with
          | None => []
          | Some j =>
              let content := firstn j after in
              let tag := languageTag content in
              {| fence_index := offset + i;
                 fence_language := tag;
                 fence_body := trimStart (skipn (length tag) content) |}
                :: fencedFrom fuel' (offset + i + 3 + j + 3)
                     (skipn (j + 3) after)
          end
      end
  end.



(** ** The engine with a tokenizer that can throw *)

(** The tokenizer and the patch strategies of the source are calls that
    can throw, and [reviewChanges] makes them before its [try]: what
    they throw there rejects the promise of [reviewChanges]. The planner
    above is the planner of a run in which they return. In this module
    they return or throw, and every function of the planner and of the
    review hands on what they throw, in the order in which the source
    makes the calls. *)
Module Throwing.

(** [Array.prototype.map], [filter] into two lists in a [forEach], and a
    loop with a state, with a body that can throw. *)
Fixpoint mapE {A B} (f : A -> Exc B) (l : list A) : Exc (list B) :=
  match l with
  | [] => Ok []
  | x :: rest =>
      y <-! f x ;;
      ys <-! mapE f rest ;;
      Ok (y :: ys)
  end.

Fixpoint partitionE {A} (test : A -> Exc bool) (l : list A)
  : Exc (list A * list A) :=
  match l with
  | [] => Ok ([], [])
  | x :: rest =>
      within <-! test x ;;
      parts <-! partitionE test rest ;;
      Ok (if within then (x :: fst parts, snd parts)
          else (fst parts, x :: snd parts))
  end.

Fixpoint foldE {A S} (step : S -> A -> Exc S) (l : list A) (st : S) : Exc S :=
  match l with
  | [] => Ok st
  | x :: rest =>
      st' <-! step st x ;;
      foldE step rest st'
  end.

Definition constructPrompt
    (files : list PRFile)
    (patchBuilder : PRFile -> Exc jstring)
    (convoBuilder : jstring -> Conversation) : Exc Conversation :=
  patches <-! mapE patchBuilder files ;;
  let diff := join NL patches in
  Ok (convoBuilder diff).

Section Engine.

Variable encodeChat : Conversation -> Exc N.
Variable encode : jstring -> Exc N.
Variable rawPatchStrategy : PRFile -> Exc jstring.
Variable smarterContextPatchStrategy : PRFile -> Exc jstring.

Definition buildPatchPrompt (file : PRFile) : Exc jstring :=
  match old_contents file with
  | None => rawPatchStrategy file
  | Some _ => smarterContextPatchStrategy file
  end.

Definition getTokenLength (blob : jstring) : Exc N := encode blob.

Definition isConversationWithinLimit (convo : Conversation) (model : jstring)
  : Exc bool :=
  convoTokens <-! encodeChat convo ;;
  Ok match lookup ModelsToTokenLimits model with
     | Some limit => (convoTokens <? limit)%N
     | None => false
     end.

Section Planner.

Variable patchBuilder : PRFile -> Exc jstring.
Variable convoBuilder : jstring -> Conversation.

Definition fits (files : list PRFile) : Exc bool :=
  convo <-! constructPrompt files patchBuilder convoBuilder ;;
  isConversationWithinLimit convo GROQ_MODEL.

Definition packStep (st : list (list PRFile) * list PRFile) (file : PRFile)
  : Exc (list (list PRFile) * list PRFile) :=
  let (processGroups, currentGroup) := st in
  isPotentialGroupWithinLimit <-! fits (currentGroup ++ [file]) ;;
  Ok (if isPotentialGroupWithinLimit
      then (processGroups, currentGroup ++ [file])
      else (processGroups ++ [currentGroup], [file])).

Definition packExtension (processGroups : list (list PRFile))
    (filesForExt : list PRFile) : Exc (list (list PRFile)) :=
  st <-! foldE packStep (sortByTokens filesForExt) (processGroups, []) ;;
  let (processGroups', currentGroup) := st in
  Ok (if 0 <? length currentGroup then processGroups' ++ [currentGroup]
      else processGroups').

Definition processWithinLimitFiles (files : list PRFile)
  : Exc (list (list PRFile)) :=
  convoWithinModelLimit <-! fits files ;;
  if negb convoWithinModelLimit then
    let grouped := groupFilesByExtension files in
    foldE
      (fun processGroups entry =>
         let filesForExt := snd entry in
         extGroupWithinModelLimit <-! fits filesForExt ;;
         if extGroupWithinModelLimit then Ok (processGroups ++ [filesForExt])
         else packExtension processGroups filesForExt)
      grouped []
  else Ok [files].

Definition processOutsideLimitFiles (files : list PRFile)
  : Exc (list (list PRFile)) :=
  match files with
  | [] => Ok []
  | _ :: _ =>
      let files := map stripRemovedLines files in
      convoWithinModelLimit <-! fits files ;;
      if convoWithinModelLimit then Ok [files]
      else
        parts <-! partitionE (fun file => fits [file]) files ;;
        let withinLimits := fst parts in
        processWithinLimitFiles withinLimits
  end.

End Planner.

(** The first half of [reviewChanges], which runs before its [try]. *)
Definition setPatchTokenLength (file : PRFile) : Exc PRFile :=
  blob <-! buildPatchPrompt file ;;
  tokens <-! getTokenLength blob ;;
  Ok {| filename := filename file;
        patch := patch file;
        old_contents := old_contents file;
        current_contents := current_contents file;
        patchTokenLength := tokens |}.

Definition reviewGroups
    (convoBuilder : jstring -> Conversation) (files : list PRFile)
  : Exc (list (list PRFile)) :=
  let patchBuilder := buildPatchPrompt in
  let filteredFiles := filter filterFile files in
  filteredFiles <-! mapE setPatchTokenLength filteredFiles ;;
  parts <-!
    partitionE (fun file => fits patchBuilder convoBuilder [file])
      filteredFiles ;;
  let patchesWithinModelLimit := fst parts in
  let patchesOutsideModelLimit := snd parts in
  withinLimitsPatchGroups <-!
    processWithinLimitFiles patchBuilder convoBuilder
      patchesWithinModelLimit ;;
  exceedingLimitsPatchGroups <-!
    processOutsideLimitFiles patchBuilder convoBuilder
      patchesOutsideModelLimit ;;
  Ok (withinLimitsPatchGroups ++ exceedingLimitsPatchGroups).

Variable generateChatCompletion : Conversation -> Exc jstring.

Definition reviewDiff (messages : Conversation) : Exc jstring :=
  content <-! generateChatCompletion messages ;;
  Ok content.

Definition reviewFiles
    (files : list PRFile)
    (patchBuilder : PRFile -> Exc jstring)
    (convoBuilder : jstring -> Conversation) : Exc jstring :=
  patches <-! mapE patchBuilder files ;;
  let messages := convoBuilder (join NL patches) in
  feedback <-! reviewDiff messages ;;
  Ok feedback.

Definition reviewChanges
    (files : list PRFile)
    (convoBuilder : jstring -> Conversation)
    (responseBuilder : list jstring -> Exc BuilderResponse)
  : Exc BuilderResponse :=
  let patchBuilder := buildPatchPrompt in
  groups <-! reviewGroups convoBuilder files ;;
  tryCatch
    (feedbacks <-!
       promiseAll
         (map (fun patchGroup =>
                 reviewFiles patchGroup patchBuilder convoBuilder)
              groups) ;;
     tryCatch
       (responseBuilder feedbacks)
       (fun exc =>
          Ok {| comment :=
                  str "Unable to process XML response correctly. Review generated but parsing failed.";
                structuredComments := [] |}))
    (fun error =>
       Ok {| comment := str "Error occurred during review process";
             structuredComments := [] |}).

Fixpoint reviewChangesRetry (files : list PRFile) (builders : list Builders)
  : Exc BuilderResponse :=
  match builders with
  | [] => Raise (str "All convoBuilders failed.")
  | b :: rest =>
      tryCatch
        (reviewChanges files (convoBuilder b) (responseBuilder b))
        (fun error => reviewChangesRetry files rest)
  end.

End Engine.

End Throwing.

(** ** Issue links for texts of any code units *)

(** The texts above are texts whose code units are below 256. The title,
    the comment and the code of a suggestion come from a reply and can
    hold any code unit, also the two halves of a character beyond
    U+FFFF; on half a character without its other half
    [encodeURIComponent] throws. This module has [encodeURIComponent]
    and [generateGithubIssueUrl] for texts of code units of 16 bits,
    each a number below 65536. *)
Module Wide.

Definition wstring := list N.

(** A text of code units below 256, as a text of this module. *)
Definition widen (s : jstring) : wstring :=
  map (fun c => N.of_nat (code c)) s.

Definition truthy (s : wstring) : bool :=
  match s with [] => false | _ :: _ => true end.

(** [String.prototype.substring(0, n)] for a count [n]. *)
Definition substring0 (n : N) (s : wstring) : wstring :=
  firstn (N.to_nat n) s.

(** The first and the second half of a character beyond U+FFFF. *)
Definition isHighSurrogate (u : N) : bool :=
  ((55296 <=? u) && (u <=? 56319))%N.

Definition isLowSurrogate (u : N) : bool :=
  ((56320 <=? u) && (u <=? 57343))%N.

(** [String.prototype.isWellFormed]: no half without its other half. *)
Fixpoint isWellFormed (s : wstring) : bool :=
  match s with
  | [] => true
  | u :: rest =>
      if isLowSurrogate u then false
      else if isHighSurrogate u then
        match rest with
        | low :: rest' => isLowSurrogate low && isWellFormed rest'
        | [] => false
        end
      else isWellFormed rest
  end.

(** The characters of a text, by their numbers; half a character without
    its other half is the [URIError] of [encodeURIComponent]. *)
Fixpoint codePoints (s : wstring) : Exc (list N) :=
  match s with
  | [] => Ok []
  | u :: rest =>
      if isLowSurrogate u then Raise (str "URIError: URI malformed")
      else if isHighSurrogate u then
        match rest with
        | low :: rest' =>
            if isLowSurrogate low then
              points <-! codePoints rest' ;;
              Ok (((u - 55296) * 1024 + (low - 56320) + 65536)%N :: points)
            else Raise (str "URIError: URI malformed")
        | [] => Raise (str "URIError: URI malformed")
        end
      else
        points <-! codePoints rest ;;
        Ok (u :: points)
  end.

(** The bytes of a character in UTF-8. *)
Definition utf8 (point : N) : list N :=
  (if point <? 128 then [point]
   else if point <? 2048 then [192 + point / 64; 128 + point mod 64]
   else if point <? 65536 then
     [224 + point / 4096; 128 + (point / 64) mod 64; 128 + point mod 64]
   else
     [240 + point / 262144; 128 + (point / 4096) mod 64;
      128 + (point / 64) mod 64; 128 + point mod 64])%N.

Definition encodePoint (point : N) : jstring :=
  if (point <? 128)%N && uriUnreserved (ascii_of_N point)
  then [ascii_of_N point]
  else flat_map (fun byte => percent (N.to_nat byte)) (utf8 point).

Definition encodeURIComponent (s : wstring) : Exc jstring :=
  points <-! codePoints s ;;
  Ok (flat_map encodePoint points).

Definition isCodeUnit (u : N) : bool := (u <? 65536)%N.

(** [generateGithubIssueUrl], with its [try] and its [catch]. The owner
    and the name of the repository are texts of code units below 256: a
    code unit from 256 on is in no class of the pattern that tests
    them. *)
Definition generateGithubIssueUrl
    (owner repoName : jstring) (title body : wstring)
    (codeblock : option wstring)
  : jstring :=
  match
    (if negb (JS.truthy owner) || negb (JS.truthy repoName)
     then Ok issuePlaceholder
     else if negb (Regex.test safeName owner)
             || negb (Regex.test safeName repoName)
     then Ok issuePlaceholder
     else
       let sanitizedTitle := substring0 200 title in
       let sanitizedBody := substring0 5000 body in
       let sanitizedCodeBlock :=
         match codeblock with
         | Some c => if truthy c then substring0 10000 c else []
         | None => []
         end in
       encodedTitle <-! encodeURIComponent sanitizedTitle ;;
       encodedBody <-! encodeURIComponent sanitizedBody ;;
       encodedCodeBlock <-!
         (if truthy sanitizedCodeBlock
          then encodeURIComponent
                 (widen NL ++ sanitizedCodeBlock ++ widen NL)
          else Ok []) ;;
       let base :=
         str "https://github.com/" ++ owner ++ str "/" ++ repoName
           ++ str "/issues/new?title=" ++ encodedTitle
           ++ str "&body=" ++ encodedBody in
       let url := base ++ encodedCodeBlock in
       let url := if 2048 <? length url then base else url in
       Ok (str "[Create Issue](" ++ url ++ str ")"))
  with
  | Ok link => link
  | Raise error => issuePlaceholder
  end.

End Wide.

(* ================================================================= *)
(** * Properties *)

(** ** Strings *)

Lemma jstring_eqb_eq a b : jstring_eqb a b = true <-> a = b.
Proof.
  unfold jstring_eqb. destruct (list_eq_dec ascii_dec a b); split; congruence.
Qed.

Lemma jstring_eqb_refl a : jstring_eqb a a = true.
Proof. now apply jstring_eqb_eq. Qed.

Lemma jstring_eqb_neq a b : jstring_eqb a b = false <-> a <> b.
Proof.
  unfold jstring_eqb. destruct (list_eq_dec ascii_dec a b); split; congruence.
Qed.

Lemma jstring_eqb_sym a b : jstring_eqb a b = jstring_eqb b a.
Proof.
  destruct (jstring_eqb b a) eqn:E.
  - apply jstring_eqb_eq in E. subst. apply jstring_eqb_refl.
  - apply jstring_eqb_neq. apply jstring_eqb_neq in E. congruence.
Qed.

Lemma has_In set x : has set x = true <-> In x set.
Proof.
  unfold has. rewrite existsb_exists. split.
  - intros [y [Hy He]]. apply jstring_eqb_eq in He. now subst.
  - intros H. exists x. split; [assumption | apply jstring_eqb_refl].
Qed.

Lemma split_nonempty sep s : split sep s <> [].
Proof.
  destruct s as [|c s]; simpl; [discriminate|].
  destruct (Ascii.eqb c sep); [discriminate|].
  destruct (split sep s); discriminate.
Qed.

Lemma pop_last {A} (l : list A) (d : A) : l <> [] -> pop l = Some (last l d).
Proof.
  induction l as [|x l IH]; [congruence|].
  intros _. destruct l as [|y l]; [reflexivity|].
  change (pop (y :: l) = Some (last (y :: l) d)). apply IH. discriminate.
Qed.


Lemma lower_char_idem c : lower_char (lower_char c) = lower_char c.
Proof.
  destruct c as [[] [] [] [] [] [] [] []]; vm_compute; reflexivity.
Qed.

Lemma toLowerCase_idem s : toLowerCase (toLowerCase s) = toLowerCase s.
Proof.
  unfold toLowerCase. rewrite map_map. apply map_ext. apply lower_char_idem.
Qed.

Lemma lower_char_not_dot c : Ascii.eqb (lower_char c) "." = Ascii.eqb c ".".
Proof.
  destruct c as [[] [] [] [] [] [] [] []]; vm_compute; reflexivity.
Qed.

Lemma toLowerCase_split_dot s :
  split "." (toLowerCase s) = map toLowerCase (split "." s).
Proof.
  induction s as [|c s IH]; [reflexivity|].
  simpl. rewrite lower_char_not_dot, IH.
  destruct (Ascii.eqb c "."); [reflexivity|].
  destruct (split "." s); reflexivity.
Qed.

Lemma last_of_map {A B} (f : A -> B) (l : list A) (d : A) :
  last (map f l) (f d) = f (last l d).
Proof.
  induction l as [|x l IH]; [reflexivity|].
  destruct l as [|y l]; [reflexivity|].
  change (last (map f (y :: l)) (f d) = f (last (y :: l) d)). exact IH.
Qed.

Lemma truthy_false s : truthy s = false <-> s = [].
Proof. destruct s; simpl; split; congruence. Qed.

(** ** The file filter *)

Section FilterFacts.

Variable file : PRFile.

Let name := toLowerCase (filename file).

Lemma not_ignored_empty : ~ In [] filesToIgnore /\ ~ In [] extensionsToIgnore.
Proof.
  split; intros H; simpl in H;
    repeat (destruct H as [H|H]; [discriminate H|]); exact H.
Qed.

Lemma filterFile_false_iff :
  filterFile file = false <->
  In (last (split "/" name) []) filesToIgnore
  \/ length (split "." name) <= 1
  \/ In (last (split "." name) []) extensionsToIgnore.
Proof.
  unfold filterFile. fold name.
  rewrite (@pop_last _ (split "/" name) [] (split_nonempty _ _)).
  rewrite (@pop_last _ (split "." name) [] (split_nonempty _ _)).
  set (b := last (split "/" name) []).
  set (e := last (split "." name) []).
  cbn [option_map].
  assert (He : toLowerCase e = e).
  { unfold e, name. rewrite toLowerCase_split_dot.
    pose proof (last_of_map toLowerCase (split "." (filename file)) []) as L.
    change (toLowerCase []) with (@nil ascii) in L.
    rewrite L. apply toLowerCase_idem. }
  rewrite He.
  destruct not_ignored_empty as [Hb0 He0].
  assert (Hb : truthy b && has filesToIgnore b = true <-> In b filesToIgnore).
  { rewrite andb_true_iff, has_In. split; [tauto|].
    intros H. split; [|exact H].
    destruct b; [contradiction|reflexivity]. }
  assert (Hx : truthy e && has extensionsToIgnore e = true
               <-> In e extensionsToIgnore).
  { rewrite andb_true_iff, has_In. split; [tauto|].
    intros H. split; [|exact H].
    destruct e; [contradiction|reflexivity]. }
  destruct (truthy b && has filesToIgnore b) eqn:E1.
  { split; [intros _; left; now apply Hb | reflexivity]. }
  destruct (length (split "." name) <=? 1) eqn:E2.
  { apply Nat.leb_le in E2. split; [intros _; right; now left | reflexivity]. }
  apply Nat.leb_gt in E2.
  destruct (truthy e && has extensionsToIgnore e) eqn:E3.
  { split; [intros _; right; right; now apply Hx | reflexivity]. }
  split; [discriminate|].
  intros [H|[H|H]].
  - apply Hb in H. discriminate.
  - lia.
  - apply Hx in H. discriminate.
Qed.

End FilterFacts.

(** ** Batch planner: what the groups contain *)

Section PlannerFacts.

Variable encodeChat : Conversation -> N.
Variable patchBuilder : PRFile -> jstring.
Variable convoBuilder : jstring -> Conversation.

Local Abbreviation fits := (fits encodeChat patchBuilder convoBuilder).
Local Abbreviation packStep := (packStep encodeChat patchBuilder convoBuilder).
Local Abbreviation packExtension := (packExtension encodeChat patchBuilder convoBuilder).
Local Abbreviation processWithinLimitFiles :=
  (processWithinLimitFiles encodeChat patchBuilder convoBuilder).
Local Abbreviation processOutsideLimitFiles :=
  (processOutsideLimitFiles encodeChat patchBuilder convoBuilder).
Local Abbreviation exceedingLimits :=
  (exceedingLimits encodeChat patchBuilder convoBuilder).
Local Abbreviation fitsAlone :=
  (fitsAlone encodeChat patchBuilder convoBuilder).
Local Abbreviation goodGroup :=
  (goodGroup encodeChat patchBuilder convoBuilder).

Lemma pushAt_flat k file m :
  Permutation (flat (pushAt k file m)) (file :: flat m).
Proof.
  unfold flat. induction m as [|[k' fs] m IH]; simpl.
  - reflexivity.
  - destruct (jstring_eqb k' k); simpl.
    + rewrite <- app_assoc. simpl.
      symmetry. apply Permutation_middle.
    + rewrite IH. symmetry. apply Permutation_middle.
Qed.

Lemma groupFiles_flat_acc files m :
  Permutation
    (flat (fold_left
             (fun filesByExtension file =>
                match extensionOf file with
                | Some e => if truthy e then pushAt e file filesByExtension
                            else filesByExtension
                | None => filesByExtension
                end) files m))
    (flat m ++ filter hasExtension files).
Proof.
  revert m. induction files as [|f files IH]; intros m; simpl.
  - now rewrite app_nil_r.
  - rewrite IH. unfold hasExtension.
    destruct (extensionOf f) as [e|]; [|reflexivity].
    destruct (truthy e); [|reflexivity].
    rewrite pushAt_flat. simpl. apply Permutation_middle.
Qed.

Lemma groupFilesByExtension_flat files :
  Permutation (flat (groupFilesByExtension files)) (filter hasExtension files).
Proof. apply (groupFiles_flat_acc files []). Qed.

Lemma insertByTokens_perm f l : Permutation (insertByTokens f l) (f :: l).
Proof.
  induction l as [|x l IH]; simpl; [reflexivity|].
  destruct (patchTokenLength f <=? patchTokenLength x)%N; [reflexivity|].
  rewrite IH. apply perm_swap.
Qed.

Lemma sortByTokens_perm l : Permutation (sortByTokens l) l.
Proof.
  induction l as [|x l IH]; simpl; [reflexivity|].
  rewrite insertByTokens_perm. now constructor.
Qed.

Lemma pack_fold_perm l G c :
  let st := fold_left packStep l (G, c) in
  Permutation (concat (fst st) ++ snd st) (concat G ++ c ++ l).
Proof.
  revert G c. induction l as [|f l IH]; intros G c; simpl.
  - now rewrite app_nil_r.
  - destruct (fits (c ++ [f])).
    + rewrite IH. now rewrite <- app_assoc.
    + rewrite IH. rewrite concat_app. simpl.
      rewrite app_nil_r, <- app_assoc. reflexivity.
Qed.

Lemma packExtension_perm G l :
  Permutation (concat (packExtension G l)) (concat G ++ l).
Proof.
  unfold packExtension.
  pose proof (pack_fold_perm (sortByTokens l) G []) as H. simpl in H.
  destruct (fold_left packStep (sortByTokens l) (G, [])) as [G' c].
  simpl in H. rewrite sortByTokens_perm in H.
  destruct c as [|x c]; simpl.
  - now rewrite app_nil_r in H.
  - rewrite concat_app. simpl. now rewrite app_nil_r.
Qed.

Lemma within_fold_perm grouped G :
  Permutation
    (concat
       (fold_left
          (fun processGroups entry =>
             if fits (snd entry) then processGroups ++ [snd entry]
             else packExtension processGroups (snd entry))
          grouped G))
    (concat G ++ flat grouped).
Proof.
  revert G. induction grouped as [|[k fs] m IH]; intros G; simpl.
  - now rewrite app_nil_r.
  - rewrite IH. unfold flat. simpl.
    destruct (fits fs).
    + rewrite concat_app. simpl. now rewrite app_nil_r, <- app_assoc.
    + rewrite packExtension_perm. now rewrite <- app_assoc.
Qed.

(** The files of the groups are the input files when the whole input
    fits, and the input files that have an extension otherwise. *)
Lemma processWithinLimitFiles_perm files :
  Permutation (concat (processWithinLimitFiles files))
              (if fits files then files else filter hasExtension files).
Proof.
  unfold processWithinLimitFiles.
  destruct (fits files); simpl.
  - now rewrite app_nil_r.
  - rewrite within_fold_perm. simpl. apply groupFilesByExtension_flat.
Qed.

Lemma processWithinLimitFiles_incl files g f :
  In g (processWithinLimitFiles files) -> In f g -> In f files.
Proof.
  intros Hg Hf.
  assert (H : In f (concat (processWithinLimitFiles files))).
  { apply in_concat. eauto. }
  apply (Permutation_in _ (processWithinLimitFiles_perm files)) in H.
  destruct (fits files); [exact H|].
  apply filter_In in H. tauto.
Qed.

(** *** Budget and non-emptiness of the groups *)

Lemma pack_fold_good l G c :
  Forall fitsAlone l ->
  Forall goodGroup G ->
  c = [] \/ goodGroup c ->
  let st := fold_left packStep l (G, c) in
  Forall goodGroup (fst st) /\ (snd st = [] \/ goodGroup (snd st)).
Proof.
  revert G c. induction l as [|f l IH]; intros G c Hl HG Hc; simpl.
  - now split.
  - inversion Hl as [|? ? Hf Hl']; subst.
    destruct (fits (c ++ [f])) eqn:E.
    + apply IH; [assumption|assumption|]. right. split; [assumption|].
      destruct c; discriminate.
    + apply IH; [assumption| |].
      * apply Forall_app. split; [assumption|].
        constructor; [|constructor].
        destruct Hc as [->|Hc]; [|assumption].
        simpl in E. unfold fitsAlone in Hf. rewrite Hf in E. discriminate.
      * right. split; [exact Hf | discriminate].
Qed.

Lemma packExtension_good G l :
  Forall fitsAlone l ->
  Forall goodGroup G -> Forall goodGroup (packExtension G l).
Proof.
  intros Hl HG. unfold packExtension.
  assert (Hs : Forall fitsAlone (sortByTokens l)).
  { rewrite Forall_forall in *. intros f Hf. apply Hl.
    now apply (Permutation_in _ (sortByTokens_perm l)). }
  destruct (pack_fold_good Hs HG (or_introl eq_refl)) as [H1 H2].
  destruct (fold_left packStep (sortByTokens l) (G, [])) as [G' c].
  simpl in *. destruct c as [|x c]; simpl; [assumption|].
  apply Forall_app. split; [assumption|].
  constructor; [|constructor].
  destruct H2 as [H2|H2]; [discriminate|assumption].
Qed.

Lemma pushAt_nonempty k file m :
  Forall nonemptyEntry m -> Forall nonemptyEntry (pushAt k file m).
Proof.
  induction m as [|[k' fs] m IH]; intros H; simpl.
  - constructor; [discriminate|constructor].
  - inversion H; subst. destruct (jstring_eqb k' k).
    + constructor; [|assumption]. unfold nonemptyEntry. simpl.
      destruct fs; discriminate.
    + constructor; [assumption|]. now apply IH.
Qed.

Lemma groupFilesByExtension_nonempty files :
  Forall nonemptyEntry (groupFilesByExtension files).
Proof.
  unfold groupFilesByExtension.
  assert (H : Forall nonemptyEntry []) by constructor.
  revert H. generalize (@nil (jstring * list PRFile)).
  induction files as [|f files IH]; intros m Hm; simpl; [assumption|].
  apply IH. destruct (extensionOf f) as [e|]; [|assumption].
  destruct (truthy e); [|assumption]. now apply pushAt_nonempty.
Qed.

Lemma within_fold_good grouped G :
  Forall nonemptyEntry grouped ->
  Forall fitsAlone (flat grouped) ->
  Forall goodGroup G ->
  Forall goodGroup
    (fold_left
       (fun processGroups entry =>
          if fits (snd entry) then processGroups ++ [snd entry]
          else packExtension processGroups (snd entry))
       grouped G).
Proof.
  revert G. induction grouped as [|[k fs] m IH]; intros G Hm Hf HG; simpl.
  - assumption.
  - inversion Hm; subst. unfold flat in Hf. simpl in Hf.
    apply Forall_app in Hf. destruct Hf as [Hfs Hrest].
    apply IH; [assumption|assumption|].
    destruct (fits fs) eqn:E.
    + apply Forall_app. split; [assumption|].
      constructor; [|constructor]. now split.
    + now apply packExtension_good.
Qed.

(** When every file fits the budget alone, every group made from a
    non-empty input fits the budget and is non-empty. *)
Lemma processWithinLimitFiles_good files :
  files <> [] ->
  Forall fitsAlone files ->
  Forall goodGroup (processWithinLimitFiles files).
Proof.
  intros Hne Hall. unfold processWithinLimitFiles.
  destruct (fits files) eqn:E; simpl.
  - constructor; [|constructor]. now split.
  - apply within_fold_good; [|  |constructor].
    + apply groupFilesByExtension_nonempty.
    + rewrite Forall_forall in *. intros f Hf. apply Hall.
      apply (Permutation_in _ (groupFilesByExtension_flat files)) in Hf.
      apply filter_In in Hf. tauto.
Qed.

(** The empty input is the one case where a group is empty. *)
Lemma processWithinLimitFiles_nil :
  fits [] = true -> processWithinLimitFiles [] = [[]].
Proof.
  intros H. unfold processWithinLimitFiles. now rewrite H.
Qed.

(** Every group that is made fits the budget; an empty group is made
    only when the prompt without any patch fits. *)
Lemma processWithinLimitFiles_fits files :
  Forall fitsAlone files ->
  Forall (fun g => fits g = true) (processWithinLimitFiles files).
Proof.
  intros H. destruct files as [|f files].
  - unfold processWithinLimitFiles. destruct (fits []) eqn:E; simpl.
    + constructor; [assumption|constructor].
    + constructor.
  - assert (Hne : f :: files <> []) by discriminate.
    pose proof (processWithinLimitFiles_good Hne H) as G.
    rewrite Forall_forall in *. intros g Hg. now destruct (G g Hg).
Qed.

Lemma processOutsideLimitFiles_fits files :
  Forall (fun g => fits g = true) (processOutsideLimitFiles files).
Proof.
  unfold processOutsideLimitFiles. destruct files as [|f0 files0];
    [constructor|].
  destruct (fits (map stripRemovedLines (f0 :: files0))) eqn:E.
  - constructor; [assumption|constructor].
  - apply processWithinLimitFiles_fits.
    apply Forall_forall. intros f Hf. apply filter_In in Hf.
    now destruct Hf.
Qed.

(** *** Coverage, for files that have an extension *)

Lemma filter_partition {A} (p : A -> bool) l :
  Permutation (filter p l ++ filter (fun x => negb (p x)) l) l.
Proof.
  induction l as [|x l IH]; simpl; [reflexivity|].
  destruct (p x); simpl.
  - now constructor.
  - rewrite <- Permutation_middle. now constructor.
Qed.

Lemma filter_all {A} (p : A -> bool) l :
  Forall (fun x => p x = true) l -> filter p l = l.
Proof.
  induction 1 as [|x l Hx _ IH]; simpl; [reflexivity|].
  now rewrite Hx, IH.
Qed.

Lemma processWithinLimitFiles_cover files :
  Forall (fun f => hasExtension f = true) files ->
  Permutation (concat (processWithinLimitFiles files)) files.
Proof.
  intros H. rewrite processWithinLimitFiles_perm.
  destruct (fits files); [reflexivity|]. now rewrite filter_all.
Qed.

Lemma hasExtension_filename f g :
  filename f = filename g -> hasExtension f = hasExtension g.
Proof. intros E. unfold hasExtension, extensionOf. now rewrite E. Qed.

Lemma processOutsideLimitFiles_cover files :
  Forall (fun f => hasExtension f = true) files ->
  Permutation
    (map filename (concat (processOutsideLimitFiles files))
       ++ map filename (exceedingLimits files))
    (map filename files).
Proof.
  intros H. unfold processOutsideLimitFiles, exceedingLimits.
  destruct files as [|f0 files0]; [reflexivity|].
  cbv beta iota. remember (f0 :: files0) as files eqn:Ef. clear Ef.
  assert (Hnames : map filename (map stripRemovedLines files)
                   = map filename files).
  { rewrite map_map. reflexivity. }
  destruct (fits (map stripRemovedLines files)).
  - cbn [concat map]. now rewrite !app_nil_r, Hnames.
  - rewrite <- Hnames, <- map_app. apply Permutation_map.
    rewrite processWithinLimitFiles_cover.
    + apply (filter_partition (fun file => fits [file])).
    + apply Forall_forall. intros f Hf. apply filter_In in Hf.
      destruct Hf as [Hf _]. apply in_map_iff in Hf.
      destruct Hf as [g [<- Hg]]. rewrite Forall_forall in H.
      now rewrite (hasExtension_filename (stripRemovedLines g) g), H.
Qed.

End PlannerFacts.

(** ** Deduplication *)

Section DedupFacts.

Variable identity : PRSuggestion -> jstring.

Local Abbreviation dedup := (dedupSuggestions identity).
Local Abbreviation lastOf := (lastWith identity).

Local Abbreviation keyed := (keyed identity).
Local Abbreviation step := (dedupStep identity).

Lemma mapSet_fresh {V} k (v : V) m :
  ~ In k (map fst m) -> mapSet k v m = m ++ [(k, v)].
Proof.
  induction m as [|[k' v'] m IH]; simpl; intros H; [reflexivity|].
  destruct (jstring_eqb k' k) eqn:E.
  - apply jstring_eqb_eq in E. tauto.
  - rewrite IH; tauto.
Qed.

Lemma mapSet_keys {V} k (v : V) m :
  map fst (mapSet k v m)
  = if has (map fst m) k then map fst m else map fst m ++ [k].
Proof.
  induction m as [|[k' v'] m IH]; simpl; [reflexivity|].
  unfold has in *. simpl.
  destruct (jstring_eqb k' k) eqn:E.
  - apply jstring_eqb_eq in E. subst. now rewrite jstring_eqb_refl.
  - simpl. rewrite IH.
    assert (E' : jstring_eqb k k' = false).
    { apply jstring_eqb_neq. apply jstring_eqb_neq in E. congruence. }
    rewrite E'. simpl. now destruct (existsb (jstring_eqb k) (map fst m)).
Qed.

Lemma mapSet_lookup {V} k (v : V) m k0 :
  lookup (mapSet k v m) k0
  = if jstring_eqb k k0 then Some v else lookup m k0.
Proof.
  induction m as [|[k' v'] m IH]; simpl.
  - reflexivity.
  - destruct (jstring_eqb k' k) eqn:E; simpl.
    + apply jstring_eqb_eq in E. subst.
      now destruct (jstring_eqb k k0).
    + rewrite IH. destruct (jstring_eqb k' k0) eqn:E0; [|reflexivity].
      apply jstring_eqb_eq in E0. subst.
      now rewrite jstring_eqb_sym, E.
Qed.

Lemma mapSet_values {V} k (v : V) m e :
  In e (mapSet k v m) -> e = (k, v) \/ In e m.
Proof.
  induction m as [|[k' v'] m IH]; simpl.
  - intros [<-|[]]. now left.
  - destruct (jstring_eqb k' k) eqn:E; simpl.
    + apply jstring_eqb_eq in E. subst. intros [<-|H]; auto.
    + intros [<-|H]; auto. destruct (IH H); auto.
Qed.

Lemma step_keyed m s : keyed m -> keyed (step m s).
Proof.
  intros [Hk Hv]. unfold dedupStep. split.
  - rewrite mapSet_keys. destruct (has (map fst m) (identity s)) eqn:E.
    + assumption.
    + apply NoDup_app; [assumption | repeat constructor; intros [] | ].
      intros a Ha [<-|[]].
      apply has_In in Ha. congruence.
  - apply Forall_forall. intros e He.
    apply mapSet_values in He. destruct He as [->|He]; [reflexivity|].
    rewrite Forall_forall in Hv. now apply Hv.
Qed.

Lemma fold_keyed l m : keyed m -> keyed (fold_left step l m).
Proof.
  revert m. induction l as [|s l IH]; intros m H; simpl; [assumption|].
  apply IH. now apply step_keyed.
Qed.

Lemma fold_lookup l m k :
  lookup (fold_left step l m) k
  = match lastOf k l with
    | Some x => Some x
    | None => lookup m k
    end.
Proof.
  revert m. induction l as [|s l IH]; intros m; simpl; [reflexivity|].
  rewrite IH. destruct (lastWith identity k l); [reflexivity|].
  unfold dedupStep. rewrite mapSet_lookup.
  now destruct (jstring_eqb (identity s) k).
Qed.

Lemma lookup_In {V} (m : list (jstring * V)) k v :
  lookup m k = Some v -> In (k, v) m.
Proof.
  induction m as [|[k' v'] m IH]; simpl; [discriminate|].
  destruct (jstring_eqb k' k) eqn:E.
  - apply jstring_eqb_eq in E. intros [= <-]. subst. now left.
  - intros H. right. now apply IH.
Qed.

Lemma In_lookup {V} (m : list (jstring * V)) k v :
  NoDup (map fst m) -> In (k, v) m -> lookup m k = Some v.
Proof.
  induction m as [|[k' v'] m IH]; simpl; [tauto|].
  intros Hnd [H|H].
  - injection H as -> ->. now rewrite jstring_eqb_refl.
  - inversion Hnd as [|? ? Hnot Hnd']; subst.
    destruct (jstring_eqb k' k) eqn:E.
    + apply jstring_eqb_eq in E. subst. exfalso. apply Hnot.
      change k with (fst (k, v)). now apply in_map.
    + now apply IH.
Qed.

Lemma lastOf_sound k l s :
  lastOf k l = Some s -> In s l /\ identity s = k.
Proof.
  induction l as [|x l IH]; simpl; [discriminate|].
  destruct (lastWith identity k l) as [y|].
  - intros [= <-]. destruct (IH eq_refl). auto.
  - destruct (jstring_eqb (identity x) k) eqn:E; [|discriminate].
    intros [= <-]. apply jstring_eqb_eq in E. auto.
Qed.

Lemma lastOf_complete l s :
  In s l -> exists s', lastOf (identity s) l = Some s'.
Proof.
  induction l as [|x l IH]; simpl; [tauto|].
  intros [->|H].
  - destruct (lastWith identity (identity s) l); eauto.
    rewrite jstring_eqb_refl. eauto.
  - destruct (IH H) as [s' ->]. eauto.
Qed.

(** A record is kept exactly when it is the last of the list with its
    identity. *)
Lemma dedup_In l s :
  In s (dedup l) <-> lastOf (identity s) l = Some s.
Proof.
  unfold dedupSuggestions.
  assert (Hk : keyed (fold_left step l [])).
  { apply fold_keyed. split; constructor. }
  change (fun m0 s0 => mapSet (identity s0) s0 m0) with step.
  set (m := fold_left step l []) in *.
  destruct Hk as [Hnd Hid]. rewrite Forall_forall in Hid.
  assert (Hl : forall k, lookup m k = lastOf k l).
  { intros k. unfold m. rewrite fold_lookup.
    now destruct (lastWith identity k l). }
  split.
  - intros H. apply in_map_iff in H. destruct H as [[k v] [<- He]].
    simpl. rewrite <- Hl. apply In_lookup; [assumption|].
    pose proof (Hid _ He) as Hkv. simpl in Hkv. now rewrite Hkv.
  - intros H. rewrite <- Hl in H. apply lookup_In in H.
    change s with (snd (identity s, s)). now apply in_map.
Qed.

Lemma dedup_identities_NoDup l : NoDup (map identity (dedup l)).
Proof.
  unfold dedupSuggestions.
  change (fun m0 s0 => mapSet (identity s0) s0 m0) with step.
  assert (Hk : keyed (fold_left step l [])).
  { apply fold_keyed. split; constructor. }
  destruct Hk as [Hnd Hid]. rewrite map_map.
  rewrite (map_ext_in _ fst); [assumption|].
  rewrite Forall_forall in Hid. exact Hid.
Qed.

Lemma fold_distinct l m :
  NoDup (map fst m ++ map identity l) ->
  fold_left step l m = m ++ map (fun s => (identity s, s)) l.
Proof.
  revert m. induction l as [|s l IH]; intros m H; simpl.
  - now rewrite app_nil_r.
  - assert (Hs : ~ In (identity s) (map fst m)).
    { intros Hin. apply NoDup_remove_2 in H. apply H.
      apply in_or_app. now left. }
    unfold dedupStep at 2. rewrite (mapSet_fresh _ _ _ Hs).
    rewrite IH.
    + now rewrite <- app_assoc.
    + rewrite map_app. simpl. rewrite <- app_assoc. exact H.
Qed.

Lemma dedup_distinct l : NoDup (map identity l) -> dedup l = l.
Proof.
  intros H. unfold dedupSuggestions.
  change (fun m0 s0 => mapSet (identity s0) s0 m0) with step.
  rewrite fold_distinct by exact H. simpl.
  rewrite map_map. simpl. apply map_id.
Qed.

Lemma NoDup_map_inj {A B} (f : A -> B) l a b :
  NoDup (map f l) -> In a l -> In b l -> f a = f b -> a = b.
Proof.
  induction l as [|x l IH]; simpl; [tauto|].
  intros Hnd Ha Hb E. inversion Hnd as [|? ? Hnot Hnd']; subst.
  destruct Ha as [->|Ha], Hb as [->|Hb]; auto.
  - exfalso. apply Hnot. rewrite E. now apply in_map.
  - exfalso. apply Hnot. rewrite <- E. now apply in_map.
Qed.

End DedupFacts.

(** C9. For every list of suggestions, [dedupSuggestions] returns a list
    in which no two elements have the same identity; every identity of
    the input is kept by exactly one record, which is the last suggestion
    of the input with that identity (a later suggestion overwrites an
    earlier one: of two suggestions with equal identity only the second
    is kept); and deduplicating twice is deduplicating once. *)
Theorem dedupSuggestions_identity :
  forall (identity : PRSuggestion -> jstring) (l : list PRSuggestion),
    NoDup (map identity (dedupSuggestions identity l))
    /\ (forall s, In s l ->
        exists s',
          In s' (dedupSuggestions identity l)
          /\ identity s' = identity s
          /\ lastWith identity (identity s) l = Some s'
          /\ forall s'',
               In s'' (dedupSuggestions identity l) ->
               identity s'' = identity s -> s'' = s')
    /\ (forall a b,
          identity a = identity b -> dedupSuggestions identity [a; b] = [b])
    /\ dedupSuggestions identity (dedupSuggestions identity l)
       = dedupSuggestions identity l.
Proof.
  intros identity l. split; [|split; [|split]].
  - apply dedup_identities_NoDup.
  - intros s Hs.
    destruct (lastOf_complete identity l s Hs) as [s' Hs'].
    destruct (lastOf_sound identity _ _ Hs') as [Hin Hid].
    assert (Hkept : In s' (dedupSuggestions identity l)).
    { apply dedup_In. now rewrite Hid. }
    exists s'. repeat split; try assumption.
    intros s'' Hin'' Hid''.
    apply (NoDup_map_inj identity (dedupSuggestions identity l));
      try assumption; [apply dedup_identities_NoDup | congruence].
  - intros a b E. unfold dedupSuggestions. simpl.
    now rewrite E, jstring_eqb_refl.
  - apply dedup_distinct. apply dedup_identities_NoDup.
Qed.

Lemma dedupSuggestions_identity_witness :
  let a := Scenario.suggest "Unchecked error" "security" "Check the error."
             "if (err) throw err;" "src/db.ts" in
  let b := Scenario.suggest "Slow loop" "performance" "Use a map."
             "xs.map(f)" "src/list.ts" in
  dedupSuggestions Scenario.contentIdentity [a; a] = [a]
  /\ dedupSuggestions Scenario.contentIdentity [a; b; a] = [a; b].
Proof.
  intros a b.
  destruct (dedupSuggestions_identity Scenario.contentIdentity [a; b; a])
    as (_ & _ & Hpair & _).
  split.
  - apply Hpair. reflexivity.
  - vm_compute. reflexivity.
Defined.

(** ** Filtering comes first *)

Lemma filterFile_filename f g :
  filename f = filename g -> filterFile f = filterFile g.
Proof. intros E. unfold filterFile. now rewrite E. Qed.

Lemma filter_idem {A} (p : A -> bool) l : filter p (filter p l) = filter p l.
Proof.
  induction l as [|x l IH]; simpl; [reflexivity|].
  destruct (p x) eqn:E; simpl; [rewrite E|]; now rewrite ?IH.
Qed.

Section FilterFirst.

Variable encodeChat : Conversation -> N.
Variable encode : jstring -> N.
Variable rawPatchStrategy : PRFile -> jstring.
Variable smarterContextPatchStrategy : PRFile -> jstring.

Local Abbreviation patchBuilder :=
  (buildPatchPrompt rawPatchStrategy smarterContextPatchStrategy).

Lemma filteredFilesOf_pass files :
  Forall (fun f => filterFile f = true)
    (filteredFilesOf encode rawPatchStrategy smarterContextPatchStrategy files).
Proof.
  unfold filteredFilesOf. apply Forall_forall. intros f Hf.
  apply in_map_iff in Hf. destruct Hf as [g [<- Hg]].
  apply filter_In in Hg. destruct Hg as [_ Hg].
  now rewrite (filterFile_filename (setPatchTokenLength encode
    rawPatchStrategy smarterContextPatchStrategy g) g).
Qed.

Lemma processWithinLimitFiles_pass convoBuilder files :
  Forall (fun f => filterFile f = true) files ->
  Forall (Forall (fun f => filterFile f = true))
    (processWithinLimitFiles encodeChat patchBuilder convoBuilder files).
Proof.
  intros H. rewrite Forall_forall in *. intros g Hg.
  apply Forall_forall. intros f Hf. apply H.
  eapply processWithinLimitFiles_incl; eauto.
Qed.

Lemma processOutsideLimitFiles_pass convoBuilder files :
  Forall (fun f => filterFile f = true) files ->
  Forall (Forall (fun f => filterFile f = true))
    (processOutsideLimitFiles encodeChat patchBuilder convoBuilder files).
Proof.
  intros H. unfold processOutsideLimitFiles.
  destruct files as [|f0 files0]; [constructor|].
  set (files := f0 :: files0) in *.
  assert (Hs : Forall (fun f => filterFile f = true)
                 (map stripRemovedLines files)).
  { rewrite Forall_forall in *. intros f Hf.
    apply in_map_iff in Hf. destruct Hf as [g [<- Hg]].
    now rewrite (filterFile_filename (stripRemovedLines g) g), H. }
  destruct (fits encodeChat patchBuilder convoBuilder
              (map stripRemovedLines files)).
  - constructor; [assumption|constructor].
  - apply processWithinLimitFiles_pass.
    rewrite Forall_forall in *. intros f Hf.
    apply filter_In in Hf. now apply Hs.
Qed.

(** Every file of every group that [reviewChanges] sends for review has
    passed the filter. *)
Lemma reviewGroups_pass convoBuilder files :
  Forall (Forall (fun f => filterFile f = true))
    (reviewGroups encodeChat encode rawPatchStrategy
       smarterContextPatchStrategy convoBuilder files).
Proof.
  unfold reviewGroups. apply Forall_app. split.
  - apply processWithinLimitFiles_pass.
    unfold patchesWithinModelLimit.
    pose proof (filteredFilesOf_pass files) as H.
    rewrite Forall_forall in *. intros f Hf.
    apply filter_In in Hf. now apply H.
  - apply processOutsideLimitFiles_pass.
    unfold patchesOutsideModelLimit.
    pose proof (filteredFilesOf_pass files) as H.
    rewrite Forall_forall in *. intros f Hf.
    apply filter_In in Hf. now apply H.
Qed.

(** Every group that [reviewChanges] sends for review is within the
    budget. *)
Lemma reviewGroups_fit builder files :
  Forall (fun g => fits encodeChat patchBuilder builder g = true)
    (reviewGroups encodeChat encode rawPatchStrategy
       smarterContextPatchStrategy builder files).
Proof.
  unfold reviewGroups. apply Forall_app. split.
  - apply processWithinLimitFiles_fits. unfold patchesWithinModelLimit.
    apply Forall_forall. intros f Hf. apply filter_In in Hf.
    now destruct Hf.
  - apply processOutsideLimitFiles_fits.
Qed.

Lemma filteredFilesOf_names files :
  map filename
    (filteredFilesOf encode rawPatchStrategy smarterContextPatchStrategy files)
  = map filename (filter filterFile files).
Proof. unfold filteredFilesOf. rewrite map_map. reflexivity. Qed.

(** When every file that passes the filter has an extension, the files
    of the groups and the oversized files that are left out are the
    files that pass the filter, each of them once. *)
Lemma reviewGroups_cover builder files :
  Forall (fun f => hasExtension f = true) (filter filterFile files) ->
  Permutation
    (map filename
       (concat
          (reviewGroups encodeChat encode rawPatchStrategy
             smarterContextPatchStrategy builder files))
       ++ map filename
            (exceedingLimits encodeChat patchBuilder builder
               (patchesOutsideModelLimit encodeChat encode rawPatchStrategy
                  smarterContextPatchStrategy builder files)))
    (map filename (filter filterFile files)).
Proof.
  intros H.
  assert (Hext : Forall (fun f => hasExtension f = true)
                   (filteredFilesOf encode rawPatchStrategy
                      smarterContextPatchStrategy files)).
  { unfold filteredFilesOf. apply Forall_forall. intros f Hf.
    apply in_map_iff in Hf. destruct Hf as [g [<- Hg]].
    rewrite Forall_forall in H.
    now rewrite (hasExtension_filename
                   (setPatchTokenLength encode rawPatchStrategy
                      smarterContextPatchStrategy g) g), H. }
  unfold reviewGroups. rewrite concat_app, map_app, <- app_assoc.
  rewrite processOutsideLimitFiles_cover.
  - rewrite processWithinLimitFiles_cover.
    + rewrite <- map_app, <- filteredFilesOf_names.
      apply Permutation_map.
      apply (filter_partition
               (fun file => fits encodeChat patchBuilder builder [file])).
    + unfold patchesWithinModelLimit. rewrite Forall_forall in *.
      intros f Hf. apply filter_In in Hf. now apply Hext.
  - unfold patchesOutsideModelLimit. rewrite Forall_forall in *.
    intros f Hf. apply filter_In in Hf. now apply Hext.
Qed.

Variable generateChatCompletion : Conversation -> Exc jstring.
Variable identity : PRSuggestion -> jstring.
Variable parseStringPromise : jstring -> Exc JSValue.
Variable getInlineFixPrompt : jstring -> PRSuggestion -> Conversation.
Variable generateFunctionCall : Conversation -> Exc (option FunctionCall).
Variable JSON_parse : jstring -> Exc JSValue.
Variable getGitFile : BranchDetails -> jstring -> Exc (option jstring).

Local Abbreviation processPR :=
  (processPullRequest encodeChat encode rawPatchStrategy
     smarterContextPatchStrategy generateChatCompletion identity
     parseStringPromise getInlineFixPrompt generateFunctionCall JSON_parse
     getGitFile).

Lemma preprocessFile_filterFile payload f f' :
  preprocessFile getGitFile payload f = Ok f' -> filterFile f' = filterFile f.
Proof.
  unfold preprocessFile.
  destruct (getGitFile (base payload) (filename f)); simpl; [|discriminate].
  destruct (getGitFile (head payload) (filename f)); simpl; [|discriminate].
  intros [= <-]. now apply filterFile_filename.
Qed.

Lemma preprocessed_filter payload files :
  preprocessed getGitFile payload (filter filterFile files)
  = match preprocessed getGitFile payload files with
    | Ok fs => Ok (filter filterFile fs)
    | Raise e => Raise e
    end.
Proof.
  induction files as [|f files IH]; simpl; [reflexivity|].
  destruct (filterFile f) eqn:E; simpl.
  - rewrite E.
    destruct (preprocessFile getGitFile payload f) as [f'|e] eqn:Ef;
      simpl; [|reflexivity].
    rewrite IH.
    destruct (preprocessed getGitFile payload files); simpl; [|reflexivity].
    now rewrite (preprocessFile_filterFile _ _ Ef), E.
  - rewrite IH.
    destruct (preprocessed getGitFile payload files); simpl; [|reflexivity].
    now rewrite E.
Qed.

(** The review that [processPullRequest] returns is the review of the
    files that pass the filter; with none of them there is no review. *)
Lemma processPullRequest_filters_first payload files includeSuggestions :
  review (processPR payload files includeSuggestions)
  = review (processPR payload (filter filterFile files) includeSuggestions)
  /\ (filter filterFile files = [] ->
      processPR payload files includeSuggestions = noReview).
Proof.
  split.
  - unfold processPullRequest. rewrite filter_idem, preprocessed_filter.
    destruct (length (filter filterFile files) =? 0); [reflexivity|].
    destruct (preprocessed getGitFile payload files) as [fs|e];
      [|reflexivity].
    rewrite filter_idem.
    destruct (negb (Regex.test safeName (owner_login payload))
              || negb (Regex.test safeName (repository_name payload)));
      [reflexivity|].
    destruct (reviewChangesRetry _ _ _ _ _ _ _); [|reflexivity].
    now destruct includeSuggestions.
  - intros E. unfold processPullRequest. now rewrite E.
Qed.

End FilterFirst.

(** C10. The filter excludes exactly the files whose lowercased basename
    is in the ignore list, or whose lowercased name has at most one
    segment on dots, or whose last segment on dots is an ignored
    extension; every other file passes. The exclusion comes before any
    batching or review: the groups that [reviewChanges] plans hold only
    files that pass the filter, and the review of [processPullRequest] is
    the review of the files that pass it. *)
Theorem filterFile_exclusion :
  (forall file,
     filterFile file = false <->
     In (last (split "/" (toLowerCase (filename file))) []) filesToIgnore
     \/ length (split "." (toLowerCase (filename file))) <= 1
     \/ In (last (split "." (toLowerCase (filename file))) [])
           extensionsToIgnore)
  /\ (forall encodeChat encode rawPatchStrategy smarterContextPatchStrategy
             builder files,
        forallb (forallb filterFile)
          (reviewGroups encodeChat encode rawPatchStrategy
             smarterContextPatchStrategy builder files) = true)
  /\ (forall encodeChat encode rawPatchStrategy smarterContextPatchStrategy
             generateChatCompletion identity parseStringPromise
             getInlineFixPrompt generateFunctionCall JSON_parse getGitFile
             payload files includeSuggestions,
        review
          (processPullRequest encodeChat encode rawPatchStrategy
             smarterContextPatchStrategy generateChatCompletion identity
             parseStringPromise getInlineFixPrompt generateFunctionCall
             JSON_parse getGitFile payload files includeSuggestions)
        = review
            (processPullRequest encodeChat encode rawPatchStrategy
               smarterContextPatchStrategy generateChatCompletion identity
               parseStringPromise getInlineFixPrompt generateFunctionCall
               JSON_parse getGitFile payload (filter filterFile files)
               includeSuggestions)).
Proof.
  split; [|split].
  - apply filterFile_false_iff.
  - intros. apply forallb_forall. intros g Hg.
    apply forallb_forall. intros f Hf.
    pose proof (reviewGroups_pass encodeChat encode rawPatchStrategy
                  smarterContextPatchStrategy builder files) as H.
    rewrite Forall_forall in H. specialize (H g Hg).
    rewrite Forall_forall in H. now apply H.
  - intros. apply processPullRequest_filters_first.
Qed.

(** ** Line numbers *)

Lemma numberLines_app n pre rest :
  numberLines n (pre ++ rest)
  = (outPre <-! numberLines n pre ;;
     outRest <-! numberLines (nextLine n pre) rest ;;
     Ok (outPre ++ outRest)).
Proof.
  revert n. induction pre as [|line pre IH]; intros n; simpl.
  - destruct (numberLines n rest); reflexivity.
  - destruct (startsWith line (str "@@")).
    + destruct (hunkStart line) as [start|e]; simpl; [|reflexivity].
      rewrite IH. destruct (numberLines start pre); simpl; [|reflexivity].
      destruct (numberLines (nextLine start pre) rest); reflexivity.
    + destruct (negb (startsWith line (str "-"))).
      * rewrite IH. destruct (numberLines (n + 1) pre); simpl; [|reflexivity].
        destruct (numberLines (nextLine (n + 1) pre) rest); reflexivity.
      * apply IH.
Qed.

Lemma numberLines_total n lines :
  Forall wellFormedLine lines -> exists out, numberLines n lines = Ok out.
Proof.
  intros H. revert n. induction H as [|line lines Hl _ IH]; intros n; simpl.
  - eauto.
  - destruct (startsWith line (str "@@")) eqn:E.
    + destruct (Hl E) as [start ->]. simpl.
      destruct (IH start) as [out ->]. simpl. eauto.
    + destruct (negb (startsWith line (str "-"))).
      * destruct (IH (n + 1)%N) as [out ->]. simpl. eauto.
      * apply IH.
Qed.

(** Lines of a chunk body: the removed ones leave no trace, the others
    are numbered one after the other. *)
Lemma numberLines_body n body :
  Forall (fun line => startsWith line (str "@@") = false) body ->
  numberLines n body = Ok (numbered n (filter (fun l => negb (isRemoved l)) body))
  /\ nextLine n body
     = (n + N.of_nat (length (filter (fun l => negb (isRemoved l)) body)))%N.
Proof.
  intros H. revert n. induction H as [|line body Hl _ IH]; intros n.
  - simpl. split; [reflexivity | lia].
  - cbn [numberLines nextLine filter]. rewrite Hl.
    change (isRemoved line) with (startsWith line (str "-")).
    destruct (negb (startsWith line (str "-"))).
    + destruct (IH (n + 1)%N) as [-> ->]. cbn [bindE numbered length].
      split; [reflexivity|]. lia.
    + apply IH.
Qed.

Lemma split_one_line line : ~ In LF line -> split LF line = [line].
Proof.
  induction line as [|c line IH]; intros H; [reflexivity|].
  cbn [split]. destruct (Ascii.eqb c LF) eqn:E.
  - apply Ascii.eqb_eq in E. subst. exfalso. apply H. now left.
  - rewrite IH; [reflexivity|]. intros Hin. apply H. now right.
Qed.

Lemma split_first_line line rest :
  ~ In LF line -> split LF (line ++ LF :: rest) = line :: split LF rest.
Proof.
  induction line as [|c line IH]; intros H.
  - cbn [app split]. now rewrite Ascii.eqb_refl.
  - cbn [app split]. destruct (Ascii.eqb c LF) eqn:E.
    + apply Ascii.eqb_eq in E. subst. exfalso. apply H. now left.
    + rewrite IH; [reflexivity|]. intros Hin. apply H. now right.
Qed.

Lemma split_join_lines lines :
  lines <> [] ->
  Forall (fun line => ~ In LF line) lines ->
  split LF (join NL lines) = lines.
Proof.
  intros Hne H. induction H as [|line lines Hl Hrest IH]; [congruence|].
  clear Hne. destruct lines as [|l2 lines].
  - now apply split_one_line.
  - change (join NL (line :: l2 :: lines))
      with (line ++ LF :: join NL (l2 :: lines)).
    rewrite split_first_line by assumption.
    now rewrite IH.
Qed.

(** C8 fails on a diff whose first hunk changes a single line: the host
    writes the header of such a hunk without the counts, [@@ -1 +1 @@].
    The line starts with two at-signs, the pattern of the function asks
    for a comma after each start line and finds no match, and reading
    the start line from the failed match throws. So for this diff, which
    holds the header [@@ -10,5 +20,5 @@] followed by three lines that do
    not start with a minus sign, nothing is numbered: the function
    throws. The second hunk alone is numbered 20, 21, 22. *)
Theorem assignLineNumbers_throws_on_header_without_counts :
  let header := str "@@ -10,5 +20,5 @@" in
  let hunk := [header; str " x"; str "+y"; str " z"] in
  let first := [str "@@ -1 +1 @@"; str "-old"; str "+new"] in
  let diff := join NL (first ++ hunk) in
  split LF diff = first ++ hunk
  /\ forallb (fun line => negb (startsWith line (str "-")))
       [str " x"; str "+y"; str " z"] = true
  /\ Regex.firstMatch hunkHeader (str "@@ -1 +1 @@") = None
  /\ assignLineNumbers diff
     = Raise (str "TypeError: Cannot read properties of null")
  /\ assignLineNumbers (join NL hunk)
     = Ok (join NL [header; str "20:  x"; str "21: +y"; str "22:  z"]).
Proof.
  intros header hunk first diff.
  split; [|split; [|split; [|split]]]; vm_compute; reflexivity.
Qed.

(** ** Inline fixes *)

Lemma slice_inclusive {A} (l : list A) (first last : Z) :
  (1 <= first)%Z -> (0 <= last)%Z ->
  slice l (first - 1) last
  = firstn (Z.to_nat (last - first + 1)) (skipn (Z.to_nat (first - 1)) l).
Proof.
  intros Hf Hl. unfold slice, relativeIndex.
  destruct (first - 1 <? 0)%Z eqn:E1; [apply Z.ltb_lt in E1; lia|].
  destruct (last <? 0)%Z eqn:E2; [apply Z.ltb_lt in E2; lia|].
  set (i := Z.to_nat (first - 1)). set (j := Z.to_nat last).
  replace (Z.to_nat (last - first + 1)) with (j - i) by (unfold i, j; lia).
  destruct (Nat.le_gt_cases (length l) i) as [Hi|Hi].
  - rewrite (Nat.min_r i) by lia.
    rewrite !skipn_all2 by lia. now rewrite !firstn_nil.
  - rewrite (Nat.min_l i) by lia.
    destruct (Nat.le_gt_cases j (length l)) as [Hj|Hj].
    + now rewrite (Nat.min_l j) by lia.
    + rewrite (Nat.min_r j) by lia.
      rewrite !firstn_all2; [reflexivity| |]; rewrite length_skipn; lia.
Qed.

Section InlineFixFacts.

Variable getInlineFixPrompt : jstring -> PRSuggestion -> Conversation.
Variable generateFunctionCall : Conversation -> Exc (option FunctionCall).
Variable JSON_parse : jstring -> Exc JSValue.

Local Abbreviation generateInline :=
  (generateInlineComments getInlineFixPrompt generateFunctionCall JSON_parse).
Local Abbreviation proposed :=
  (proposedFix getInlineFixPrompt generateFunctionCall JSON_parse).

(** The function returns the fix it has built when the fix is new, and
    null otherwise. *)
Lemma generateInlineComments_proposed suggestion file :
  generateInline suggestion file
  = match current_contents file, proposed suggestion file with
    | Some contents, Some codeFix =>
        if isCodeSuggestionNew contents codeFix then Some codeFix else None
    | _, _ => None
    end.
Proof.
  unfold generateInlineComments, proposedFix.
  destruct (current_contents file) as [contents|]; [|reflexivity].
  destruct (negb (truthy contents)); [reflexivity|].
  destruct (generateFunctionCall (getInlineFixPrompt contents suggestion))
    as [[call|]|e]; try reflexivity.
  destruct (JSON_parse (arguments call)) as [args|e]; [|reflexivity].
  destruct args; try reflexivity;
    destruct (Value.get _ "lineStart"); try reflexivity;
    destruct (Value.get _ "lineEnd"); try reflexivity;
    destruct (negb (Value.truthyV (Value.get _ "code"))); reflexivity.
Qed.

(** C6. Whenever the current content of the file over the line range of
    the proposed fix (lines numbered from 1, both ends included), once
    trimmed, equals the trimmed replacement of the fix,
    [generateInlineComments] returns null. *)
Theorem generateInlineComments_suppresses_noop :
  forall (suggestion : PRSuggestion) (file : PRFile)
         (contents : jstring) (codeFix : CodeSuggestion),
    current_contents file = Some contents ->
    proposed suggestion file = Some codeFix ->
    (1 <= line_start codeFix)%Z ->
    (0 <= line_end codeFix)%Z ->
    trim (lineRange contents (line_start codeFix) (line_end codeFix))
    = trim (correction codeFix) ->
    generateInline suggestion file = None.
Proof.
  intros suggestion file contents codeFix Hc Hp Hs He Heq.
  rewrite generateInlineComments_proposed, Hc, Hp.
  unfold isCodeSuggestionNew.
  rewrite slice_inclusive by assumption.
  fold (lineRange contents (line_start codeFix) (line_end codeFix)).
  rewrite Heq, jstring_eqb_refl. reflexivity.
Qed.

End InlineFixFacts.

Lemma generateInlineComments_suppresses_noop_witness :
  let contents :=
    join NL [str "function f() {"; str "  return 1;"; str "}"] in
  generateInlineComments Service.inlinePrompt
    (Service.answering "{...}")
    (Service.parsingAs (Service.fixArgs "return 1;" 2 2))
    (Scenario.suggest "Constant" "improvement" "Return the constant."
       "return 1;" "src/f.js")
    (Service.fetched "src/f.js" contents)
  = None.
Proof.
  intros contents.
  apply (@generateInlineComments_suppresses_noop
           Service.inlinePrompt (Service.answering "{...}")
           (Service.parsingAs (Service.fixArgs "return 1;" 2 2))
           _ (Service.fetched "src/f.js" contents) contents
           {| file := str "src/f.js";
              line_start := 2;
              line_end := 2;
              correction := str "  return 1;";
              fix_comment := JStr (str "Use this.") |}).
  - reflexivity.
  - vm_compute. reflexivity.
  - simpl. lia.
  - simpl. lia.
  - vm_compute. reflexivity.
Defined.

(** ** Issue links *)

(** The greedy loop over one class of characters, followed by the end
    of the subject: it succeeds exactly when all that is left is in the
    class. *)
Lemma repeat_class_to_end (C : ascii -> bool) :
  forall fuel p r cs,
    length r < fuel ->
    Regex.repeatRe (Regex.matchRe (Regex.Chr C)) true
      (fun s1 => Regex.matchRe Regex.Eol s1 Some) fuel 0 None
      (Regex.mkState p r cs)
    = if forallb C r then Some (Regex.mkState (p + length r) [] cs) else None.
Proof.
  induction fuel as [|fuel IH]; intros p r cs Hlen; [lia|].
  cbn [Regex.repeatRe Regex.maxIsZero Regex.matchRe Regex.rest Regex.pos
       Regex.caps Regex.predMax option_map].
  destruct r as [|c r].
  - cbn [forallb length]. now rewrite Nat.add_0_r.
  - cbn [forallb]. destruct (C c); [|reflexivity].
    cbn [length]. rewrite (proj2 (Nat.ltb_lt _ _) (Nat.lt_succ_diag_r _)).
    rewrite IH by (simpl in Hlen; lia). cbn [andb].
    destruct (forallb C r); [|reflexivity].
    f_equal. f_equal. lia.
Qed.

Lemma matchRe_Chr_cons (C : ascii -> bool) p c r cs k :
  Regex.matchRe (Regex.Chr C) (Regex.mkState p (c :: r) cs) k
  = if C c then k (Regex.mkState (S p) r cs) else None.
Proof. reflexivity. Qed.

Lemma plus_class_to_end (C : ascii -> bool) p r cs :
  Regex.matchRe (Regex.plus (Regex.Chr C)) (Regex.mkState p r cs)
    (fun s1 => Regex.matchRe Regex.Eol s1 Some)
  = if truthy r && forallb C r
    then Some (Regex.mkState (p + length r) [] cs) else None.
Proof.
  unfold Regex.plus.
  change (Regex.matchRe (Regex.Rep true 1 None (Regex.Chr C))
            (Regex.mkState p r cs)
            (fun s1 => Regex.matchRe Regex.Eol s1 Some))
    with (Regex.matchRe (Regex.Chr C) (Regex.mkState p r cs)
            (fun s1 =>
               Regex.repeatRe (Regex.matchRe (Regex.Chr C)) true
                 (fun s1 => Regex.matchRe Regex.Eol s1 Some)
                 (length r + 1) 0 None s1)).
  destruct r as [|c r]; [reflexivity|].
  rewrite matchRe_Chr_cons. cbn [truthy andb forallb].
  destruct (C c); [|reflexivity].
  rewrite repeat_class_to_end by (simpl; lia).
  destruct (forallb C r); [|reflexivity].
  cbn [length Nat.add]. now rewrite Nat.add_succ_r.
Qed.

Lemma safeName_matchAt p s :
  Regex.matchAt safeName p s
  = if (p =? 0) && (truthy s && forallb safeNameChar s)
    then Some (Regex.mkMatch p (p + length s) (firstn (p + length s - p) s) [])
    else None.
Proof.
  unfold Regex.matchAt, safeName.
  change (Regex.matchRe
            (Regex.seqOf
               [Regex.Bol; Regex.plus (Regex.Chr safeNameChar); Regex.Eol])
            (Regex.mkState p s []) Some)
    with (if p =? 0
          then Regex.matchRe (Regex.plus (Regex.Chr safeNameChar))
                 (Regex.mkState p s [])
                 (fun s1 => Regex.matchRe Regex.Eol s1 Some)
          else None).
  destruct (p =? 0); [|reflexivity].
  rewrite plus_class_to_end. cbn [andb].
  now destruct (truthy s && forallb safeNameChar s).
Qed.

Lemma safeName_only_at_start s p :
  0 < p -> Regex.search safeName p s = None.
Proof.
  revert p. induction s as [|c s IH]; intros p Hp; cbn [Regex.search];
    rewrite safeName_matchAt;
    (destruct p; [lia|]); cbn [Nat.eqb andb]; [reflexivity|].
  apply IH. lia.
Qed.

(** The pattern for owner and repository names accepts the non-empty
    names made of letters, digits, [-], [_] and [.]. *)
Lemma test_safeName s :
  Regex.test safeName s = truthy s && forallb safeNameChar s.
Proof.
  unfold Regex.test, Regex.firstMatch, Regex.exec.
  cbn [Nat.ltb Nat.leb skipn].
  destruct s as [|c s]; cbn [Regex.search]; rewrite safeName_matchAt.
  - reflexivity.
  - cbn [Nat.eqb andb].
    destruct (truthy (c :: s) && forallb safeNameChar (c :: s));
      [reflexivity|].
    now rewrite safeName_only_at_start by lia.
Qed.

(** An owner or a repository name that is empty or does not match the
    pattern gives the placeholder link. *)
Lemma generateGithubIssueUrl_placeholder owner repoName title body codeblock :
  (truthy owner && forallb safeNameChar owner)
  && (truthy repoName && forallb safeNameChar repoName) = false ->
  generateGithubIssueUrl owner repoName title body codeblock
  = issuePlaceholder.
Proof.
  intros H. unfold generateGithubIssueUrl.
  destruct (negb (truthy owner) || negb (truthy repoName)); [reflexivity|].
  rewrite !test_safeName.
  apply andb_false_iff in H. destruct H as [-> | ->]; simpl; [reflexivity|].
  now rewrite orb_true_r.
Qed.

(** C7 fails on a long comment. The link is first built with the code
    block; it is over 2048 code units, so it is built again without the
    code block, and that second link, 3517 code units long, is returned
    without a further test. *)
Theorem generateGithubIssueUrl_exceeds_cap :
  let comment := concat (repeat (str "Guard this call. ") 150) in
  let url :=
    str "https://github.com/acme/api/issues/new?title=Unchecked%20call&body="
      ++ encodeURIComponent comment in
  generateGithubIssueUrl (str "acme") (str "api") (str "Unchecked call")
    comment (Some (str "guard(call);"))
  = str "[Create Issue](" ++ url ++ str ")"
  /\ length url = 3517
  /\ 2048 < length url.
Proof.
  intros comment url.
  assert (L : length url = 3517) by (vm_compute; reflexivity).
  split; [vm_compute; reflexivity|]. split; [exact L|]. rewrite L. lia.
Qed.

(** ** The structured parser *)

(** C5 fails on an empty code element. The parser of the source gives the
    empty string for [<code/>], in a list of one item; that item is a
    string, so it becomes the code of a suggestion that is kept. *)
Theorem processXMLSuggestions_keeps_empty_code :
  (forall fields,
     option_map sug_code
       (normalizeSuggestion (JObj ((str "code", JArr [JStr []]) :: fields)))
     = Some [])
  /\
  let reply :=
    str "<review><suggestion><describe>Dead code</describe><type>cleanup</type><comment>Remove it.</comment><code/><filename>src/a.ts</filename></suggestion></review>" in
  let parsed :=
    JObj [ (str "review",
            JObj [ (str "suggestion",
                    JArr [ JObj [ (str "describe",
                                   Service.textElement "Dead code");
                                  (str "type", Service.textElement "cleanup");
                                  (str "comment",
                                   Service.textElement "Remove it.");
                                  (str "code", JArr [JStr []]);
                                  (str "filename",
                                   Service.textElement "src/a.ts") ] ]) ]) ] in
  processXMLSuggestions (Service.parsingXmlAs parsed) [reply]
  = [ {| sug_describe := str "[object Object]";
         sug_type := str "[object Object]";
         sug_comment := str "[object Object]";
         sug_code := [];
         sug_filename := str "[object Object]" |} ].
Proof.
  split.
  - intros fields. reflexivity.
  - vm_compute. reflexivity.
Qed.

(** ** The matcher moves forward *)

Module RegexFacts.

Import Regex.

Lemma later_refl s : later s s.
Proof. split; [apply Nat.le_refl | reflexivity]. Qed.

Lemma later_trans s1 s2 s3 : later s1 s2 -> later s2 s3 -> later s1 s3.
Proof. unfold later. intros [? ?] [? ?]. split; [lia | congruence]. Qed.

(** A successful match has called its continuation at a later position. *)
Lemma matchRe_later r :
  forall s k x,
    matchRe r s k = Some x -> exists s', later s s' /\ k s' = Some x.
Proof.
  induction r as [|p|a IHa b IHb|a IHa b IHb|greedy min max a IHa|i a IHa| |];
    intros s k x H; cbn [matchRe] in H.
  - exists s. split; [apply later_refl | assumption].
  - destruct (rest s) as [|c s0] eqn:Es; [discriminate|].
    destruct (p c); [|discriminate].
    eexists. split; [|eassumption].
    unfold later, endOf. simpl. rewrite Es. simpl. lia.
  - apply IHa in H. destruct H as [s1 [L1 H]].
    apply IHb in H. destruct H as [s2 [L2 H]].
    exists s2. split; [eapply later_trans; eauto | assumption].
  - destruct (matchRe a s k) eqn:Ea.
    + injection H as <-. now apply IHa in Ea.
    + now apply IHb in H.
  - revert H. generalize (min + length (rest s) + 1) as fuel.
    intros fuel. revert min max s.
    induction fuel as [|fuel IHf]; intros min max s H; [discriminate|].
    cbn [repeatRe] in H. destruct min as [|min'].
    + destruct (maxIsZero max).
      { exists s. split; [apply later_refl | assumption]. }
      destruct greedy.
      * match type of H with
        | match ?M with _ => _ end = _ => destruct M eqn:Em
        end.
        -- injection H as <-. apply IHa in Em. destruct Em as [s1 [L1 Em]].
           destruct (length (rest s1) <? length (rest s)); [|discriminate].
           apply IHf in Em. destruct Em as [s2 [L2 Em]].
           exists s2. split; [eapply later_trans; eauto | assumption].
        -- exists s. split; [apply later_refl | assumption].
      * destruct (k s) eqn:Ek.
        -- injection H as <-. exists s. split; [apply later_refl | assumption].
        -- apply IHa in H. destruct H as [s1 [L1 H]].
           destruct (length (rest s1) <? length (rest s)); [|discriminate].
           apply IHf in H. destruct H as [s2 [L2 H]].
           exists s2. split; [eapply later_trans; eauto | assumption].
    + apply IHa in H. destruct H as [s1 [L1 H]].
      apply IHf in H. destruct H as [s2 [L2 H]].
      exists s2. split; [eapply later_trans; eauto | assumption].
  - apply IHa in H. destruct H as [s1 [L1 H]].
    eexists. split; [|eassumption].
    destruct L1 as [L1 L1']. split; [exact L1 | exact L1'].
  - destruct (pos s =? 0); [|discriminate].
    exists s. split; [apply later_refl | assumption].
  - destruct (rest s); [|discriminate].
    exists s. split; [apply later_refl | assumption].
Qed.

Lemma matchAt_bounds r p s m :
  matchAt r p s = Some m ->
  index m = p /\ p <= final m /\ final m <= p + length s.
Proof.
  unfold matchAt. destruct (matchRe r (mkState p s []) Some) as [e|] eqn:E;
    [|discriminate].
  intros [= <-]. simpl. apply matchRe_later in E.
  destruct E as [s' [[L1 L2] [= ->]]]. unfold endOf in L2. simpl in *. lia.
Qed.

(** An expression that begins with a character consumes input. *)
Lemma matchAt_consumes c r1 r2 p s m :
  matchAt (Seq (Seq (Chr c) r1) r2) p s = Some m -> p < final m.
Proof.
  unfold matchAt. cbn [matchRe rest pos caps].
  destruct s as [|x s0]; [discriminate|].
  destruct (c x); [|discriminate].
  destruct (matchRe r1 _ _) as [e|] eqn:E; [|discriminate].
  intros [= <-]. simpl. apply matchRe_later in E.
  destruct E as [s1 [[L1 _] E]]. apply matchRe_later in E.
  destruct E as [s2 [[L2 _] [= ->]]]. simpl in *. lia.
Qed.

Lemma search_bounds r p s m :
  search r p s = Some m ->
  p <= index m /\ index m <= final m /\ final m <= p + length s
  /\ exists s', matchAt r (index m) s' = Some m.
Proof.
  revert p. induction s as [|x s IH]; intros p; cbn [search].
  - destruct (matchAt r p []) as [m'|] eqn:E; [|discriminate].
    intros Hm. injection Hm as Hm. subst m'.
    destruct (matchAt_bounds _ _ _ E) as (E1 & E2 & E3).
    rewrite E1. repeat split; try lia. exists []. exact E.
  - destruct (matchAt r p (x :: s)) as [m'|] eqn:E.
    + intros Hm. injection Hm as Hm. subst m'.
      destruct (matchAt_bounds _ _ _ E) as (E1 & E2 & E3).
      rewrite E1. repeat split; try lia. exists (x :: s). exact E.
    + intros H. apply IH in H. destruct H as (H1 & H2 & H3 & H4).
      simpl. repeat split; try lia. exact H4.
Qed.

Lemma exec_bounds r text lastIndex m :
  exec r text lastIndex = Some m ->
  lastIndex <= index m /\ index m <= final m /\ final m <= length text
  /\ exists s', matchAt r (index m) s' = Some m.
Proof.
  unfold exec. destruct (length text <? lastIndex) eqn:E; [discriminate|].
  apply Nat.ltb_ge in E. intros H. apply search_bounds in H.
  destruct H as (H1 & H2 & H3 & H4). rewrite length_skipn in H3.
  repeat split; try lia. exact H4.
Qed.

End RegexFacts.

(** ** The fallback parser *)

Lemma codeBlock_consumes text lastIndex m :
  Regex.exec codeBlockRegex text lastIndex = Some m ->
  lastIndex < Regex.final m /\ Regex.final m <= length text.
Proof.
  intros H. apply RegexFacts.exec_bounds in H.
  destruct H as (H1 & H2 & H3 & [s' H4]).
  apply RegexFacts.matchAt_consumes in H4. lia.
Qed.

(** The loop over the code blocks ends before its fuel does. *)
Lemma execAll_total text :
  forall fuel lastIndex,
    length text <= fuel + lastIndex ->
    exists ms, execAll fuel codeBlockRegex text lastIndex = Some ms.
Proof.
  induction fuel as [|fuel IH]; intros lastIndex Hlen; cbn [execAll].
  - destruct (Regex.exec codeBlockRegex text lastIndex) as [m|] eqn:E;
      [|eauto].
    apply codeBlock_consumes in E. lia.
  - destruct (Regex.exec codeBlockRegex text lastIndex) as [m|] eqn:E;
      [|eauto].
    apply codeBlock_consumes in E.
    destruct (IH (Regex.final m)) as [ms ->]; [lia|]. eauto.
Qed.

(** The parser pushes, block after block, what the body of its loop
    gives for the block. *)
Lemma fallbackLoop_execAll text :
  forall fuel lastIndex,
    fallbackLoop fuel text lastIndex
    = option_map (filterMap (suggestionOfBlock text))
        (execAll fuel codeBlockRegex text lastIndex).
Proof.
  induction fuel as [|fuel IH]; intros lastIndex;
    cbn [fallbackLoop execAll].
  - now destruct (Regex.exec codeBlockRegex text lastIndex).
  - destruct (Regex.exec codeBlockRegex text lastIndex) as [m|];
      [|reflexivity].
    rewrite IH.
    destruct (execAll fuel codeBlockRegex text (Regex.final m)); simpl;
      [|reflexivity].
    now destruct (suggestionOfBlock text m).
Qed.

Lemma suggestionOfBlock_blank text m :
  isBlank (blockBody m) = true -> suggestionOfBlock text m = None.
Proof.
  unfold suggestionOfBlock, isBlank, blockBody. now intros ->.
Qed.

Lemma suggestionOfBlock_improvement text m :
  isBlank (blockBody m) = false ->
  exists s, suggestionOfBlock text m = Some s
            /\ sug_type s = str "improvement".
Proof.
  unfold suggestionOfBlock, isBlank, blockBody. intros ->.
  eexists. split; reflexivity.
Qed.

Lemma filterMap_length_type text ms :
  length (filterMap (suggestionOfBlock text) ms)
  = length (filter (fun m => negb (isBlank (blockBody m))) ms)
  /\ Forall (fun s => sug_type s = str "improvement")
       (filterMap (suggestionOfBlock text) ms).
Proof.
  induction ms as [|m ms [IH1 IH2]]; cbn [filterMap filter].
  - split; [reflexivity | constructor].
  - destruct (isBlank (blockBody m)) eqn:E.
    + rewrite (suggestionOfBlock_blank text m E). now split.
    + destruct (suggestionOfBlock_improvement text m E) as [s [-> Hs]].
      simpl. split; [now rewrite IH1 | now constructor].
Qed.

(** ** Worked scenarios of the planner and of the retry *)

Section Scenarios.

Import Scenario.

Local Abbreviation groupsOf :=
  (reviewGroups charTokens charCount headerPatch headerPatch
     getXMLReviewPrompt).
Local Abbreviation withinOf :=
  (patchesWithinModelLimit charTokens charCount headerPatch headerPatch
     getXMLReviewPrompt).
Local Abbreviation outsideOf :=
  (patchesOutsideModelLimit charTokens charCount headerPatch headerPatch
     getXMLReviewPrompt).

(** C2 fails for a file whose name ends with a dot. Two files pass the
    filter and fit the budget one by one, but not together; the planner
    then groups by extension, and the file whose extension is the empty
    string is put in no group. It is not among the oversized files
    either. *)
Theorem reviewGroups_loses_file_without_extension :
  (forall encodeChat patchBuilder builder files,
     Permutation
       (concat (processWithinLimitFiles encodeChat patchBuilder builder files))
       (if fits encodeChat patchBuilder builder files then files
        else filter hasExtension files))
  /\ let files :=
       [ changed "docs/notes.v2." (addedLine 70000);
         changed "src/a.ts" (addedLine 70000) ] in
     map filename (filter filterFile files)
     = [str "docs/notes.v2."; str "src/a.ts"]
     /\ map hasExtension files = [false; true]
     /\ map filename (withinOf files)
        = [str "docs/notes.v2."; str "src/a.ts"]
     /\ map (map filename) (groupsOf files) = [[str "src/a.ts"]]
     /\ exceedingLimits charTokens (buildPatchPrompt headerPatch headerPatch)
          getXMLReviewPrompt (outsideOf files) = [].
Proof.
  split.
  - intros. apply processWithinLimitFiles_perm.
  - repeat split; vm_compute; reflexivity.
Qed.

(** C3 fails when no file fits the budget alone. With one file that is
    too large even without its removed lines, both halves of the planner
    are handed no file that fits, and each of them makes a group with no
    file in it. *)
Theorem reviewGroups_empty_groups :
  (forall encodeChat patchBuilder builder,
     processWithinLimitFiles encodeChat patchBuilder builder []
     = if fits encodeChat patchBuilder builder [] then [[]] else [])
  /\ let files := [changed "src/big.ts" (addedLine 130000)] in
     withinOf files = []
     /\ fits charTokens (buildPatchPrompt headerPatch headerPatch)
          getXMLReviewPrompt [] = true
     /\ groupsOf files = [[]; []].
Proof.
  split.
  - intros. unfold processWithinLimitFiles.
    now destruct (fits encodeChat patchBuilder builder []).
  - repeat split; vm_compute; reflexivity.
Qed.

End Scenarios.

(** ** Retry over the strategies *)

(** C1 fails when the completion service raises on every request: a
    pull request of one file with one added line, for the repository
    acme/api, while every request is rejected. The file makes one
    group, so one request is sent. The first strategy catches the error
    of that request and returns a result with a fixed comment; the retry
    takes that result, does not try the second strategy and raises
    nothing, also when the tokenizer is one that can throw and here
    returns, and [processPullRequest] returns the result as the
    review. *)
Theorem reviewChangesRetry_returns_placeholder :
  let files := [Scenario.changed "src/a.ts" (Scenario.addedLine 40)] in
  let builders :=
    strategies Scenario.contentIdentity (Service.parsingXmlAs JNull)
      (str "acme") (str "api") in
  let placeholder :=
    {| comment := str "Error occurred during review process";
       structuredComments := [] |} in
  length
    (reviewGroups Scenario.charTokens Scenario.charCount Scenario.headerPatch
       Scenario.headerPatch getXMLReviewPrompt files) = 1
  /\ reviewChangesRetry Scenario.charTokens Scenario.charCount
       Scenario.headerPatch Scenario.headerPatch Service.unavailable
       files builders
     = Ok placeholder
  /\ Throwing.reviewChangesRetry
       (fun messages => Ok (Scenario.charTokens messages))
       (fun text => Ok (Scenario.charCount text))
       (fun file => Ok (Scenario.headerPatch file))
       (fun file => Ok (Scenario.headerPatch file))
       Service.unavailable files builders
     = Ok placeholder
  /\ processPullRequest Scenario.charTokens Scenario.charCount
       Scenario.headerPatch Scenario.headerPatch Service.unavailable
       Scenario.contentIdentity (Service.parsingXmlAs JNull)
       Service.inlinePrompt (Service.answering "{}")
       (Service.parsingAs JNull) Service.notFound
       Service.pullRequest files true
     = {| review := Some placeholder; suggestions := [] |}.
Proof.
  intros files builders placeholder.
  split; [|split; [|split]].
  - vm_compute. reflexivity.
  - vm_compute. reflexivity.
  - vm_compute. reflexivity.
  - vm_compute. reflexivity.
Qed.

(** ** Worked examples *)

Example filterFile_examples :
  map (fun name => filterFile (Scenario.changed name []))
    [ "README.md"; "src/app.ts"; "Makefile"; "docs/notes.v2.";
      "assets/Logo.PNG"; "pkg/package.json"; "src/.gitignore" ]%string
  = [false; true; false; true; false; false; false].
Proof. vm_compute. reflexivity. Qed.

Example hunkStart_examples :
  hunkStart (str "@@ -10,5 +20,5 @@ def f():") = Ok 20%N
  /\ hunkStart (str "@@ -1 +1 @@")
     = Raise (str "TypeError: Cannot read properties of null").
Proof. split; vm_compute; reflexivity. Qed.

Example assignLineNumbers_example :
  assignLineNumbers
    (join NL [str "@@ -10,5 +20,5 @@"; str " a"; str "-b"; str "+c"; str " d"])
  = Ok (join NL [str "@@ -10,5 +20,5 @@"; str "20:  a"; str "21: +c";
                 str "22:  d"]).
Proof. vm_compute. reflexivity. Qed.

(** A reply with no review element and two fenced blocks, the first
    under a hint of the form [path: src/a.go]. *)
Example fallbackTextParser_example :
  let reply :=
    join NL
      [ str "Use a guard, path: src/a.go";
        str "```go";
        str "if err != nil { return err }";
        str "```";
        str "and then simplify the loop.";
        str "```python";
        str "print(1)";
        str "```" ] in
  map (fun s => (sug_type s, sug_filename s)) (fallbackTextParser reply)
  = [ (str "improvement", str "src/a.go");
      (str "improvement", str "src/a.go") ]
  /\ map sug_code (fallbackTextParser reply)
     = [ join NL [str "```go"; str "if err != nil { return err }"; [];
                  str "```"];
         join NL [str "```python"; str "print(1)"; []; str "```"] ].
Proof. split; vm_compute; reflexivity. Qed.

Example sanitizeFeedback_example :
  sanitizeFeedback
    (join NL
       [ str "Here is my review.";
         str "<review><suggestion><code>```js";
         str "if (a < b) f();";
         str "```</code></suggestion></review>";
         str "Thanks." ])
  = Some
      (join NL
         [ str "<review><suggestion><code><![CDATA[if (a < b) f();";
           str "]]></code></suggestion></review>" ]).
Proof. vm_compute. reflexivity. Qed.

Example generateGithubIssueUrl_examples :
  generateGithubIssueUrl (str "acme") (str "api") (str "A title")
    (str "body & more") (Some (str "let x = 1;"))
  = str "[Create Issue](https://github.com/acme/api/issues/new?title=A%20title&body=body%20%26%20more%0Alet%20x%20%3D%201%3B%0A)"
  /\ generateGithubIssueUrl (str "ac me") (str "api") (str "A title")
       (str "body") None
     = issuePlaceholder.
Proof. split; vm_compute; reflexivity. Qed.

(* ================================================================= *)
(** * Further properties of the engine *)

(** ** The packing loop *)

Section PackingFacts.

Variable encodeChat : Conversation -> N.
Variable patchBuilder : PRFile -> jstring.
Variable builder : jstring -> Conversation.

Local Abbreviation fits := (fits encodeChat patchBuilder builder).
Local Abbreviation packStep := (packStep encodeChat patchBuilder builder).
Local Abbreviation packExtension :=
  (packExtension encodeChat patchBuilder builder).
Local Abbreviation overflow :=
  (closedOnOverflow encodeChat patchBuilder builder).

Lemma insertByTokens_sorted f l :
  Sorted tokensLe l -> Sorted tokensLe (insertByTokens f l).
Proof.
  induction 1 as [|x l Hs IH Hhd]; cbn [insertByTokens].
  - repeat constructor.
  - destruct (patchTokenLength f <=? patchTokenLength x)%N eqn:E.
    + apply N.leb_le in E. constructor; [now constructor|].
      now constructor.
    + apply N.leb_gt in E. constructor; [exact IH|].
      destruct l as [|y l]; cbn [insertByTokens].
      * constructor. unfold tokensLe. lia.
      * destruct (patchTokenLength f <=? patchTokenLength y)%N.
        -- constructor. unfold tokensLe. lia.
        -- constructor. now inversion Hhd.
Qed.

Lemma sortByTokens_sorted l : Sorted tokensLe (sortByTokens l).
Proof.
  induction l as [|x l IH]; cbn [sortByTokens fold_right]; [constructor|].
  now apply insertByTokens_sorted.
Qed.

(** The loop only appends: the closed groups followed by the open one
    spell out the files in the order in which they came. *)
Lemma packStep_eq G c f :
  packStep (G, c) f
  = if fits (c ++ [f]) then (G, c ++ [f]) else (G ++ [c], [f]).
Proof. reflexivity. Qed.

Lemma pack_fold_concat l G c :
  concat (fst (fold_left packStep l (G, c)))
    ++ snd (fold_left packStep l (G, c))
  = concat G ++ c ++ l.
Proof.
  revert G c. induction l as [|f l IH]; intros G c; cbn [fold_left].
  - cbn [fst snd]. now rewrite app_nil_r.
  - rewrite packStep_eq. destruct (fits (c ++ [f])).
    + rewrite IH. now rewrite <- app_assoc.
    + rewrite IH. rewrite concat_app. cbn [concat].
      now rewrite app_nil_r, <- !app_assoc.
Qed.

Lemma adjacent_snoc {A} (R : A -> A -> Prop) l a b :
  adjacent R (l ++ [a]) -> R a b -> adjacent R (l ++ [a; b]).
Proof.
  induction l as [|x l IH]; intros H Hab.
  - cbn. auto.
  - destruct l as [|y l].
    + cbn in *. tauto.
    + cbn [app adjacent] in *. destruct H as [Hxy H]. split; [assumption|].
      now apply IH.
Qed.

Lemma adjacent_last {A} (R : A -> A -> Prop) l a a' :
  adjacent R (l ++ [a]) -> (forall x, R x a -> R x a') ->
  adjacent R (l ++ [a']).
Proof.
  induction l as [|x l IH]; intros H Hr.
  - exact I.
  - destruct l as [|y l].
    + cbn in *. destruct H as [H _]. split; [now apply Hr | exact I].
    + cbn [app adjacent] in *. destruct H as [Hxy H]. split; [assumption|].
      now apply IH.
Qed.

(** The groups made by one run of the loop, [news], and the open group:
    every closed group overflowed with the first file of the next. *)
Lemma pack_fold_overflow l :
  forall G news c,
    (c = [] -> news = []) ->
    adjacent overflow (news ++ [c]) ->
    exists news' c',
      fold_left packStep l (G ++ news, c) = (G ++ news', c')
      /\ (c' = [] -> news' = [] /\ l = [] /\ c = [])
      /\ adjacent overflow (news' ++ [c']).
Proof.
  induction l as [|f l IH]; intros G news c Hc Hadj; cbn [fold_left].
  - exists news, c. split; [reflexivity|]. split; [|assumption].
    intros E. auto.
  - rewrite packStep_eq. destruct (fits (c ++ [f])) eqn:E.
    + destruct (IH G news (c ++ [f])) as (news' & c' & H1 & H2 & H3).
      * intros E'. destruct c; discriminate.
      * destruct c as [|x c].
        -- rewrite (Hc eq_refl). exact I.
        -- apply (adjacent_last _ _ _ _ Hadj). intros g Hg. exact Hg.
      * exists news', c'. split; [assumption|]. split; [|assumption].
        intros E'. destruct (H2 E') as (_ & _ & H). destruct c; discriminate.
    + rewrite <- app_assoc.
      destruct (IH G (news ++ [c]) [f]) as (news' & c' & H1 & H2 & H3).
      * discriminate.
      * rewrite <- app_assoc. apply adjacent_snoc; [assumption|].
        exact E.
      * exists news', c'. split; [assumption|]. split; [|assumption].
        intros E'. destruct (H2 E') as (_ & _ & H). discriminate.
Qed.

End PackingFacts.

(** X4. For an extension group that does not fit as a whole, the
    loop goes through the files in ascending order of patch size and
    only appends: the groups it adds, read one after the other, are the
    sorted files. Every group it adds but the last was closed because the
    first file of the next group did not fit into it. *)
Theorem packExtension_consecutive_runs :
  forall encodeChat patchBuilder builder
         (processGroups : list (list PRFile)) (filesForExt : list PRFile),
    Sorted tokensLe (sortByTokens filesForExt)
    /\ Permutation (sortByTokens filesForExt) filesForExt
    /\ exists added,
         packExtension encodeChat patchBuilder builder processGroups
           filesForExt
         = processGroups ++ added
         /\ concat added = sortByTokens filesForExt
         /\ adjacent (closedOnOverflow encodeChat patchBuilder builder) added.
Proof.
  intros encodeChat patchBuilder builder G l.
  split; [apply sortByTokens_sorted|]. split; [apply sortByTokens_perm|].
  unfold packExtension.
  destruct (@pack_fold_overflow encodeChat patchBuilder builder
              (sortByTokens l) G [] []) as (news & c & H1 & H2 & H3);
    [reflexivity | exact I |].
  rewrite app_nil_r in H1.
  pose proof (@pack_fold_concat encodeChat patchBuilder builder
                (sortByTokens l) G []) as Hcat.
  rewrite H1 in Hcat |- *. cbn [fst snd app] in Hcat.
  rewrite concat_app, <- app_assoc in Hcat.
  apply app_inv_head in Hcat.
  destruct c as [|x c]; cbn [length Nat.ltb Nat.leb].
  - destruct (H2 eq_refl) as (-> & Hl & _).
    exists []. rewrite Hl in *. split; [reflexivity|]. now split.
  - exists (news ++ [x :: c]). rewrite <- app_assoc.
    split; [reflexivity|]. split; [|assumption].
    rewrite concat_app. cbn [concat]. now rewrite app_nil_r.
Qed.

(** ** Grouping by extension *)

Lemma pushAt_keys k file m :
  map fst (pushAt k file m)
  = if has (map fst m) k then map fst m else map fst m ++ [k].
Proof.
  induction m as [|[k' fs] m IH]; cbn [pushAt map fst]; [reflexivity|].
  unfold has in *. cbn [existsb].
  destruct (jstring_eqb k' k) eqn:E.
  - apply jstring_eqb_eq in E. subst. now rewrite jstring_eqb_refl.
  - cbn [map fst]. rewrite IH, jstring_eqb_sym, E. cbn [orb].
    now destruct (existsb (jstring_eqb k) (map fst m)).
Qed.

Lemma pushAt_In k file m k0 fs0 :
  NoDup (map fst m) ->
  In (k0, fs0) (pushAt k file m) ->
  (k0 <> k /\ In (k0, fs0) m)
  \/ (k0 = k /\ exists fs, In (k, fs) m /\ fs0 = fs ++ [file])
  \/ (k0 = k /\ ~ In k (map fst m) /\ fs0 = [file]).
Proof.
  induction m as [|[k' fs] m IH]; cbn [pushAt map fst]; intros Hnd.
  - intros [[= <- <-]|[]]. right. right. now repeat split.
  - inversion Hnd as [|? ? Hnot Hnd']; subst.
    destruct (jstring_eqb k' k) eqn:E.
    + apply jstring_eqb_eq in E. subst k'. intros [[= <- <-]|H].
      * right. left. split; [reflexivity|]. exists fs.
        split; [now left | reflexivity].
      * left. split; [|now right]. intros ->. apply Hnot.
        change k with (fst (k, fs0)). now apply in_map.
    + apply jstring_eqb_neq in E. intros [[= <- <-]|H].
      * left. split; [assumption | now left].
      * destruct (IH Hnd' H) as [[H1 H2]|[[H1 [fs1 [H2 H3]]]|[H1 [H2 H3]]]].
        -- left. split; [assumption | now right].
        -- right. left. split; [assumption|]. exists fs1.
           split; [now right | assumption].
        -- right. right. split; [assumption|]. split; [|assumption].
           intros [Hk|Hk]; [congruence | contradiction].
Qed.

Lemma filter_snoc {A} (p : A -> bool) l x :
  filter p (l ++ [x]) = filter p l ++ (if p x then [x] else []).
Proof. rewrite filter_app. reflexivity. Qed.

Lemma hasExtensionKey_true k f :
  hasExtensionKey k f = true <->
  exists e, extensionOf f = Some e /\ truthy e = true /\ e = k.
Proof.
  unfold hasExtensionKey. destruct (extensionOf f) as [e|].
  - rewrite andb_true_iff, jstring_eqb_eq. split.
    + intros [H1 H2]. eauto.
    + intros [e' [[= <-] [H1 H2]]]. auto.
  - split; [discriminate | intros [e [H _]]; discriminate].
Qed.

Lemma groupedUpTo_step p m f :
  groupedUpTo p m ->
  groupedUpTo (p ++ [f])
    (match extensionOf f with
     | Some e => if truthy e then pushAt e f m else m
     | None => m
     end).
Proof.
  intros (Hnd & Hent & Hkeys).
  assert (Hskip : hasExtension f = false -> groupedUpTo (p ++ [f]) m).
  { intros Hno. split; [assumption|]. split.
    - intros k fs Hin. destruct (Hent k fs Hin) as (H1 & H2 & H3).
      split; [assumption|]. split; [assumption|].
      rewrite filter_snoc.
      assert (E : hasExtensionKey k f = false).
      { unfold hasExtensionKey, hasExtension in *.
        destruct (extensionOf f); [|reflexivity]. now rewrite Hno. }
      now rewrite E, app_nil_r.
    - intros g e Hg He Ht. apply in_app_or in Hg. destruct Hg as [Hg|[<-|[]]].
      + eauto.
      + unfold hasExtension in Hno. rewrite He in Hno. congruence. }
  destruct (extensionOf f) as [e|] eqn:Ee;
    [|apply Hskip; unfold hasExtension; now rewrite Ee].
  destruct (truthy e) eqn:Et;
    [|apply Hskip; unfold hasExtension; now rewrite Ee].
  assert (Hf : hasExtensionKey e f = true).
  { apply hasExtensionKey_true. eauto. }
  split; [|split].
  - rewrite pushAt_keys. destruct (has (map fst m) e) eqn:Eh; [assumption|].
    apply NoDup_app; [assumption | repeat constructor; intros [] |].
    intros a Ha [<-|[]]. apply has_In in Ha. congruence.
  - intros k fs Hin. apply pushAt_In in Hin; [|assumption].
    destruct Hin as [[H1 H2]|[[H1 [fs1 [H2 H3]]]|[H1 [H2 H3]]]].
    + destruct (Hent k fs H2) as (G1 & G2 & G3).
      split; [assumption|]. split; [assumption|].
      rewrite filter_snoc.
      assert (E : hasExtensionKey k f = false).
      { destruct (hasExtensionKey k f) eqn:E; [|reflexivity].
        apply hasExtensionKey_true in E. destruct E as [e' [E1 [_ E2]]].
        congruence. }
      now rewrite E, app_nil_r.
    + subst k fs. destruct (Hent e fs1 H2) as (G1 & G2 & G3).
      split; [assumption|]. split; [destruct fs1; discriminate|].
      now rewrite filter_snoc, Hf, <- G3.
    + subst k fs. split; [assumption|]. split; [discriminate|].
      rewrite filter_snoc, Hf.
      assert (E : filter (hasExtensionKey e) p = []).
      { destruct (filter (hasExtensionKey e) p) as [|g rest] eqn:Eg;
          [reflexivity|].
        assert (Hg : In g (filter (hasExtensionKey e) p))
          by (rewrite Eg; now left).
        apply filter_In in Hg. destruct Hg as [Hg1 Hg2].
        apply hasExtensionKey_true in Hg2.
        destruct Hg2 as [e' [E1 [E2 E3]]]. subst e'.
        exfalso. apply H2. eauto. }
      now rewrite E.
  - intros g e' Hg He' Ht. rewrite pushAt_keys.
    apply in_app_or in Hg. destruct Hg as [Hg|[<-|[]]].
    + specialize (Hkeys g e' Hg He' Ht).
      destruct (has (map fst m) e); [assumption|].
      apply in_or_app. now left.
    + assert (e' = e) by congruence. subst e'.
      destruct (has (map fst m) e) eqn:Eh.
      * now apply has_In.
      * apply in_or_app. right. now left.
Qed.

Lemma groupedUpTo_fold l :
  forall p m,
    groupedUpTo p m ->
    groupedUpTo (p ++ l)
      (fold_left
         (fun filesByExtension file =>
            match extensionOf file with
            | Some e => if truthy e then pushAt e file filesByExtension
                        else filesByExtension
            | None => filesByExtension
            end) l m).
Proof.
  induction l as [|f l IH]; intros p m H; cbn [fold_left].
  - now rewrite app_nil_r.
  - replace (p ++ f :: l) with ((p ++ [f]) ++ l)
      by (now rewrite <- app_assoc).
    apply IH. now apply groupedUpTo_step.
Qed.

(** X5. [groupFilesByExtension] makes one group for every non-empty
    lowercased extension that occurs: the keys are distinct and not
    empty, no group is empty, and the group of a key holds exactly the
    files with that extension, in the order of the input. A file whose
    extension is empty is in no group. *)
Theorem groupFilesByExtension_partition :
  forall files : list PRFile,
    NoDup (map fst (groupFilesByExtension files))
    /\ (forall k fs,
          In (k, fs) (groupFilesByExtension files) ->
          truthy k = true /\ fs <> []
          /\ fs = filter (hasExtensionKey k) files)
    /\ (forall f,
          In f (flat (groupFilesByExtension files)) <->
          In f files /\ hasExtension f = true).
Proof.
  intros files.
  assert (H : groupedUpTo files (groupFilesByExtension files)).
  { apply (@groupedUpTo_fold files [] []). split; [constructor|].
    split; [intros k fs []| intros f e []]. }
  destruct H as (Hnd & Hent & Hkeys).
  split; [assumption|]. split; [assumption|].
  intros f. split.
  - intros Hin.
    apply (Permutation_in _ (groupFilesByExtension_flat files)) in Hin.
    now apply filter_In in Hin.
  - intros Hin. apply (Permutation_in _
      (Permutation_sym (groupFilesByExtension_flat files))).
    now apply filter_In.
Qed.

(** ** The planner as a whole *)

(** X1. When every file that passes the filter has a non-empty
    extension, the filenames of the files in the groups of
    [reviewChanges], together with those of the oversized files that are
    left out, are the filenames of the files that pass the filter, each
    as often as there; so with distinct filenames no file is in two
    groups or twice in one. *)
Theorem reviewGroups_coverage :
  forall encodeChat encode rawPatchStrategy smarterContextPatchStrategy
         builder (files : list PRFile),
    Forall (fun f => hasExtension f = true) (filter filterFile files) ->
    Permutation
      (map filename
         (concat
            (reviewGroups encodeChat encode rawPatchStrategy
               smarterContextPatchStrategy builder files))
         ++ map filename
              (exceedingLimits encodeChat
                 (buildPatchPrompt rawPatchStrategy smarterContextPatchStrategy)
                 builder
                 (patchesOutsideModelLimit encodeChat encode rawPatchStrategy
                    smarterContextPatchStrategy builder files)))
      (map filename (filter filterFile files))
    /\ (NoDup (map filename (filter filterFile files)) ->
        NoDup
          (map filename
             (concat
                (reviewGroups encodeChat encode rawPatchStrategy
                   smarterContextPatchStrategy builder files)))).
Proof.
  intros encodeChat encode raw smarter builder files H.
  pose proof (@reviewGroups_cover encodeChat encode raw smarter builder
                files H) as Hperm.
  split; [exact Hperm|]. intros Hnd.
  apply Permutation_sym in Hperm.
  apply (Permutation_NoDup Hperm) in Hnd.
  now apply NoDup_app_remove_r in Hnd.
Qed.

Lemma reviewGroups_coverage_witness :
  let files :=
    [ Scenario.changed "src/a.ts" (Scenario.addedLine 40);
      Scenario.changed "README.md" (Scenario.addedLine 10);
      Scenario.changed "lib/b.py" (Scenario.addedLine 30) ] in
  Permutation
    (map filename
       (concat
          (reviewGroups Scenario.charTokens Scenario.charCount
             Scenario.headerPatch Scenario.headerPatch getXMLReviewPrompt
             files))
       ++ map filename
            (exceedingLimits Scenario.charTokens
               (buildPatchPrompt Scenario.headerPatch Scenario.headerPatch)
               getXMLReviewPrompt
               (patchesOutsideModelLimit Scenario.charTokens
                  Scenario.charCount Scenario.headerPatch
                  Scenario.headerPatch getXMLReviewPrompt files)))
    [str "src/a.ts"; str "lib/b.py"].
Proof.
  intros files.
  apply (@reviewGroups_coverage Scenario.charTokens Scenario.charCount
           Scenario.headerPatch Scenario.headerPatch getXMLReviewPrompt files).
  vm_compute. repeat constructor.
Defined.

(** X2. Every request that [reviewChanges] sends is within the budget:
    for each group it plans, the conversation that [reviewFiles] hands to
    the completion service is the one that [constructPrompt] builds for
    the group, and that conversation passes
    [isConversationWithinLimit]. *)
Theorem reviewChanges_requests_within_limit :
  forall encodeChat encode rawPatchStrategy smarterContextPatchStrategy
         generateChatCompletion builder (files : list PRFile),
    Forall
      (fun patchGroup =>
         let patchBuilder :=
           buildPatchPrompt rawPatchStrategy smarterContextPatchStrategy in
         reviewFiles generateChatCompletion patchGroup patchBuilder builder
         = generateChatCompletion
             (constructPrompt patchGroup patchBuilder builder)
         /\ isConversationWithinLimit encodeChat
              (constructPrompt patchGroup patchBuilder builder) GROQ_MODEL
            = true)
      (reviewGroups encodeChat encode rawPatchStrategy
         smarterContextPatchStrategy builder files).
Proof.
  intros encodeChat encode raw smarter complete builder files.
  pose proof (@reviewGroups_fit encodeChat encode raw smarter builder files)
    as H.
  rewrite Forall_forall in *. intros g Hg. split; [|exact (H g Hg)].
  unfold reviewFiles, reviewDiff, constructPrompt.
  now destruct (complete _).
Qed.

(** X3. When [processWithinLimitFiles] is given at least one file and
    every file fits the budget alone, every group it makes is non-empty
    and fits the budget. *)
Theorem processWithinLimitFiles_groups_good :
  forall encodeChat patchBuilder builder (files : list PRFile),
    files <> [] ->
    Forall (fun f => fits encodeChat patchBuilder builder [f] = true) files ->
    Forall
      (fun g => g <> [] /\ fits encodeChat patchBuilder builder g = true)
      (processWithinLimitFiles encodeChat patchBuilder builder files).
Proof.
  intros encodeChat patchBuilder builder files Hne Hall.
  pose proof (@processWithinLimitFiles_good encodeChat patchBuilder builder
                files Hne Hall) as H.
  rewrite Forall_forall in *. intros g Hg. destruct (H g Hg). now split.
Qed.

Lemma processWithinLimitFiles_groups_good_witness :
  let files :=
    [ Scenario.changed "src/a.ts" (Scenario.addedLine 70000);
      Scenario.changed "src/b.ts" (Scenario.addedLine 70000);
      Scenario.changed "lib/c.py" (Scenario.addedLine 100) ] in
  Forall
    (fun g =>
       g <> []
       /\ fits Scenario.charTokens Scenario.headerPatch getXMLReviewPrompt g
          = true)
    (processWithinLimitFiles Scenario.charTokens Scenario.headerPatch
       getXMLReviewPrompt files).
Proof.
  intros files.
  apply (@processWithinLimitFiles_groups_good Scenario.charTokens
           Scenario.headerPatch getXMLReviewPrompt files).
  - discriminate.
  - repeat constructor; vm_compute; reflexivity.
Defined.

(** ** Stripping the removed lines *)

Lemma split_lines_no_LF s : Forall (fun line => ~ In LF line) (split LF s).
Proof.
  induction s as [|c s IH]; cbn [split].
  - constructor; [intros []|constructor].
  - destruct (Ascii.eqb c LF) eqn:E.
    + constructor; [intros []|exact IH].
    + destruct (split LF s) as [|line rest] eqn:Es.
      * constructor; [|constructor]. intros [H|[]]. subst c.
        now rewrite Ascii.eqb_refl in E.
      * inversion IH as [|? ? Hline Hrest]; subst.
        constructor; [|exact Hrest]. intros [H|H]; [|now apply Hline].
        subst c. now rewrite Ascii.eqb_refl in E.
Qed.

Lemma Forall_filter_keep {A} (P : A -> Prop) (p : A -> bool) l :
  Forall P l -> Forall P (filter p l).
Proof.
  intros H. induction H as [|a l Ha Hl IH]; [constructor|].
  cbn [filter]. destruct (p a); [constructor|]; assumption.
Qed.

Lemma stripped_lines (s : jstring) :
  let kept :=
    filter (fun line => negb (startsWith line (str "-"))) (split LF s) in
  split LF (join NL kept) = match kept with [] => [[]] | _ :: _ => kept end.
Proof.
  intros kept.
  destruct kept as [|l0 rest] eqn:E; [reflexivity|].
  apply split_join_lines; [discriminate|].
  rewrite <- E. apply Forall_filter_keep. apply split_lines_no_LF.
Qed.

(** X6. [stripRemovedLines] changes the patch only. The lines of the new
    patch are the lines of the old patch that do not start with a minus
    sign, in their order (one empty line when none is left), so no line
    of the new patch starts with a minus sign; and stripping a second
    time changes nothing. *)
Theorem stripRemovedLines_lines :
  forall originalFile : PRFile,
    let stripped := stripRemovedLines originalFile in
    let kept :=
      filter (fun line => negb (startsWith line (str "-")))
        (split LF (patch originalFile)) in
    filename stripped = filename originalFile
    /\ old_contents stripped = old_contents originalFile
    /\ current_contents stripped = current_contents originalFile
    /\ patchTokenLength stripped = patchTokenLength originalFile
    /\ split LF (patch stripped)
       = match kept with [] => [[]] | _ :: _ => kept end
    /\ Forall (fun line => startsWith line (str "-") = false)
         (split LF (patch stripped))
    /\ stripRemovedLines stripped = stripped.
Proof.
  intros f stripped kept.
  assert (Hlines : split LF (patch stripped)
                   = match kept with [] => [[]] | _ :: _ => kept end).
  { apply stripped_lines. }
  assert (Hkept : Forall (fun line => startsWith line (str "-") = false) kept).
  { apply Forall_forall. intros line Hin. apply filter_In in Hin.
    destruct Hin as [_ Hin]. now apply negb_true_iff in Hin. }
  repeat (split; [reflexivity|]).
  split; [exact Hlines|]. split.
  - rewrite Hlines. destruct kept; [|exact Hkept].
    constructor; [reflexivity|constructor].
  - assert (Hpatch : patch (stripRemovedLines stripped) = patch stripped).
    { change (patch (stripRemovedLines stripped))
        with (join NL
                (filter (fun line => negb (startsWith line (str "-")))
                   (split LF (patch stripped)))).
      rewrite Hlines. change (patch stripped) with (join NL kept).
      destruct kept as [|l0 rest] eqn:E; [reflexivity|].
      rewrite <- E. unfold kept. now rewrite filter_idem. }
    change (stripRemovedLines stripped)
      with {| filename := filename stripped;
              patch := patch (stripRemovedLines stripped);
              old_contents := old_contents stripped;
              current_contents := current_contents stripped;
              patchTokenLength := patchTokenLength stripped |}.
    rewrite Hpatch. reflexivity.
Qed.

Lemma processOutsideLimitFiles_origin
    encodeChat patchBuilder builder (files : list PRFile) g f :
  In g (processOutsideLimitFiles encodeChat patchBuilder builder files) ->
  In f g ->
  exists f0, In f0 files /\ f = stripRemovedLines f0.
Proof.
  intros Hg Hf. unfold processOutsideLimitFiles in Hg.
  destruct files as [|f0 files0]; [destruct Hg|].
  cbv beta iota zeta in Hg.
  remember (f0 :: files0) as input eqn:Ei. clear Ei.
  assert (Hin : In f (map stripRemovedLines input)).
  { destruct (fits encodeChat patchBuilder builder
                (map stripRemovedLines input)).
    - destruct Hg as [Hg|[]]. now subst g.
    - apply (@processWithinLimitFiles_incl encodeChat patchBuilder builder
               _ g f) in Hg; [|exact Hf].
      apply filter_In in Hg. tauto. }
  apply in_map_iff in Hin. destruct Hin as [x [Hx Hin]]. eauto.
Qed.

(** X7. [processOutsideLimitFiles] reviews stripped files only: every
    file in one of its groups is [stripRemovedLines] of an input file.
    Without input there is no group; when the stripped files fit the
    budget together they are the one group, in the order of the input.
    The files it leaves out are stripped input files that do not fit the
    budget alone. *)
Theorem processOutsideLimitFiles_stripped :
  forall encodeChat patchBuilder builder (files : list PRFile),
    (forall g f,
        In g (processOutsideLimitFiles encodeChat patchBuilder builder files) ->
        In f g ->
        exists f0, In f0 files /\ f = stripRemovedLines f0)
    /\ (files = [] ->
        processOutsideLimitFiles encodeChat patchBuilder builder files = [])
    /\ (files <> [] ->
        fits encodeChat patchBuilder builder (map stripRemovedLines files)
        = true ->
        processOutsideLimitFiles encodeChat patchBuilder builder files
        = [map stripRemovedLines files])
    /\ (forall f,
        In f (exceedingLimits encodeChat patchBuilder builder files) ->
        fits encodeChat patchBuilder builder [f] = false
        /\ exists f0, In f0 files /\ f = stripRemovedLines f0).
Proof.
  intros encodeChat patchBuilder builder files.
  split; [|split; [|split]].
  - intros g f. apply processOutsideLimitFiles_origin.
  - intros ->. reflexivity.
  - intros Hne Hfit. unfold processOutsideLimitFiles.
    destruct files as [|f0 files0]; [congruence|].
    cbv beta iota zeta. now rewrite Hfit.
  - intros f Hf. unfold exceedingLimits in Hf.
    destruct files as [|f0 files0]; [destruct Hf|].
    cbv beta iota zeta in Hf.
    remember (f0 :: files0) as input eqn:Ei. clear Ei.
    destruct (fits encodeChat patchBuilder builder
                (map stripRemovedLines input)); [destruct Hf|].
    apply filter_In in Hf. destruct Hf as [Hin Hno].
    apply negb_true_iff in Hno. split; [exact Hno|].
    apply in_map_iff in Hin. destruct Hin as [x [Hx Hin]]. eauto.
Qed.

(** ** Numbering the lines of a diff *)

Lemma numberLines_ok_wellFormed n lines out :
  numberLines n lines = Ok out -> Forall wellFormedLine lines.
Proof.
  revert n out. induction lines as [|line rest IH]; intros n out H.
  - constructor.
  - cbn [numberLines] in H.
    destruct (startsWith line (str "@@")) eqn:E.
    + destruct (hunkStart line) as [start|e] eqn:Eh; [|discriminate].
      cbn [bindE] in H.
      destruct (numberLines start rest) as [o|e] eqn:Er; [|discriminate].
      constructor; [|now apply (IH start o)].
      intros _. now exists start.
    + assert (Hw : wellFormedLine line).
      { intros Hs. congruence. }
      destruct (negb (startsWith line (str "-"))).
      * destruct (numberLines (n + 1) rest) as [o|e] eqn:Er; [|discriminate].
        constructor; [exact Hw|now apply (IH (n + 1)%N o)].
      * constructor; [exact Hw|now apply (IH n out)].
Qed.

Lemma header_not_removed line :
  startsWith line (str "@@") = true -> startsWith line (str "-") = false.
Proof.
  destruct line as [|c line]; [reflexivity|].
  change (str "@@") with ["@"%char; "@"%char].
  change (str "-") with ["-"%char].
  cbn [startsWith]. intros H. apply andb_true_iff in H.
  destruct H as [H _]. apply Ascii.eqb_eq in H. subst c. reflexivity.
Qed.

Lemma numberLines_length n lines out :
  numberLines n lines = Ok out ->
  length out = length (filter (fun l => negb (isRemoved l)) lines).
Proof.
  revert n out. induction lines as [|line rest IH]; intros n out H.
  - injection H as <-. reflexivity.
  - cbn [numberLines] in H. cbn [filter].
    change (isRemoved line) with (startsWith line (str "-")).
    destruct (startsWith line (str "@@")) eqn:E.
    + assert (Hm : startsWith line (str "-") = false).
      { now apply header_not_removed. }
      rewrite Hm. cbn [negb length].
      destruct (hunkStart line) as [start|e]; [|discriminate].
      cbn [bindE] in H.
      destruct (numberLines start rest) as [o|e] eqn:Er; [|discriminate].
      injection H as <-. cbn [length]. f_equal. now apply (IH start).
    + destruct (negb (startsWith line (str "-"))).
      * destruct (numberLines (n + 1) rest) as [o|e] eqn:Er; [|discriminate].
        injection H as <-. cbn [length]. f_equal. now apply (IH (n + 1)%N).
      * now apply (IH n).
Qed.

(** X8. [assignLineNumbers] returns a text exactly when every line of the
    diff that starts with two at-signs holds a chunk header from which
    the start line can be read; otherwise reading the failed match
    throws. When it returns, the text joins one output line for every
    line of the diff that does not start with a minus sign. *)
Theorem assignLineNumbers_returns_iff :
  forall diff : jstring,
    ((exists out, assignLineNumbers diff = Ok out)
     <-> Forall wellFormedLine (split LF diff))
    /\ (forall out,
           assignLineNumbers diff = Ok out ->
           exists lineNumbers,
             out = join NL lineNumbers
             /\ length lineNumbers
                = length (filter (fun line => negb (startsWith line (str "-")))
                            (split LF diff))).
Proof.
  intros diff. unfold assignLineNumbers. split; [split|].
  - intros [out H].
    destruct (numberLines 0 (split LF diff)) as [o|e] eqn:E; [|discriminate].
    now apply (numberLines_ok_wellFormed _ _ E).
  - intros H. destruct (numberLines_total 0%N H) as [o ->].
    cbn [bindE]. eauto.
  - intros out H.
    destruct (numberLines 0 (split LF diff)) as [o|e] eqn:E; [|discriminate].
    cbn [bindE] in H. injection H as <-. exists o. split; [reflexivity|].
    exact (numberLines_length _ _ E).
Qed.

(** X9. In a diff without a line that starts with two at-signs, the
    lines that do not start with a minus sign are numbered from 0 on, in
    their order, and the lines that start with a minus sign are left
    out. *)
Theorem assignLineNumbers_without_header :
  forall diff : jstring,
    Forall (fun line => startsWith line (str "@@") = false) (split LF diff) ->
    assignLineNumbers diff
    = Ok (join NL
            (numbered 0
               (filter (fun line => negb (startsWith line (str "-")))
                  (split LF diff)))).
Proof.
  intros diff H. unfold assignLineNumbers.
  destruct (numberLines_body 0%N H) as [-> _]. reflexivity.
Qed.

Lemma assignLineNumbers_without_header_witness :
  assignLineNumbers (join NL [str " a"; str "-b"; str "+c"])
  = Ok (join NL [str "0:  a"; str "1: +c"]).
Proof.
  apply (@assignLineNumbers_without_header
           (join NL [str " a"; str "-b"; str "+c"])).
  vm_compute. repeat constructor.
Defined.

(** ** The issue link *)

Lemma safeNameChar_linkChar c : safeNameChar c = true -> linkChar c = true.
Proof.
  destruct c as [[] [] [] [] [] [] [] []]; vm_compute; congruence.
Qed.

Lemma validName_linkChar name :
  validName name = true -> forallb linkChar name = true.
Proof.
  unfold validName. intros H. apply andb_true_iff in H. destruct H as [_ H].
  rewrite forallb_forall in *. intros c Hc.
  apply safeNameChar_linkChar. now apply H.
Qed.

(** Induction on a text, one code unit or one pair at a time. *)
Lemma wstring_ind2 (P : list N -> Prop) :
  P [] ->
  (forall u, P [u]) ->
  (forall u v s, P s -> P (v :: s) -> P (u :: v :: s)) ->
  forall s, P s.
Proof.
  intros H0 H1 H2 s.
  assert (H : P s /\ forall u, P (u :: s)).
  { induction s as [|v s [IH IH']]; [now split|].
    split; [apply IH'|]. intros u. apply H2; [exact IH|apply IH']. }
  apply H.
Qed.

Lemma codePoints_plain u rest :
  Wide.isLowSurrogate u = false ->
  Wide.isHighSurrogate u = false ->
  Wide.codePoints (u :: rest)
  = (points <-! Wide.codePoints rest ;; Ok (u :: points)).
Proof. intros Hl Hh. cbn [Wide.codePoints]. now rewrite Hl, Hh. Qed.

Lemma isWellFormed_plain u rest :
  Wide.isLowSurrogate u = false ->
  Wide.isHighSurrogate u = false ->
  Wide.isWellFormed (u :: rest) = Wide.isWellFormed rest.
Proof. intros Hl Hh. cbn [Wide.isWellFormed]. now rewrite Hl, Hh. Qed.

Lemma codePoints_isWellFormed s :
  (exists points, Wide.codePoints s = Ok points)
  <-> Wide.isWellFormed s = true.
Proof.
  pattern s. apply wstring_ind2; clear s; [| intros u | intros u v s IH IHv].
  - cbn. split; eauto.
  - cbn. destruct (Wide.isLowSurrogate u).
    + split; [intros [? H]; discriminate H|intros H; discriminate H].
    + destruct (Wide.isHighSurrogate u).
      * split; [intros [? H]; discriminate H|intros H; discriminate H].
      * split; eauto.
  - destruct (Wide.isLowSurrogate u) eqn:El.
    + cbn [Wide.codePoints Wide.isWellFormed]. rewrite El.
      split; [intros [? H]; discriminate H|intros H; discriminate H].
    + destruct (Wide.isHighSurrogate u) eqn:Eh.
      * cbn [Wide.codePoints Wide.isWellFormed]. rewrite El, Eh.
        destruct (Wide.isLowSurrogate v); cbn [andb].
        -- rewrite <- IH. split.
           ++ intros [points H].
              destruct (Wide.codePoints s);
                [eauto|discriminate H].
           ++ intros [points ->]. cbn. eauto.
        -- split; [intros [? H]; discriminate H|intros H; discriminate H].
      * rewrite (@codePoints_plain u (v :: s) El Eh).
        rewrite (@isWellFormed_plain u (v :: s) El Eh).
        rewrite <- IHv. split.
        -- intros [points H].
           destruct (Wide.codePoints (v :: s));
             [eauto|discriminate H].
        -- intros [points ->]. cbn. eauto.
Qed.

Lemma encodeURIComponent_isWellFormed s :
  (exists encoded, Wide.encodeURIComponent s = Ok encoded)
  <-> Wide.isWellFormed s = true.
Proof.
  rewrite <- codePoints_isWellFormed. unfold Wide.encodeURIComponent.
  split.
  - intros [encoded H]. destruct (Wide.codePoints s); [eauto|discriminate].
  - intros [points ->]. cbn. eauto.
Qed.

Lemma encodeURIComponent_raises s :
  Wide.isWellFormed s = false ->
  exists error, Wide.encodeURIComponent s = Raise error.
Proof.
  intros H. destruct (Wide.encodeURIComponent s) as [encoded|error] eqn:E.
  - assert (Hw : Wide.isWellFormed s = true)
      by (apply encodeURIComponent_isWellFormed; eauto).
    congruence.
  - eauto.
Qed.

Lemma isWellFormed_line_feed_after s :
  Wide.isWellFormed (s ++ Wide.widen NL) = Wide.isWellFormed s.
Proof.
  pattern s. apply wstring_ind2; clear s; [| intros u | intros u v s IH IHv].
  - reflexivity.
  - cbn. destruct (Wide.isLowSurrogate u); [reflexivity|].
    destruct (Wide.isHighSurrogate u); reflexivity.
  - change ((u :: v :: s) ++ Wide.widen NL)
      with (u :: (v :: s) ++ Wide.widen NL).
    destruct (Wide.isLowSurrogate u) eqn:El.
    + cbn [Wide.isWellFormed]. now rewrite El.
    + destruct (Wide.isHighSurrogate u) eqn:Eh.
      * cbn [Wide.isWellFormed app]. rewrite El, Eh. now rewrite IH.
      * rewrite (@isWellFormed_plain u _ El Eh).
        now rewrite (@isWellFormed_plain u (v :: s) El Eh).
Qed.

Lemma isWellFormed_between_line_feeds s :
  Wide.isWellFormed (Wide.widen NL ++ s ++ Wide.widen NL)
  = Wide.isWellFormed s.
Proof.
  change (Wide.widen NL ++ s ++ Wide.widen NL)
    with (10%N :: (s ++ Wide.widen NL)).
  cbn [Wide.isWellFormed].
  change (Wide.isLowSurrogate 10) with false.
  change (Wide.isHighSurrogate 10) with false.
  apply isWellFormed_line_feed_after.
Qed.

Lemma encodeURIComponent_between_line_feeds s :
  Wide.isWellFormed s = false ->
  exists error,
    Wide.encodeURIComponent (Wide.widen NL ++ s ++ Wide.widen NL)
    = Raise error.
Proof.
  intros H. apply encodeURIComponent_raises.
  now rewrite isWellFormed_between_line_feeds.
Qed.

(** The link for an owner and a repository name that pass the checks:
    the three parts are encoded in turn, and the first that throws gives
    the placeholder link. *)
Lemma wide_generateGithubIssueUrl_valid
    owner repoName title body codeblock :
  validName owner = true ->
  validName repoName = true ->
  Wide.generateGithubIssueUrl owner repoName title body codeblock
  = match
      (let sanitizedCodeBlock :=
         match codeblock with
         | Some c => if Wide.truthy c then Wide.substring0 10000 c else []
         | None => []
         end in
       encodedTitle <-!
         Wide.encodeURIComponent (Wide.substring0 200 title) ;;
       encodedBody <-!
         Wide.encodeURIComponent (Wide.substring0 5000 body) ;;
       encodedCodeBlock <-!
         (if Wide.truthy sanitizedCodeBlock
          then Wide.encodeURIComponent
                 (Wide.widen NL ++ sanitizedCodeBlock ++ Wide.widen NL)
          else Ok []) ;;
       let base :=
         str "https://github.com/" ++ owner ++ str "/" ++ repoName
           ++ str "/issues/new?title=" ++ encodedTitle
           ++ str "&body=" ++ encodedBody in
       Ok (str "[Create Issue]("
             ++ (if 2048 <? length (base ++ encodedCodeBlock)
                 then base else base ++ encodedCodeBlock)
             ++ str ")"))
    with
    | Ok link => link
    | Raise error => issuePlaceholder
    end.
Proof.
  intros Ho Hr. unfold Wide.generateGithubIssueUrl.
  unfold validName in Ho, Hr.
  rewrite !test_safeName, Ho, Hr.
  apply andb_true_iff in Ho. destruct Ho as [-> _].
  apply andb_true_iff in Hr. destruct Hr as [-> _].
  reflexivity.
Qed.

Lemma wide_generateGithubIssueUrl_placeholder
    owner repoName title body codeblock :
  validName owner && validName repoName = false ->
  Wide.generateGithubIssueUrl owner repoName title body codeblock
  = issuePlaceholder.
Proof.
  intros H. unfold Wide.generateGithubIssueUrl.
  destruct (negb (truthy owner) || negb (truthy repoName)); [reflexivity|].
  rewrite !test_safeName. unfold validName in H.
  apply andb_false_iff in H. destruct H as [-> | ->]; simpl; [reflexivity|].
  now rewrite orb_true_r.
Qed.

Lemma link_not_placeholder url :
  str "[Create Issue](" ++ str "https://github.com/" ++ url
  <> issuePlaceholder.
Proof.
  intros H. apply (f_equal (fun s => nth_error s 33)) in H.
  discriminate H.
Qed.

(** X10. [generateGithubIssueUrl] gives the placeholder link to
    github.com in two cases only. One: the owner or the repository name
    is empty or holds a code unit other than a letter, a digit, [-], [_]
    and [.]. Two: the first 200 code units of the title, the first 5000
    of the body or the first 10000 of the code block hold half a
    character without its other half, on which [encodeURIComponent]
    throws and the [catch] answers. *)
Theorem generateGithubIssueUrl_placeholder_iff :
  forall (owner repoName : jstring) (title body : Wide.wstring)
         (codeblock : option Wide.wstring),
    Wide.generateGithubIssueUrl owner repoName title body codeblock
    = issuePlaceholder
    <-> validName owner && validName repoName = false
        \/ Wide.isWellFormed (Wide.substring0 200 title) = false
        \/ Wide.isWellFormed (Wide.substring0 5000 body) = false
        \/ (exists c,
              codeblock = Some c
              /\ Wide.isWellFormed (Wide.substring0 10000 c) = false).
Proof.
  intros owner repoName title body codeblock.
  destruct (validName owner && validName repoName) eqn:Enames.
  2:{ split; [now left|]. intros _.
      now apply wide_generateGithubIssueUrl_placeholder. }
  apply andb_true_iff in Enames. destruct Enames as [Ho Hr].
  rewrite (@wide_generateGithubIssueUrl_valid owner repoName title body
             codeblock Ho Hr).
  cbv zeta.
  destruct (Wide.isWellFormed (Wide.substring0 200 title)) eqn:Et.
  2:{ destruct (encodeURIComponent_raises _ Et) as [error ->].
      cbn [bindE]. split; [intros _|reflexivity]. right. now left. }
  destruct (Wide.isWellFormed (Wide.substring0 5000 body)) eqn:Eb.
  2:{ destruct (encodeURIComponent_raises _ Eb) as [error ->].
      destruct (Wide.encodeURIComponent (Wide.substring0 200 title));
        cbn [bindE]; (split; [intros _|reflexivity]); right; right; now left. }
  apply encodeURIComponent_isWellFormed in Et, Eb.
  destruct Et as [encodedTitle ->], Eb as [encodedBody ->]. cbn [bindE].
  set (sanitized := match codeblock with Some c => _ | None => _ end).
  assert (Hs : Wide.isWellFormed sanitized = false
               <-> exists c, codeblock = Some c
                   /\ Wide.isWellFormed (Wide.substring0 10000 c) = false).
  { unfold sanitized. destruct codeblock as [c|].
    - destruct c as [|u c].
      + cbn. split; [discriminate|]. intros [c [H H']].
        injection H as <-. discriminate H'.
      + cbn [Wide.truthy]. split; [eauto|].
        intros [c' [H H']]. now injection H as <-.
    - cbn. split; [discriminate|]. intros [c [H _]]. discriminate H. }
  destruct (Wide.isWellFormed sanitized) eqn:Ec.
  - assert (Hlink : forall tail,
               str "[Create Issue]("
                 ++ (if 2048 <?
                        length
                          ((str "https://github.com/" ++ owner ++ str "/"
                              ++ repoName ++ str "/issues/new?title="
                              ++ encodedTitle ++ str "&body=" ++ encodedBody)
                             ++ tail)
                     then str "https://github.com/" ++ owner ++ str "/"
                            ++ repoName ++ str "/issues/new?title="
                            ++ encodedTitle ++ str "&body=" ++ encodedBody
                     else (str "https://github.com/" ++ owner ++ str "/"
                             ++ repoName ++ str "/issues/new?title="
                             ++ encodedTitle ++ str "&body=" ++ encodedBody)
                            ++ tail)
                 ++ str ")"
               <> issuePlaceholder).
    { intros tail. destruct (2048 <? _); rewrite <- !app_assoc;
        apply link_not_placeholder. }
    split.
    + intros H. exfalso. revert H.
      destruct (Wide.truthy sanitized); [|apply Hlink].
      rewrite <- isWellFormed_between_line_feeds in Ec.
      apply encodeURIComponent_isWellFormed in Ec.
      destruct Ec as [encoded ->]. cbn [bindE]. apply Hlink.
    + intros [H | [H | [H | H]]]; try discriminate H.
      apply Hs in H. discriminate H.
  - assert (Ht : Wide.truthy sanitized = true).
    { destruct sanitized; [discriminate Ec|reflexivity]. }
    rewrite Ht.
    destruct (encodeURIComponent_between_line_feeds _ Ec) as [error ->].
    cbn [bindE]. split; [intros _|reflexivity].
    right. right. right. now apply Hs.
Qed.

Lemma hexDigit_linkChar n : n < 16 -> linkChar (hexDigit n) = true.
Proof.
  intros H. do 16 (destruct n as [|n]; [reflexivity|]). lia.
Qed.

Lemma percent_linkChar byte :
  byte < 256 -> forallb linkChar (percent byte) = true.
Proof.
  intros H. unfold percent. cbn [forallb].
  rewrite !hexDigit_linkChar; [reflexivity| |].
  - apply Nat.mod_upper_bound. lia.
  - apply Nat.Div0.div_lt_upper_bound. lia.
Qed.

Lemma utf8_bytes point :
  (point < 1114112)%N -> Forall (fun byte => (byte < 256)%N) (Wide.utf8 point).
Proof.
  intros H. unfold Wide.utf8.
  assert (Hm : forall n, (128 + n mod 64 < 256)%N).
  { intros n. pose proof (N.mod_upper_bound n 64). lia. }
  destruct (N.ltb_spec point 128); [repeat constructor; lia|].
  destruct (N.ltb_spec point 2048).
  { repeat constructor; [|apply Hm].
    assert (point / 64 < 32)%N by (apply N.Div0.div_lt_upper_bound; lia).
    lia. }
  destruct (N.ltb_spec point 65536).
  { repeat constructor; [|apply Hm|apply Hm].
    assert (point / 4096 < 16)%N by (apply N.Div0.div_lt_upper_bound; lia).
    lia. }
  repeat constructor; [|apply Hm|apply Hm|apply Hm].
  assert (point / 262144 < 5)%N by (apply N.Div0.div_lt_upper_bound; lia).
  lia.
Qed.

Lemma encodePoint_linkChar point :
  (point < 1114112)%N -> forallb linkChar (Wide.encodePoint point) = true.
Proof.
  intros H. unfold Wide.encodePoint.
  destruct ((point <? 128)%N && uriUnreserved (ascii_of_N point)) eqn:E.
  - apply andb_true_iff in E. destruct E as [_ E].
    cbn [forallb]. unfold linkChar. now rewrite E.
  - pose proof (@utf8_bytes point H) as Hb. clear E.
    induction Hb as [|byte bytes Hbyte _ IH]; [reflexivity|].
    cbn [flat_map]. rewrite forallb_app, IH, andb_true_r.
    apply percent_linkChar. lia.
Qed.

Lemma codePoints_bound s :
  forallb Wide.isCodeUnit s = true ->
  forall points,
    Wide.codePoints s = Ok points ->
    Forall (fun point => (point < 1114112)%N) points.
Proof.
  pattern s. apply wstring_ind2; clear s; [| intros u | intros u v s IH IHv].
  - intros _ points H. injection H as <-. constructor.
  - intros Hu points H. cbn in Hu, H.
    destruct (Wide.isLowSurrogate u); [discriminate H|].
    destruct (Wide.isHighSurrogate u); [discriminate H|].
    injection H as <-. constructor; [|constructor].
    rewrite andb_true_r in Hu. apply N.ltb_lt in Hu. lia.
  - intros Hu points H.
    cbn [forallb] in Hu. apply andb_true_iff in Hu. destruct Hu as [Hu Hv].
    destruct (Wide.isLowSurrogate u) eqn:El.
    { cbn [Wide.codePoints] in H. rewrite El in H. discriminate H. }
    destruct (Wide.isHighSurrogate u) eqn:Eh.
    + cbn [Wide.codePoints] in H. rewrite El, Eh in H.
      destruct (Wide.isLowSurrogate v) eqn:Ev; [|discriminate H].
      apply andb_true_iff in Hv. destruct Hv as [_ Hs].
      destruct (Wide.codePoints s) as [rest|] eqn:Es; [|discriminate H].
      cbn [bindE] in H. injection H as <-.
      constructor; [|now apply IH].
      unfold Wide.isHighSurrogate in Eh. unfold Wide.isLowSurrogate in Ev.
      apply andb_true_iff in Eh, Ev.
      destruct Eh as [Eh1 Eh2], Ev as [Ev1 Ev2].
      apply N.leb_le in Eh1, Eh2, Ev1, Ev2. lia.
    + rewrite (@codePoints_plain u (v :: s) El Eh) in H.
      destruct (Wide.codePoints (v :: s)) as [rest|] eqn:Es;
        [|discriminate H].
      cbn [bindE] in H. injection H as <-.
      constructor; [|now apply IHv].
      apply N.ltb_lt in Hu. lia.
Qed.

Lemma wide_encodeURIComponent_linkChar s encoded :
  forallb Wide.isCodeUnit s = true ->
  Wide.encodeURIComponent s = Ok encoded ->
  forallb linkChar encoded = true.
Proof.
  intros Hs H. unfold Wide.encodeURIComponent in H.
  destruct (Wide.codePoints s) as [points|] eqn:E; [|discriminate H].
  cbn [bindE] in H. injection H as <-.
  pose proof (@codePoints_bound s Hs points E) as Hp. clear E.
  induction Hp as [|point rest Hpoint _ IH]; [reflexivity|].
  cbn [flat_map]. rewrite forallb_app, IH, andb_true_r.
  now apply encodePoint_linkChar.
Qed.

Lemma isCodeUnit_firstn n s :
  forallb Wide.isCodeUnit s = true ->
  forallb Wide.isCodeUnit (firstn n s) = true.
Proof.
  revert n. induction s as [|u s IH]; intros [|n] H; try reflexivity.
  cbn [firstn forallb] in *. apply andb_true_iff in H. destruct H as [-> H].
  now apply IH.
Qed.

(** X11. For an owner and a repository name that pass the checks, and
    a title, a body and a code block whose kept code units hold no half
    character alone, the link of [generateGithubIssueUrl] points to the
    new-issue page of the repository, with the first 200 code units of
    the title and the first 5000 of the body percent-encoded. The
    address holds only unreserved characters, percent signs and the
    separators of the address. The encoded code block (its first 10000
    code units between two line feeds) follows the body only when the
    code block is not empty and the whole address is at most 2048 code
    units long. *)
Theorem generateGithubIssueUrl_link :
  forall (owner repoName : jstring) (title body : Wide.wstring)
         (codeblock : option Wide.wstring),
    validName owner = true ->
    validName repoName = true ->
    forallb Wide.isCodeUnit title = true ->
    forallb Wide.isCodeUnit body = true ->
    Wide.isWellFormed (Wide.substring0 200 title) = true ->
    Wide.isWellFormed (Wide.substring0 5000 body) = true ->
    (forall c,
        codeblock = Some c ->
        forallb Wide.isCodeUnit c = true
        /\ Wide.isWellFormed (Wide.substring0 10000 c) = true) ->
    exists encodedTitle encodedBody tail,
      Wide.encodeURIComponent (Wide.substring0 200 title) = Ok encodedTitle
      /\ Wide.encodeURIComponent (Wide.substring0 5000 body) = Ok encodedBody
      /\ let url :=
           str "https://github.com/" ++ owner ++ str "/" ++ repoName
             ++ str "/issues/new?title=" ++ encodedTitle
             ++ str "&body=" ++ encodedBody ++ tail in
         Wide.generateGithubIssueUrl owner repoName title body codeblock
         = str "[Create Issue](" ++ url ++ str ")"
         /\ forallb linkChar url = true
         /\ (tail = []
             \/ exists c,
                  codeblock = Some c
                  /\ c <> []
                  /\ Wide.encodeURIComponent
                       (Wide.widen NL ++ Wide.substring0 10000 c
                          ++ Wide.widen NL)
                     = Ok tail
                  /\ length url <= 2048).
Proof.
  intros owner repoName title body codeblock Ho Hr Htitle Hbody Et Eb Hcode.
  rewrite (@wide_generateGithubIssueUrl_valid owner repoName title body
             codeblock Ho Hr).
  cbv zeta.
  apply encodeURIComponent_isWellFormed in Et, Eb.
  destruct Et as [encodedTitle Et], Eb as [encodedBody Eb].
  exists encodedTitle, encodedBody. rewrite Et, Eb. cbn [bindE].
  assert (Hbase : forall tail,
             forallb linkChar tail = true ->
             forallb linkChar
               (str "https://github.com/" ++ owner ++ str "/" ++ repoName
                  ++ str "/issues/new?title=" ++ encodedTitle
                  ++ str "&body=" ++ encodedBody ++ tail) = true).
  { intros tail Ht. rewrite !forallb_app, Ht.
    rewrite (@validName_linkChar owner Ho), (@validName_linkChar repoName Hr).
    rewrite (@wide_encodeURIComponent_linkChar _ encodedTitle
               (isCodeUnit_firstn _ _ Htitle) Et).
    rewrite (@wide_encodeURIComponent_linkChar _ encodedBody
               (isCodeUnit_firstn _ _ Hbody) Eb).
    reflexivity. }
  assert (Hnone :
            exists tail,
              str "[Create Issue]("
                ++ (if 2048 <?
                       length
                         ((str "https://github.com/" ++ owner ++ str "/"
                             ++ repoName ++ str "/issues/new?title="
                             ++ encodedTitle ++ str "&body=" ++ encodedBody)
                            ++ [])
                    then str "https://github.com/" ++ owner ++ str "/"
                           ++ repoName ++ str "/issues/new?title="
                           ++ encodedTitle ++ str "&body=" ++ encodedBody
                    else (str "https://github.com/" ++ owner ++ str "/"
                            ++ repoName ++ str "/issues/new?title="
                            ++ encodedTitle ++ str "&body=" ++ encodedBody)
                           ++ [])
                ++ str ")"
              = str "[Create Issue]("
                  ++ (str "https://github.com/" ++ owner ++ str "/"
                        ++ repoName ++ str "/issues/new?title="
                        ++ encodedTitle ++ str "&body=" ++ encodedBody
                        ++ tail)
                  ++ str ")"
              /\ forallb linkChar
                   (str "https://github.com/" ++ owner ++ str "/"
                      ++ repoName ++ str "/issues/new?title="
                      ++ encodedTitle ++ str "&body=" ++ encodedBody
                      ++ tail) = true
              /\ tail = []).
  { exists []. split; [|split; [apply Hbase; reflexivity|reflexivity]].
    rewrite !app_nil_r. destruct (2048 <? _); rewrite <- !app_assoc;
      reflexivity. }
  destruct Hnone as [tail0 [Hn1 [Hn2 Hn3]]].
  destruct codeblock as [[|u c]|].
  - exists tail0. cbn [Wide.truthy bindE].
    split; [reflexivity|]. split; [reflexivity|]. cbv zeta.
    split; [exact Hn1|]. split; [exact Hn2|left; exact Hn3].
  - clear tail0 Hn1 Hn2 Hn3.
    destruct (Hcode (u :: c) eq_refl) as [Hunits Ec].
    cbn [Wide.truthy].
    assert (Ht : Wide.truthy (Wide.substring0 10000 (u :: c)) = true)
      by reflexivity.
    rewrite Ht.
    pose proof Ec as Ec'.
    rewrite <- isWellFormed_between_line_feeds in Ec'.
    apply encodeURIComponent_isWellFormed in Ec'.
    destruct Ec' as [encoded Ee]. rewrite Ee. cbn [bindE].
    assert (Henc : forallb linkChar encoded = true).
    { apply (@wide_encodeURIComponent_linkChar
               (Wide.widen NL ++ Wide.substring0 10000 (u :: c)
                  ++ Wide.widen NL) encoded); [|exact Ee].
      rewrite !forallb_app.
      rewrite (isCodeUnit_firstn (N.to_nat 10000) _ Hunits
               : forallb Wide.isCodeUnit (Wide.substring0 10000 (u :: c))
                 = true).
      reflexivity. }
    destruct (2048 <? length _) eqn:Elen.
    + exists []. split; [reflexivity|]. split; [reflexivity|]. cbv zeta.
      split; [rewrite app_nil_r; reflexivity|].
      split; [apply Hbase; reflexivity|left; reflexivity].
    + apply Nat.ltb_ge in Elen. rewrite <- !app_assoc in Elen.
      exists encoded. split; [reflexivity|]. split; [reflexivity|]. cbv zeta.
      split; [rewrite <- !app_assoc; reflexivity|].
      split; [apply Hbase; exact Henc|].
      right. exists (u :: c). split; [reflexivity|].
      split; [discriminate|]. split; [exact Ee|exact Elen].
  - exists tail0. cbn [Wide.truthy bindE].
    split; [reflexivity|]. split; [reflexivity|]. cbv zeta.
    split; [exact Hn1|]. split; [exact Hn2|left; exact Hn3].
Qed.

Lemma generateGithubIssueUrl_link_witness :
  exists encodedTitle encodedBody tail,
    Wide.encodeURIComponent
      (Wide.substring0 200 (Wide.widen (str "Hi ") ++ [55357; 56832]%N))
    = Ok encodedTitle
    /\ Wide.encodeURIComponent
         (Wide.substring0 5000 (Wide.widen (str "Guard it.")))
       = Ok encodedBody
    /\ let url :=
         str "https://github.com/" ++ str "acme" ++ str "/" ++ str "api"
           ++ str "/issues/new?title=" ++ encodedTitle
           ++ str "&body=" ++ encodedBody ++ tail in
       Wide.generateGithubIssueUrl (str "acme") (str "api")
         (Wide.widen (str "Hi ") ++ [55357; 56832]%N)
         (Wide.widen (str "Guard it."))
         (Some (Wide.widen (str "guard(call);")))
       = str "[Create Issue](" ++ url ++ str ")"
       /\ forallb linkChar url = true
       /\ (tail = []
           \/ exists c,
                Some (Wide.widen (str "guard(call);")) = Some c
                /\ c <> []
                /\ Wide.encodeURIComponent
                     (Wide.widen NL ++ Wide.substring0 10000 c
                        ++ Wide.widen NL)
                   = Ok tail
                /\ length url <= 2048).
Proof.
  apply (@generateGithubIssueUrl_link (str "acme") (str "api")
           (Wide.widen (str "Hi ") ++ [55357; 56832]%N)
           (Wide.widen (str "Guard it."))
           (Some (Wide.widen (str "guard(call);"))));
    try reflexivity.
  intros c H. injection H as <-. split; reflexivity.
Defined.

(** On texts of code units below 256 nothing throws, and the link is
    the one of the function without the [catch]. *)
Lemma encodePoint_code c :
  Wide.isLowSurrogate (N.of_nat (code c)) = false
  /\ Wide.isHighSurrogate (N.of_nat (code c)) = false
  /\ Wide.encodePoint (N.of_nat (code c)) = encodeChar c.
Proof.
  destruct c as [[] [] [] [] [] [] [] []]; vm_compute; auto.
Qed.

Lemma codePoints_widen s : Wide.codePoints (Wide.widen s) = Ok (Wide.widen s).
Proof.
  induction s as [|c s IH]; [reflexivity|].
  destruct (encodePoint_code c) as [Hl [Hh _]].
  change (Wide.widen (c :: s)) with (N.of_nat (code c) :: Wide.widen s).
  rewrite (@codePoints_plain _ (Wide.widen s) Hl Hh), IH. reflexivity.
Qed.

Lemma encodeURIComponent_widen s :
  Wide.encodeURIComponent (Wide.widen s) = Ok (encodeURIComponent s).
Proof.
  unfold Wide.encodeURIComponent. rewrite codePoints_widen. cbn [bindE].
  f_equal. unfold encodeURIComponent.
  induction s as [|c s IH]; [reflexivity|].
  change (Wide.widen (c :: s)) with (N.of_nat (code c) :: Wide.widen s).
  cbn [flat_map]. rewrite IH.
  destruct (encodePoint_code c) as [_ [_ ->]]. reflexivity.
Qed.

Lemma substring0_widen n s :
  Wide.substring0 n (Wide.widen s) = Wide.widen (substring0 n s).
Proof. unfold Wide.substring0, substring0, Wide.widen. apply firstn_map. Qed.

Lemma widen_app a b :
  Wide.widen (a ++ b) = Wide.widen a ++ Wide.widen b.
Proof. apply map_app. Qed.

Lemma truthy_widen s : Wide.truthy (Wide.widen s) = truthy s.
Proof. now destruct s. Qed.

Lemma generateGithubIssueUrl_widen owner repoName title body codeblock :
  Wide.generateGithubIssueUrl owner repoName (Wide.widen title)
    (Wide.widen body) (option_map Wide.widen codeblock)
  = generateGithubIssueUrl owner repoName title body codeblock.
Proof.
  unfold Wide.generateGithubIssueUrl, generateGithubIssueUrl.
  destruct (negb (truthy owner) || negb (truthy repoName)); [reflexivity|].
  destruct (negb (Regex.test safeName owner)
            || negb (Regex.test safeName repoName)); [reflexivity|].
  rewrite !substring0_widen, !encodeURIComponent_widen. cbn [bindE].
  assert (Hc : match option_map Wide.widen codeblock with
               | Some c => if Wide.truthy c then Wide.substring0 10000 c
                           else []
               | None => []
               end
               = Wide.widen
                   match codeblock with
                   | Some c => if truthy c then substring0 10000 c else []
                   | None => []
                   end).
  { destruct codeblock as [c|]; [|reflexivity]. cbn [option_map].
    rewrite truthy_widen, substring0_widen. now destruct (truthy c). }
  rewrite Hc, truthy_widen.
  destruct (truthy _).
  - rewrite <- !widen_app.
    rewrite encodeURIComponent_widen. reflexivity.
  - reflexivity.
Qed.

(** Two, three and four bytes of UTF-8, and the two ways half a
    character stands alone. *)
Example encodeURIComponent_examples :
  Wide.encodeURIComponent ([233; 55357; 56832]%N ++ Wide.widen (str " a"))
  = Ok (str "%C3%A9%F0%9F%98%80%20a")
  /\ Wide.encodeURIComponent [8364]%N = Ok (str "%E2%82%AC")
  /\ Wide.encodeURIComponent [55357]%N = Raise (str "URIError: URI malformed")
  /\ Wide.encodeURIComponent [56832; 55357]%N
     = Raise (str "URIError: URI malformed").
Proof. repeat split; reflexivity. Qed.

(** A title of 201 code units that ends in a character of two code
    units: the cut after 200 code units keeps the first half alone, and
    the link is the placeholder. *)
Example generateGithubIssueUrl_split_pair :
  let title := repeat 97%N 199 ++ [55357; 56832]%N in
  Wide.isWellFormed title = true
  /\ Wide.isWellFormed (Wide.substring0 200 title) = false
  /\ Wide.generateGithubIssueUrl (str "acme") (str "api") title
       (Wide.widen (str "Guard it.")) None
     = issuePlaceholder.
Proof. repeat split; vm_compute; reflexivity. Qed.

(** ** Indenting a fix *)

Lemma leadingRun_spec p n s :
  exists after,
    s = leadingRun p n s ++ after
    /\ forallb p (leadingRun p n s) = true
    /\ length (leadingRun p n s) <= n
    /\ (length (leadingRun p n s) < n ->
        match after with c :: _ => p c = false | [] => True end).
Proof.
  revert s. induction n as [|n IH]; intros s.
  - exists s. cbn [leadingRun app forallb length]. repeat split; lia.
  - destruct s as [|c s].
    + exists []. cbn [leadingRun app forallb length]. repeat split; lia.
    + cbn [leadingRun]. destruct (p c) eqn:E.
      * destruct (IH s) as [after (H1 & H2 & H3 & H4)].
        exists after. cbn [app forallb length]. rewrite E, H2.
        repeat split; [now rewrite <- H1| lia |].
        intros Hlt. apply H4. lia.
      * exists (c :: s). cbn [app forallb length].
        repeat split; [lia | now intros _].
Qed.

Lemma repeat_class_bounded p :
  forall s fuel n pos caps,
    length s < fuel ->
    Regex.repeatRe (Regex.matchRe (Regex.Chr p)) true Some fuel 0 (Some n)
      (Regex.mkState pos s caps)
    = Some (Regex.mkState (pos + length (leadingRun p n s))
              (skipn (length (leadingRun p n s)) s) caps).
Proof.
  induction s as [|c s IH]; intros fuel n pos caps Hf;
    (destruct fuel as [|fuel]; [inversion Hf|]); cbn [Regex.repeatRe].
  - destruct n as [|n]; cbn [Regex.maxIsZero leadingRun length skipn];
      rewrite ?Nat.add_0_r; reflexivity.
  - destruct n as [|n]; cbn [Regex.maxIsZero leadingRun].
    + cbn [length skipn]. now rewrite Nat.add_0_r.
    + cbn [Regex.matchRe Regex.rest Regex.pos Regex.caps].
      destruct (p c) eqn:E.
      * cbn [length]. rewrite (proj2 (Nat.ltb_lt _ _) (Nat.lt_succ_diag_r _)).
        cbn [Regex.predMax option_map pred].
        rewrite IH by (cbn [length] in Hf; lia).
        cbn [skipn]. now rewrite Nat.add_succ_r.
      * cbn [length skipn]. now rewrite Nat.add_0_r.
Qed.

Lemma leadingRun_firstn p n s :
  firstn (length (leadingRun p n s)) s = leadingRun p n s.
Proof.
  revert s. induction n as [|n IH]; intros [|c s]; try reflexivity.
  cbn [leadingRun]. destruct (p c); [|reflexivity].
  cbn [length firstn]. now rewrite IH.
Qed.

Lemma leadingBlanks_match line :
  exists m,
    Regex.firstMatch leadingBlanks line = Some m
    /\ Regex.text m = leadingRun indentChar 100 line.
Proof.
  unfold Regex.firstMatch, Regex.exec. cbn [Nat.ltb Nat.leb skipn].
  assert (H : Regex.matchAt leadingBlanks 0 line
              = Some (Regex.mkMatch 0
                        (length (leadingRun indentChar 100 line))
                        (leadingRun indentChar 100 line) [])).
  { unfold Regex.matchAt.
    change (Regex.matchRe leadingBlanks (Regex.mkState 0 line []) Some)
      with (Regex.repeatRe (Regex.matchRe (Regex.Chr indentChar)) true Some
              (0 + length line + 1) 0 (Some 100) (Regex.mkState 0 line [])).
    rewrite repeat_class_bounded by lia.
    cbn [Regex.pos Regex.caps Nat.add]. rewrite Nat.sub_0_r.
    now rewrite leadingRun_firstn. }
  destruct line as [|c line]; cbn [Regex.search]; rewrite H; eauto.
Qed.

(** X12. [indentCodeFix] returns the code unchanged when the start line
    is below 1 or beyond the last line of the file. Otherwise it puts
    the indentation of that line of the file before every line of the
    code: the spaces and tabs the line begins with, all of them up to a
    hundred. *)
Theorem indentCodeFix_indentation :
  forall (file code : jstring) (lineStart : Z),
    let fileLines := split LF file in
    ((lineStart < 1 \/ Z.of_nat (length fileLines) < lineStart)%Z ->
     indentCodeFix file code lineStart = code)
    /\ ((1 <= lineStart <= Z.of_nat (length fileLines))%Z ->
        exists indentation after,
          nth (Z.to_nat (lineStart - 1)) fileLines [] = indentation ++ after
          /\ forallb indentChar indentation = true
          /\ length indentation <= 100
          /\ (length indentation < 100 ->
              match after with
              | c :: _ => indentChar c = false
              | [] => True
              end)
          /\ indentCodeFix file code lineStart
             = join NL (map (fun line => indentation ++ line)
                          (split LF code))).
Proof.
  intros file code lineStart fileLines. unfold indentCodeFix.
  fold fileLines. split.
  - intros H.
    assert (E : ((lineStart <? 1)%Z
                 || (Z.of_nat (length fileLines) <? lineStart)%Z) = true).
    { apply orb_true_iff. destruct H as [H|H]; [left|right];
        now apply Z.ltb_lt. }
    now rewrite E.
  - intros [H1 H2].
    assert (E : ((lineStart <? 1)%Z
                 || (Z.of_nat (length fileLines) <? lineStart)%Z) = false).
    { apply orb_false_iff. split; apply Z.ltb_ge; lia. }
    rewrite E. cbv zeta.
    set (firstLine := nth (Z.to_nat (lineStart - 1)) fileLines []).
    destruct (leadingBlanks_match firstLine) as [m [-> ->]].
    destruct (leadingRun_spec indentChar 100 firstLine)
      as [after (Ha & Hb & Hc & Hd)].
    exists (leadingRun indentChar 100 firstLine), after.
    repeat split; assumption || reflexivity.
Qed.

(** ** Inline fixes *)

(** What a fix that [generateInlineComments] returns went through. *)
Lemma generateInlineComments_some :
  forall getInlineFixPrompt generateFunctionCall JSON_parse
         (suggestion : PRSuggestion) (target : PRFile)
         (codeFix : CodeSuggestion),
    generateInlineComments getInlineFixPrompt generateFunctionCall JSON_parse
      suggestion target = Some codeFix ->
    exists contents function_call args,
      current_contents target = Some contents
      /\ truthy contents = true
      /\ generateFunctionCall (getInlineFixPrompt contents suggestion)
         = Ok (Some function_call)
      /\ JSON_parse (arguments function_call) = Ok args
      /\ file codeFix = sug_filename suggestion
      /\ Value.get args "lineStart" = JNum (line_start codeFix)
      /\ Value.get args "lineEnd" = JNum (line_end codeFix)
      /\ Value.truthyV (Value.get args "code") = true
      /\ correction codeFix
         = indentCodeFix contents (Value.toStr (Value.get args "code"))
             (line_start codeFix)
      /\ isCodeSuggestionNew contents codeFix = true.
Proof.
  intros prompt complete parse suggestion f codeFix H.
  unfold generateInlineComments in H.
  destruct (current_contents f) as [contents|]; [|discriminate].
  destruct (truthy contents) eqn:Et; [|discriminate].
  cbn [negb] in H. cbv zeta in H.
  destruct (complete (prompt contents suggestion)) as [[call|]|e] eqn:Ec;
    try discriminate.
  destruct (parse (arguments call)) as [args|e] eqn:Ep; [|discriminate].
  exists contents, call, args.
  assert (Hget :
    match Value.get args "lineStart", Value.get args "lineEnd" with
    | JNum lineStart, JNum lineEnd =>
        if negb (Value.truthyV (Value.get args "code")) then None
        else
          let fix_ :=
            {| file := sug_filename suggestion;
               line_start := lineStart;
               line_end := lineEnd;
               correction :=
                 indentCodeFix contents (Value.toStr (Value.get args "code"))
                   lineStart;
               fix_comment :=
                 if Value.truthyV (Value.get args "comment")
                 then Value.get args "comment"
                 else JStr [] |} in
          if isCodeSuggestionNew contents fix_ then Some fix_ else None
    | _, _ => None
    end = Some codeFix).
  { destruct args; try discriminate; exact H. }
  clear H.
  destruct (Value.get args "lineStart") as [| | |lineStart| | |];
    try discriminate.
  destruct (Value.get args "lineEnd") as [| | |lineEnd| | |];
    try discriminate.
  destruct (Value.truthyV (Value.get args "code")) eqn:Ecode;
    [|discriminate].
  cbn [negb] in Hget. cbv zeta in Hget.
  destruct (isCodeSuggestionNew contents _) eqn:Enew; [|discriminate].
  injection Hget as <-.
  cbn [file line_start line_end correction].
  repeat split; try reflexivity; assumption.
Qed.

(** X13. A fix that [generateInlineComments] returns is for the file
    named by the suggestion, covers the line range that the service
    answered, holds the answered code indented like the start line of
    the file, and differs from the lines it replaces: it passes
    [isCodeSuggestionNew] on the content of the file, which is present
    and not empty. *)
Theorem generateInlineComments_returned_fix :
  forall getInlineFixPrompt generateFunctionCall JSON_parse
         (suggestion : PRSuggestion) (target : PRFile)
         (codeFix : CodeSuggestion),
    generateInlineComments getInlineFixPrompt generateFunctionCall JSON_parse
      suggestion target = Some codeFix ->
    exists contents function_call args,
      current_contents target = Some contents
      /\ truthy contents = true
      /\ generateFunctionCall (getInlineFixPrompt contents suggestion)
         = Ok (Some function_call)
      /\ JSON_parse (arguments function_call) = Ok args
      /\ file codeFix = sug_filename suggestion
      /\ Value.get args "lineStart" = JNum (line_start codeFix)
      /\ Value.get args "lineEnd" = JNum (line_end codeFix)
      /\ Value.truthyV (Value.get args "code") = true
      /\ correction codeFix
         = indentCodeFix contents (Value.toStr (Value.get args "code"))
             (line_start codeFix)
      /\ isCodeSuggestionNew contents codeFix = true.
Proof. exact generateInlineComments_some. Qed.

Lemma generateInlineComments_returned_fix_witness :
  let contents :=
    join NL [str "function f() {"; str "  return 1;"; str "}"] in
  let codeFix :=
    {| file := str "src/f.js";
       line_start := 2;
       line_end := 2;
       correction := str "  return 2;";
       fix_comment := JStr (str "Use this.") |} in
  exists contents' function_call args,
    current_contents (Service.fetched "src/f.js" contents) = Some contents'
    /\ truthy contents' = true
    /\ Service.answering "{...}"
         (Service.inlinePrompt contents'
            (Scenario.suggest "Constant" "improvement" "Return two."
               "return 2;" "src/f.js"))
       = Ok (Some function_call)
    /\ Service.parsingAs (Service.fixArgs "return 2;" 2 2)
         (arguments function_call) = Ok args
    /\ file codeFix = sug_filename
         (Scenario.suggest "Constant" "improvement" "Return two."
            "return 2;" "src/f.js")
    /\ Value.get args "lineStart" = JNum (line_start codeFix)
    /\ Value.get args "lineEnd" = JNum (line_end codeFix)
    /\ Value.truthyV (Value.get args "code") = true
    /\ correction codeFix
       = indentCodeFix contents' (Value.toStr (Value.get args "code"))
           (line_start codeFix)
    /\ isCodeSuggestionNew contents' codeFix = true.
Proof.
  intros contents codeFix.
  apply (@generateInlineComments_returned_fix
           Service.inlinePrompt (Service.answering "{...}")
           (Service.parsingAs (Service.fixArgs "return 2;" 2 2))
           (Scenario.suggest "Constant" "improvement" "Return two."
              "return 2;" "src/f.js")
           (Service.fetched "src/f.js" contents) codeFix).
  vm_compute. reflexivity.
Defined.

(** ** The pull request as a whole *)

Lemma filterBoolean_In {A} (x : A) l :
  In x (filterBoolean l) <-> In (Some x) l.
Proof.
  induction l as [|[y|] l IH]; cbn [filterBoolean In].
  - tauto.
  - rewrite IH. split; intros [H|H]; auto; left; congruence.
  - rewrite IH. split; [auto|]. intros [H|H]; [discriminate|exact H].
Qed.

Section PullRequestFacts.

Variable encodeChat : Conversation -> N.
Variable encode : jstring -> N.
Variable rawPatchStrategy : PRFile -> jstring.
Variable smarterContextPatchStrategy : PRFile -> jstring.
Variable generateChatCompletion : Conversation -> Exc jstring.
Variable identity : PRSuggestion -> jstring.
Variable parseStringPromise : jstring -> Exc JSValue.
Variable getInlineFixPrompt : jstring -> PRSuggestion -> Conversation.
Variable generateFunctionCall : Conversation -> Exc (option FunctionCall).
Variable JSON_parse : jstring -> Exc JSValue.
Variable getGitFile : BranchDetails -> jstring -> Exc (option jstring).

Lemma preprocessFile_name payload f f' :
  preprocessFile getGitFile payload f = Ok f' -> filename f' = filename f.
Proof.
  unfold preprocessFile.
  destruct (getGitFile (base payload) (filename f)); cbn [bindE];
    [|discriminate].
  destruct (getGitFile (head payload) (filename f)); cbn [bindE];
    [|discriminate].
  intros H. injection H as <-. reflexivity.
Qed.

Lemma preprocessed_names payload files fs :
  preprocessed getGitFile payload files = Ok fs ->
  map filename fs = map filename files.
Proof.
  revert fs. induction files as [|f files IH]; intros fs H;
    cbn [preprocessed] in H.
  - injection H as <-. reflexivity.
  - destruct (filterFile f).
    + destruct (preprocessFile getGitFile payload f) as [f'|e] eqn:Ef;
        cbn [bindE] in H; [|discriminate].
      destruct (preprocessed getGitFile payload files) as [rest|e];
        cbn [bindE] in H; [|discriminate].
      injection H as <-. cbn [map].
      now rewrite (preprocessFile_name _ _ Ef), (IH rest).
    + destruct (preprocessed getGitFile payload files) as [rest|e];
        cbn [bindE] in H; [|discriminate].
      injection H as <-. cbn [map]. now rewrite (IH rest).
Qed.

Lemma preprocessed_raises payload files f :
  In f files ->
  filterFile f = true ->
  (exists e, preprocessFile getGitFile payload f = Raise e) ->
  exists e, preprocessed getGitFile payload files = Raise e.
Proof.
  intros Hin Hf [e He]. induction files as [|g files IH]; [destruct Hin|].
  cbn [preprocessed]. destruct Hin as [->|Hin].
  - rewrite Hf, He. cbn [bindE]. eauto.
  - destruct (IH Hin) as [e' ->].
    destruct (filterFile g); [|cbn [bindE]; eauto].
    destruct (preprocessFile getGitFile payload g); cbn [bindE]; eauto.
Qed.

End PullRequestFacts.

(** X14. [processPullRequest] returns no review and no inline fix when no
    file passes the filter, when the owner or the repository name is
    empty or holds a code unit other than a letter, a digit, [-], [_]
    and [.], and when fetching the old or the current content of a file
    that passes the filter fails. *)
Theorem processPullRequest_no_review :
  forall encodeChat encode rawPatchStrategy smarterContextPatchStrategy
         generateChatCompletion identity parseStringPromise
         getInlineFixPrompt generateFunctionCall JSON_parse getGitFile
         (payload : Payload) (files : list PRFile) (includeSuggestions : bool),
    filter filterFile files = []
    \/ validName (owner_login payload) && validName (repository_name payload)
       = false
    \/ (exists f e,
          In f files /\ filterFile f = true
          /\ (getGitFile (base payload) (filename f) = Raise e
              \/ getGitFile (head payload) (filename f) = Raise e)) ->
    processPullRequest encodeChat encode rawPatchStrategy
      smarterContextPatchStrategy generateChatCompletion identity
      parseStringPromise getInlineFixPrompt generateFunctionCall JSON_parse
      getGitFile payload files includeSuggestions
    = noReview.
Proof.
  intros encodeChat encode raw smarter complete identity parseXml prompt
    call parse getGitFile payload files incl H.
  unfold processPullRequest.
  destruct (length (filter filterFile files) =? 0) eqn:El; [reflexivity|].
  destruct H as [H|[H|H]].
  - rewrite H in El. discriminate.
  - destruct (preprocessed getGitFile payload files); [|reflexivity].
    rewrite !test_safeName. fold (validName (owner_login payload)).
    fold (validName (repository_name payload)).
    apply andb_false_iff in H. destruct H as [-> | ->];
      [reflexivity|]. now rewrite orb_true_r.
  - destruct H as (f & e & Hin & Hf & He).
    assert (Hr : exists e', preprocessFile getGitFile payload f = Raise e').
    { unfold preprocessFile. destruct He as [He|He].
      - rewrite He. cbn [bindE]. eauto.
      - destruct (getGitFile (base payload) (filename f)); cbn [bindE];
          [|eauto].
        rewrite He. cbn [bindE]. eauto. }
    destruct (@preprocessed_raises getGitFile payload files f Hin Hf Hr)
      as [e' ->].
    reflexivity.
Qed.

Lemma processPullRequest_no_review_witness :
  processPullRequest Scenario.charTokens Scenario.charCount
    Scenario.headerPatch Scenario.headerPatch Service.unavailable
    Scenario.contentIdentity (Service.parsingXmlAs JNull)
    Service.inlinePrompt (Service.answering "{...}")
    (Service.parsingAs (Service.fixArgs "return 2;" 2 2))
    Service.notFound
    {| owner_login := str "acme corp";
       repository_name := str "api";
       base := base Service.pullRequest;
       head := head Service.pullRequest |}
    [Scenario.changed "src/a.ts" (Scenario.addedLine 40)] true
  = noReview.
Proof.
  apply (@processPullRequest_no_review
           Scenario.charTokens Scenario.charCount
           Scenario.headerPatch Scenario.headerPatch Service.unavailable
           Scenario.contentIdentity (Service.parsingXmlAs JNull)
           Service.inlinePrompt (Service.answering "{...}")
           (Service.parsingAs (Service.fixArgs "return 2;" 2 2))
           Service.notFound).
  right. left. reflexivity.
Defined.

(** X16. Every inline fix that [processPullRequest] returns was asked for
    ([includeSuggestions] is set), belongs to a suggestion of the review
    it returns, and targets a file of the pull request: the file of the
    fix is the filename of that suggestion and the filename of one of
    the files given. There are no more fixes than suggestions. *)
Theorem processPullRequest_fixes_target_files :
  forall encodeChat encode rawPatchStrategy smarterContextPatchStrategy
         generateChatCompletion identity parseStringPromise
         getInlineFixPrompt generateFunctionCall JSON_parse getGitFile
         (payload : Payload) (files : list PRFile) (includeSuggestions : bool)
         (codeFix : CodeSuggestion),
    let result :=
      processPullRequest encodeChat encode rawPatchStrategy
        smarterContextPatchStrategy generateChatCompletion identity
        parseStringPromise getInlineFixPrompt generateFunctionCall JSON_parse
        getGitFile payload files includeSuggestions in
    In codeFix (suggestions result) ->
    includeSuggestions = true
    /\ In (file codeFix) (map filename files)
    /\ exists reviewComments suggestion,
         review result = Some reviewComments
         /\ In suggestion (structuredComments reviewComments)
         /\ file codeFix = sug_filename suggestion
         /\ length (suggestions result)
            <= length (structuredComments reviewComments).
Proof.
  intros encodeChat encode raw smarter complete identity parseXml prompt
    call parse getGitFile payload files incl codeFix result.
  unfold result, processPullRequest.
  destruct (length (filter filterFile files) =? 0); [intros []|].
  destruct (preprocessed getGitFile payload files) as [fetched|e] eqn:Ep;
    [|intros []].
  cbv zeta.
  destruct (negb (Regex.test safeName (owner_login payload))
            || negb (Regex.test safeName (repository_name payload)));
    [intros []|].
  destruct (reviewChangesRetry _ _ _ _ _ _ _) as [rc|e]; [|intros []].
  destruct incl; [|intros []].
  cbn [suggestions review]. intros Hin.
  split; [reflexivity|].
  destruct (0 <? length (structuredComments rc)); [|destruct Hin].
  apply filterBoolean_In in Hin. apply in_map_iff in Hin.
  destruct Hin as [suggestion [Hfix Hs]].
  destruct (findFile fetched suggestion) as [target|] eqn:Ef;
    [|discriminate].
  apply generateInlineComments_some in Hfix.
  destruct Hfix as (contents & fc & args & _ & _ & _ & _ & Hfile & _).
  unfold findFile in Ef. apply find_some in Ef. destruct Ef as [Ht Hname].
  assert (Heq : filename target = sug_filename suggestion).
  { apply jstring_eqb_eq. exact Hname. }
  split.
  - rewrite Hfile, <- Heq, <- (preprocessed_names _ _ _ Ep).
    now apply in_map.
  - exists rc, suggestion. repeat split; try assumption.
    clear. induction (structuredComments rc) as [|s l IH]; [apply le_n|].
    cbn [map filterBoolean length].
    destruct (match findFile fetched s with
              | Some f => generateInlineComments prompt call parse s f
              | None => None
              end); cbn [length]; lia.
Qed.

Lemma processPullRequest_fixes_target_files_witness :
  let contents :=
    join NL [str "function f() {"; str "  return 1;"; str "}"] in
  let files := [Scenario.changed "src/f.js" (Scenario.addedLine 40)] in
  let codeFix :=
    {| file := str "src/f.js";
       line_start := 2;
       line_end := 2;
       correction := str "  return 2;";
       fix_comment := JStr (str "Use this.") |} in
  let result :=
    processPullRequest Scenario.charTokens Scenario.charCount
      Scenario.headerPatch Scenario.headerPatch
      (Host.replying "<review></review>")
      Scenario.contentIdentity
      (Service.parsingXmlAs
         (Host.oneSuggestion "Constant" "improvement" "Return two."
            "return 2;" "src/f.js"))
      Service.inlinePrompt (Service.answering "{...}")
      (Service.parsingAs (Service.fixArgs "return 2;" 2 2))
      (Host.holding contents) Service.pullRequest files true in
  true = true
  /\ In (file codeFix) (map filename files)
  /\ exists reviewComments suggestion,
       review result = Some reviewComments
       /\ In suggestion (structuredComments reviewComments)
       /\ file codeFix = sug_filename suggestion
       /\ length (suggestions result)
          <= length (structuredComments reviewComments).
Proof.
  intros contents files codeFix.
  apply (@processPullRequest_fixes_target_files
           Scenario.charTokens Scenario.charCount
           Scenario.headerPatch Scenario.headerPatch
           (Host.replying "<review></review>")
           Scenario.contentIdentity
           (Service.parsingXmlAs
              (Host.oneSuggestion "Constant" "improvement" "Return two."
                 "return 2;" "src/f.js"))
           Service.inlinePrompt (Service.answering "{...}")
           (Service.parsingAs (Service.fixArgs "return 2;" 2 2))
           (Host.holding contents) Service.pullRequest files true codeFix).
  vm_compute. left. reflexivity.
Defined.

(** ** The structured parser, reply by reply *)

Lemma filterBoolean_app {A} (l1 l2 : list (option A)) :
  filterBoolean (l1 ++ l2) = filterBoolean l1 ++ filterBoolean l2.
Proof.
  induction l1 as [|[x|] l1 IH]; cbn [app filterBoolean];
    [reflexivity| |exact IH].
  now rewrite IH.
Qed.

Lemma processXMLSuggestions_app parseStringPromise a b :
  processXMLSuggestions parseStringPromise (a ++ b)
  = processXMLSuggestions parseStringPromise a
      ++ processXMLSuggestions parseStringPromise b.
Proof.
  unfold processXMLSuggestions, allSuggestionsOf, Value.flat1.
  now rewrite map_app, filter_app, map_app, flat_map_app, map_app,
    filterBoolean_app.
Qed.

(** X17. [processXMLSuggestions] reads the replies one by one: the
    suggestions of a list of replies are the suggestions of each reply,
    in the order of the replies. A reply that lacks the opening or the
    closing review tag, or that the XML parser rejects, gives no
    suggestion and does not disturb the others. *)
Theorem processXMLSuggestions_reply_by_reply :
  forall parseStringPromise (feedbacks : list jstring),
    processXMLSuggestions parseStringPromise feedbacks
    = flat_map (fun fb => processXMLSuggestions parseStringPromise [fb])
        feedbacks
    /\ (forall fb,
           includes fb (str "<review>") = false
           \/ includes fb (str "</review>") = false
           \/ (exists sanitizedFb e,
                 sanitizeFeedback fb = Some sanitizedFb
                 /\ parseStringPromise sanitizedFb = Raise e) ->
           processXMLSuggestions parseStringPromise [fb] = []).
Proof.
  intros parse feedbacks. split.
  - induction feedbacks as [|fb rest IH]; [reflexivity|].
    change (fb :: rest) with ([fb] ++ rest).
    rewrite processXMLSuggestions_app, IH. reflexivity.
  - intros fb H.
    assert (E : parseFeedback parse fb = emptyReview).
    { unfold parseFeedback. destruct H as [H|[H|H]].
      - unfold sanitizeFeedback. now rewrite H.
      - unfold sanitizeFeedback. rewrite H. now rewrite orb_true_r.
      - destruct H as (s & e & -> & ->). reflexivity. }
    unfold processXMLSuggestions, allSuggestionsOf. cbn [map]. rewrite E.
    reflexivity.
Qed.

(** ** The fallback parser, block by block *)

Lemma fallbackTextParser_blocks text :
  fallbackTextParser text
  = filterMap (suggestionOfBlock text) (codeBlocks text).
Proof.
  destruct (execAll_total text (length text) 0) as [ms Hms]; [lia|].
  unfold fallbackTextParser, codeBlocks.
  now rewrite fallbackLoop_execAll, Hms.
Qed.

Lemma filterMap_In {A B} (f : A -> option B) l y :
  In y (filterMap f l) -> exists x, In x l /\ f x = Some y.
Proof.
  induction l as [|x l IH]; cbn [filterMap]; [intros []|].
  destruct (f x) as [z|] eqn:E.
  - intros [<-|H]; [exists x; split; [now left|exact E]|].
    destruct (IH H) as [x' [H1 H2]]. exists x'. split; [now right|exact H2].
  - intros H. destruct (IH H) as [x' [H1 H2]].
    exists x'. split; [now right|exact H2].
Qed.

Lemma orElse_truthy x y : truthy y = true -> truthy (orElse x y) = true.
Proof. unfold orElse. intros H. now destruct (truthy x) eqn:E. Qed.

Lemma extractComment_long beforeBlock language :
  tooShort (extractComment beforeBlock language) = false.
Proof.
  unfold extractComment.
  match goal with
  | |- tooShort (if tooShort ?c then _ else _) = false =>
      destruct (tooShort c) eqn:E; [|exact E]
  end.
  unfold tooShort. rewrite !length_app.
  change (length (str "Consider this code improvement for better ")) with 42.
  apply orb_false_iff. split.
  - reflexivity.
  - apply Nat.ltb_ge. lia.
Qed.

(** X18. Every suggestion of [fallbackTextParser] comes from a fenced
    block of the reply whose body is not blank. Its code is that body
    fenced again under the language of the block (js when the block
    names none), its filename is not empty, its description is the
    filename after the words Code suggestion for, and its comment is at
    least 20 code units long. *)
Theorem fallbackTextParser_suggestion_shape :
  forall (text : jstring) (suggestion : PRSuggestion),
    In suggestion (fallbackTextParser text) ->
    exists m language,
      In m (codeBlocks text)
      /\ isBlank (blockBody m) = false
      /\ language
         = match Regex.capture 1 (Regex.groups m) with
           | Some l => if truthy l then l else str "js"
           | None => str "js"
           end
      /\ sug_code suggestion
         = str "```" ++ language ++ NL ++ blockBody m ++ NL ++ str "```"
      /\ truthy (sug_filename suggestion) = true
      /\ sug_describe suggestion
         = str "Code suggestion for " ++ sug_filename suggestion
      /\ 20 <= length (sug_comment suggestion).
Proof.
  intros text s Hin. rewrite fallbackTextParser_blocks in Hin.
  apply filterMap_In in Hin. destruct Hin as [m [Hm Hs]].
  exists m. eexists. split; [exact Hm|].
  destruct (isBlank (blockBody m)) eqn:Eb.
  { rewrite (suggestionOfBlock_blank text m Eb) in Hs. discriminate. }
  split; [reflexivity|]. split; [reflexivity|].
  unfold suggestionOfBlock in Hs. unfold isBlank, blockBody in Eb.
  rewrite Eb in Hs. cbv zeta in Hs.
  match type of Hs with
  | context [extractComment ?b ?l] =>
      pose proof (extractComment_long b l) as Hc;
      set (comment := extractComment b l) in *
  end.
  match type of Hs with
  | context [findFilename ?ps ?b] => set (found := findFilename ps b) in *
  end.
  injection Hs as <-.
  cbn [sug_code sug_filename sug_describe sug_comment].
  split; [reflexivity|]. split; [|split; [reflexivity|]].
  - unfold fallbackFilename.
    destruct found as [f|];
      [destruct (truthy f) eqn:Ef; [exact Ef|]|]; reflexivity.
  - unfold tooShort in Hc. apply orb_false_iff in Hc.
    destruct Hc as [_ Hc]. now apply Nat.ltb_ge in Hc.
Qed.

Lemma fallbackTextParser_suggestion_shape_witness :
  let text :=
    join NL [ str "Rename the counter in file src/a.ts to make it clearer:";
              str "```ts"; str "const total = 1;"; str "```" ] in
  let suggestion :=
    {| sug_describe := str "Code suggestion for src/a.ts";
       sug_type := str "improvement";
       sug_comment :=
         str "Rename the counter in file src/a.ts to make it clearer:";
       sug_code := join NL [str "```ts"; str "const total = 1;"; []; str "```"];
       sug_filename := str "src/a.ts" |} in
  exists m language,
    In m (codeBlocks text)
    /\ isBlank (blockBody m) = false
    /\ language
       = match Regex.capture 1 (Regex.groups m) with
         | Some l => if truthy l then l else str "js"
         | None => str "js"
         end
    /\ sug_code suggestion
       = str "```" ++ language ++ NL ++ blockBody m ++ NL ++ str "```"
    /\ truthy (sug_filename suggestion) = true
    /\ sug_describe suggestion
       = str "Code suggestion for " ++ sug_filename suggestion
    /\ 20 <= length (sug_comment suggestion).
Proof.
  intros text suggestion.
  apply (@fallbackTextParser_suggestion_shape text suggestion).
  vm_compute. left. reflexivity.
Defined.

Lemma codeBlock_starts_with_fence p s m :
  Regex.matchAt codeBlockRegex p s = Some m ->
  startsWith s (str "```") = true.
Proof.
  unfold Regex.matchAt.
  destruct (Regex.matchRe codeBlockRegex (Regex.mkState p s []) Some)
    as [e|] eqn:E; [|discriminate].
  intros _. revert E.
  change codeBlockRegex
    with (Regex.Seq
            (Regex.Seq (Regex.chr "`")
               (Regex.Seq (Regex.chr "`") (Regex.chr "`")))
            (Regex.seqOf
               [ Regex.opt (Regex.Group 1 (Regex.plus Regex.word));
                 Regex.star Regex.space;
                 Regex.Group 2 (Regex.lazyStar Regex.anyChar);
                 Regex.lit "```" ])).
  change (str "```") with ["`"%char; "`"%char; "`"%char].
  unfold Regex.chr.
  destruct s as [|c1 [|c2 [|c3 s]]];
    cbn [Regex.matchRe Regex.rest Regex.pos Regex.caps startsWith];
    try discriminate.
  - destruct (Ascii.eqb "`" c1); discriminate.
  - destruct (Ascii.eqb "`" c1) eqn:E1; [|discriminate].
    destruct (Ascii.eqb "`" c2); discriminate.
  - destruct (Ascii.eqb "`" c1) eqn:E1; [|discriminate].
    destruct (Ascii.eqb "`" c2) eqn:E2; [|discriminate].
    destruct (Ascii.eqb "`" c3) eqn:E3; [|discriminate].
    intros _. rewrite (Ascii.eqb_sym c1), (Ascii.eqb_sym c2),
      (Ascii.eqb_sym c3), E1, E2, E3. now destruct s.
Qed.

Lemma search_codeBlock_none s :
  includes s (str "```") = false ->
  forall p, Regex.search codeBlockRegex p s = None.
Proof.
  unfold includes. induction s as [|c s IH]; intros H p; cbn [Regex.search].
  - destruct (Regex.matchAt codeBlockRegex p []) as [m|] eqn:E;
      [|reflexivity].
    apply codeBlock_starts_with_fence in E. discriminate.
  - cbn [indexOf] in H.
    destruct (startsWith (c :: s) (str "```")) eqn:Es; [discriminate|].
    destruct (Regex.matchAt codeBlockRegex p (c :: s)) as [m|] eqn:E.
    + apply codeBlock_starts_with_fence in E. congruence.
    + apply IH. destruct (indexOf s (str "```")); [discriminate|reflexivity].
Qed.

(** X19. A reply that holds no run of three backticks has no fenced
    block: [fallbackTextParser] returns no suggestion for it. *)
Theorem fallbackTextParser_without_fence :
  forall text : jstring,
    includes text (str "```") = false ->
    codeBlocks text = [] /\ fallbackTextParser text = [].
Proof.
  intros text H.
  assert (E : Regex.exec codeBlockRegex text 0 = None).
  { unfold Regex.exec. cbn [Nat.ltb Nat.leb skipn].
    now apply search_codeBlock_none. }
  unfold fallbackTextParser, codeBlocks.
  destruct (length text); cbn [fallbackLoop execAll]; rewrite E; now split.
Qed.

Lemma fallbackTextParser_without_fence_witness :
  codeBlocks (str "Looks good to me. `x` is fine.") = []
  /\ fallbackTextParser (str "Looks good to me. `x` is fine.") = [].
Proof.
  apply (@fallbackTextParser_without_fence
           (str "Looks good to me. `x` is fine.")).
  vm_compute. reflexivity.
Defined.

(** ** Maps in insertion order *)

(** A loop that sets or extends one key per item builds the keys in the
    order in which they are first met. *)
Lemma fold_keys_firstSeen {V S}
    (step : list (jstring * V) -> S -> list (jstring * V))
    (key : S -> jstring) :
  (forall m s,
      map fst (step m s)
      = if has (map fst m) (key s) then map fst m else map fst m ++ [key s]) ->
  forall l m,
    map fst (fold_left step l m)
    = map fst m ++ firstSeen (map key l) (map fst m).
Proof.
  intros Hstep. induction l as [|s l IH]; intros m;
    cbn [fold_left map firstSeen].
  - now rewrite app_nil_r.
  - rewrite IH, Hstep. destruct (has (map fst m) (key s)); [reflexivity|].
    now rewrite <- app_assoc.
Qed.

Lemma firstSeen_length keys seen :
  length (firstSeen keys seen) <= length keys.
Proof.
  revert seen. induction keys as [|k keys IH]; intros seen;
    cbn [firstSeen length]; [apply le_n|].
  destruct (has seen k); cbn [length].
  - apply le_S, IH.
  - apply le_n_S, IH.
Qed.

Lemma dedupSuggestions_keys identity l :
  map identity (dedupSuggestions identity l)
  = firstSeen (map identity l) [].
Proof.
  unfold dedupSuggestions.
  assert (Hk : keyed identity (fold_left (dedupStep identity) l [])).
  { apply fold_keyed. split; constructor. }
  destruct Hk as [_ Hid].
  change (fun m0 s0 => mapSet (identity s0) s0 m0)
    with (dedupStep identity).
  rewrite map_map.
  rewrite (map_ext_in _ fst).
  - rewrite (fold_keys_firstSeen (dedupStep identity) identity).
    + reflexivity.
    + intros m s. apply mapSet_keys.
  - intros e He. rewrite Forall_forall in Hid. now apply Hid.
Qed.

(** X20. [dedupSuggestions] keeps the suggestions in the order in which
    their identities first appear in the input: a suggestion that
    overwrites an earlier one takes the place of the earlier one. The
    result is never longer than the input, and an input without two
    suggestions of the same identity is returned as it is. *)
Theorem dedupSuggestions_order :
  forall (identity : PRSuggestion -> jstring) (suggestions : list PRSuggestion),
    map identity (dedupSuggestions identity suggestions)
    = firstSeen (map identity suggestions) []
    /\ length (dedupSuggestions identity suggestions) <= length suggestions
    /\ (NoDup (map identity suggestions) ->
        dedupSuggestions identity suggestions = suggestions).
Proof.
  intros identity l.
  split; [apply dedupSuggestions_keys|]. split.
  - rewrite <- (length_map identity (dedupSuggestions identity l)).
    rewrite dedupSuggestions_keys.
    rewrite <- (length_map identity l). apply firstSeen_length.
  - apply dedup_distinct.
Qed.

(** ** One comment per file *)

Lemma pushSuggestion_keys k v m :
  map fst (pushSuggestion k v m)
  = if has (map fst m) k then map fst m else map fst m ++ [k].
Proof.
  induction m as [|[k' vs] m IH]; cbn [pushSuggestion map fst];
    [reflexivity|].
  unfold has in *. cbn [existsb].
  destruct (jstring_eqb k' k) eqn:E.
  - apply jstring_eqb_eq in E. subst. now rewrite jstring_eqb_refl.
  - cbn [map fst]. rewrite IH, jstring_eqb_sym, E. cbn [orb].
    now destruct (existsb (jstring_eqb k) (map fst m)).
Qed.

Lemma pushSuggestion_nonempty k v m :
  Forall (fun e => snd e <> []) m ->
  Forall (fun e => snd e <> []) (pushSuggestion k v m).
Proof.
  intros H. induction H as [|[k' vs] m He Hm IH]; cbn [pushSuggestion].
  - constructor; [discriminate|constructor].
  - destruct (jstring_eqb k' k).
    + constructor; [|exact Hm]. cbn [snd]. now destruct vs.
    + now constructor.
Qed.

Lemma startsWith_app s rest : startsWith (s ++ rest) s = true.
Proof.
  induction s as [|c s IH]; cbn [app startsWith].
  - now destruct rest.
  - now rewrite Ascii.eqb_refl, IH.
Qed.

Lemma convertPRSuggestionToComment_heads :
  forall (owner repo : jstring) (suggestions : list PRSuggestion),
    Forall2
      (fun filename comment =>
         startsWith comment (str "## " ++ filename ++ NL ++ NL) = true)
      (firstSeen (map sug_filename suggestions) [])
      (convertPRSuggestionToComment owner repo suggestions).
Proof.
  intros owner repo suggestions. unfold convertPRSuggestionToComment.
  set (step := fun m suggestion =>
                 pushSuggestion (sug_filename suggestion) suggestion m).
  assert (Hkeys : map fst (fold_left step suggestions [])
                  = firstSeen (map sug_filename suggestions) []).
  { rewrite (fold_keys_firstSeen step sug_filename); [reflexivity|].
    intros m s. apply pushSuggestion_keys. }
  assert (Hne : Forall (fun e => snd e <> [])
                  (fold_left step suggestions [])).
  { clear Hkeys.
    generalize (@nil (jstring * list PRSuggestion))
      (@Forall_nil (jstring * list PRSuggestion) (fun e => snd e <> [])).
    induction suggestions as [|s l IH]; intros m Hm; cbn [fold_left];
      [exact Hm|].
    apply IH. now apply pushSuggestion_nonempty. }
  rewrite <- Hkeys. clear Hkeys.
  induction Hne as [|[filename ss] m He Hm IH]; cbn [map]; constructor;
    [|exact IH].
  cbn [fst snd] in *. destruct ss as [|s ss]; [congruence|].
  cbn [map join].
  rewrite <- !app_assoc.
  change (str "## " ++ filename ++ NL ++ NL ++ ?x)
    with (str "## " ++ filename ++ NL ++ NL ++ x).
  rewrite !app_assoc. rewrite <- (app_assoc (str "## ")).
  rewrite <- (app_assoc (str "## ")).
  apply startsWith_app.
Qed.

(** X21. [convertPRSuggestionToComment] writes one comment for every
    filename among the suggestions, in the order in which the filenames
    first appear; each comment begins with the heading of its file, the
    filename after two number signs, and an empty line. *)
Theorem convertPRSuggestionToComment_headings :
  forall (owner repo : jstring) (suggestions : list PRSuggestion),
    Forall2
      (fun filename comment =>
         startsWith comment (str "## " ++ filename ++ NL ++ NL) = true)
      (firstSeen (map sug_filename suggestions) [])
      (convertPRSuggestionToComment owner repo suggestions).
Proof. exact convertPRSuggestionToComment_heads. Qed.

(** ** What a review returns *)

Lemma promiseAll_raises {A} (ps : list (Exc A)) e :
  In (Raise e) ps -> exists e', promiseAll ps = Raise e'.
Proof.
  induction ps as [|p ps IH]; [intros []|].
  cbn [promiseAll]. intros [->|H]; [cbn [bindE]; eauto|].
  destruct p as [x|e0]; cbn [bindE]; [|eauto].
  destruct (IH H) as [e' ->]. cbn [bindE]. eauto.
Qed.

Lemma promiseAll_values {A} (xs : list A) :
  promiseAll (map (@Ok A) xs) = Ok xs.
Proof.
  induction xs as [|x xs IH]; [reflexivity|].
  cbn [map promiseAll bindE]. rewrite IH. reflexivity.
Qed.

(** ** The response builders *)

Lemma dedupSuggestions_nonempty identity l :
  l <> [] -> dedupSuggestions identity l <> [].
Proof.
  intros Hne Hd. destruct l as [|s l]; [congruence|].
  pose proof (dedupSuggestions_keys identity (s :: l)) as H.
  rewrite Hd in H. cbn [map firstSeen has existsb] in H. discriminate.
Qed.

Lemma commentBlob_truthy owner repo l :
  l <> [] ->
  truthy (join NL (convertPRSuggestionToComment owner repo l)) = true.
Proof.
  intros Hne. destruct l as [|s l]; [congruence|].
  pose proof (convertPRSuggestionToComment_heads owner repo (s :: l)) as H.
  cbn [map firstSeen has existsb] in H.
  inversion H as [|filename c fs cs Hc Hrest E1 E2]; subst.
  destruct c as [|x c]; [discriminate|].
  destruct cs; reflexivity.
Qed.

(** X23. [xmlResponseBuilder] always returns a response, and its comment
    is never empty. The structured comments are the suggestions of the
    XML parser when it finds some, and otherwise those of the fallback
    parser over the replies in order; they are not deduplicated. When
    neither parser finds a suggestion the comment is the message that no
    suggestions were generated. *)
Theorem xmlResponseBuilder_response :
  forall (identity : PRSuggestion -> jstring) parseStringPromise
         (owner repoName : jstring) (feedbacks : list jstring),
    exists response,
      xmlResponseBuilder identity parseStringPromise owner repoName feedbacks
      = Ok response
      /\ truthy (comment response) = true
      /\ structuredComments response
         = match processXMLSuggestions parseStringPromise feedbacks with
           | [] => flat_map fallbackTextParser feedbacks
           | parsed => parsed
           end
      /\ (structuredComments response = [] ->
          comment response = noSuggestionsMessage).
Proof.
  intros identity parse owner repo feedbacks. unfold xmlResponseBuilder.
  destruct (processXMLSuggestions parse feedbacks) as [|s parsed] eqn:Ep.
  - cbn [length Nat.ltb Nat.leb].
    destruct (flat_map fallbackTextParser feedbacks) as [|t all] eqn:Ef.
    + cbn [length Nat.ltb Nat.leb]. eexists. split; [reflexivity|].
      cbn [comment structuredComments]. now repeat split.
    + cbn [length Nat.ltb Nat.leb]. eexists. split; [reflexivity|].
      cbn [comment structuredComments]. split; [|split];
        [|reflexivity|discriminate].
      apply commentBlob_truthy. apply dedupSuggestions_nonempty.
      discriminate.
  - cbn [length Nat.ltb Nat.leb].
    destruct (length (convertPRSuggestionToComment owner repo
                        (dedupSuggestions identity (s :: parsed))) =? 0).
    + eexists. split; [reflexivity|]. cbn [comment structuredComments].
      split; [reflexivity|]. split; [reflexivity|discriminate].
    + destruct (negb (truthy (join NL _)) || negb (truthy (trim (join NL _))))
        eqn:Eb.
      * eexists. split; [reflexivity|]. cbn [comment structuredComments].
        split; [reflexivity|]. split; [reflexivity|discriminate].
      * eexists. split; [reflexivity|]. cbn [comment structuredComments].
        apply orb_false_iff in Eb. destruct Eb as [Eb _].
        apply negb_false_iff in Eb.
        split; [exact Eb|]. split; [reflexivity|discriminate].
Qed.

(** ** What is sent for review *)

(** X24. Every file that [reviewChanges] puts into a request comes from
    an input file that passes the filter: it has its filename and its
    contents, it passes the filter itself, its patch is the patch of the
    input file or that patch without the removed lines, and its
    [patchTokenLength] is the token length of the patch prompt of the
    input file. *)
Theorem reviewGroups_origin :
  forall encodeChat encode rawPatchStrategy smarterContextPatchStrategy
         builder (files : list PRFile) (patchGroup : list PRFile)
         (file : PRFile),
    In patchGroup
      (reviewGroups encodeChat encode rawPatchStrategy
         smarterContextPatchStrategy builder files) ->
    In file patchGroup ->
    filterFile file = true
    /\ exists original,
         In original files
         /\ filterFile original = true
         /\ filename file = filename original
         /\ old_contents file = old_contents original
         /\ current_contents file = current_contents original
         /\ patchTokenLength file
            = getTokenLength encode
                (buildPatchPrompt rawPatchStrategy smarterContextPatchStrategy
                   original)
         /\ (patch file = patch original
             \/ patch file = patch (stripRemovedLines original)).
Proof.
  intros encodeChat encode raw smarter builder files g f Hg Hf.
  split.
  { pose proof (reviewGroups_pass encodeChat encode raw smarter builder files)
      as Hp.
    rewrite Forall_forall in Hp. specialize (Hp g Hg).
    rewrite Forall_forall in Hp. now apply Hp. }
  assert (Hset : forall x,
             In x (filteredFilesOf encode raw smarter files) ->
             exists original,
               In original files /\ filterFile original = true
               /\ x = setPatchTokenLength encode raw smarter original).
  { intros x Hx. unfold filteredFilesOf in Hx. apply in_map_iff in Hx.
    destruct Hx as [o [<- Ho]]. apply filter_In in Ho.
    exists o. tauto. }
  unfold reviewGroups in Hg. apply in_app_or in Hg. destruct Hg as [Hg|Hg].
  - apply (@processWithinLimitFiles_incl encodeChat _ builder _ g f) in Hg;
      [|exact Hf].
    unfold patchesWithinModelLimit in Hg. apply filter_In in Hg.
    destruct Hg as [Hg _]. destruct (Hset f Hg) as (o & Ho & Hpass & ->).
    exists o. cbn [setPatchTokenLength filename old_contents current_contents
                   patchTokenLength patch].
    repeat split; try assumption; try reflexivity. now left.
  - destruct (processOutsideLimitFiles_origin _ _ _ _ _ _ Hg Hf)
      as (x & Hx & ->).
    unfold patchesOutsideModelLimit in Hx. apply filter_In in Hx.
    destruct Hx as [Hx _]. destruct (Hset x Hx) as (o & Ho & Hpass & ->).
    exists o. repeat split; try assumption; try reflexivity. now right.
Qed.

Lemma reviewGroups_origin_witness :
  let files :=
    [ Scenario.changed "src/a.ts" (Scenario.addedLine 40);
      Scenario.changed "yarn.lock" (Scenario.addedLine 10) ] in
  let file :=
    {| filename := str "src/a.ts";
       patch := Scenario.addedLine 40;
       old_contents := None;
       current_contents := None;
       patchTokenLength :=
         Scenario.charCount
           (Scenario.headerPatch
              (Scenario.changed "src/a.ts" (Scenario.addedLine 40))) |} in
  filterFile file = true
  /\ exists original,
       In original files
       /\ filterFile original = true
       /\ filename file = filename original
       /\ old_contents file = old_contents original
       /\ current_contents file = current_contents original
       /\ patchTokenLength file
          = getTokenLength Scenario.charCount
              (buildPatchPrompt Scenario.headerPatch Scenario.headerPatch
                 original)
       /\ (patch file = patch original
           \/ patch file = patch (stripRemovedLines original)).
Proof.
  intros files file.
  apply (@reviewGroups_origin Scenario.charTokens Scenario.charCount
           Scenario.headerPatch Scenario.headerPatch getXMLReviewPrompt
           files [file] file).
  - vm_compute. left. reflexivity.
  - left. reflexivity.
Defined.

(** ** When there is no inline fix *)

(** X25. [generateInlineComments] returns null when the file has no
    current content or an empty one, when the request to the service
    fails or its answer has no function call, when the arguments of the
    call are not JSON, and when the parsed arguments have no code or a
    start or end line that is not a number. *)
Theorem generateInlineComments_null :
  forall getInlineFixPrompt generateFunctionCall JSON_parse
         (suggestion : PRSuggestion) (target : PRFile),
    current_contents target = None
    \/ current_contents target = Some []
    \/ (exists contents,
          current_contents target = Some contents
          /\ ((exists e,
                 generateFunctionCall (getInlineFixPrompt contents suggestion)
                 = Raise e)
              \/ generateFunctionCall (getInlineFixPrompt contents suggestion)
                 = Ok None
              \/ exists function_call,
                   generateFunctionCall
                     (getInlineFixPrompt contents suggestion)
                   = Ok (Some function_call)
                   /\ ((exists e,
                          JSON_parse (arguments function_call) = Raise e)
                       \/ exists args,
                            JSON_parse (arguments function_call) = Ok args
                            /\ (Value.truthyV (Value.get args "code") = false
                                \/ Value.isNumber (Value.get args "lineStart")
                                   = false
                                \/ Value.isNumber (Value.get args "lineEnd")
                                   = false)))) ->
    generateInlineComments getInlineFixPrompt generateFunctionCall JSON_parse
      suggestion target
    = None.
Proof.
  intros prompt complete parse suggestion target H.
  destruct (generateInlineComments prompt complete parse suggestion target)
    as [codeFix|] eqn:E; [exfalso|reflexivity].
  apply generateInlineComments_some in E.
  destruct E as (contents & call & args & Hc & Ht & Hcall & Hparse & _
                 & Hs & He & Hcode & _).
  destruct H as [H|[H|H]].
  - congruence.
  - rewrite Hc in H. injection H as ->. discriminate.
  - destruct H as (contents' & Hc' & H).
    rewrite Hc in Hc'. injection Hc' as <-.
    destruct H as [[e H]|[H|H]]; [congruence|congruence|].
    destruct H as (call' & Hcall' & H).
    rewrite Hcall in Hcall'. injection Hcall' as <-.
    destruct H as [[e H]|H]; [congruence|].
    destruct H as (args' & Hparse' & H).
    rewrite Hparse in Hparse'. injection Hparse' as <-.
    destruct H as [H|[H|H]].
    + congruence.
    + rewrite Hs in H. discriminate.
    + rewrite He in H. discriminate.
Qed.

Lemma generateInlineComments_null_witness :
  generateInlineComments Service.inlinePrompt (Service.answering "{...}")
    (Service.parsingAs
       (JObj [ (str "code", JStr (str "return 2;"));
               (str "lineStart", JStr (str "2"));
               (str "lineEnd", JNum 2) ]))
    (Scenario.suggest "Constant" "improvement" "Return two."
       "return 2;" "src/f.js")
    (Service.fetched "src/f.js" (str "return 1;"))
  = None.
Proof.
  apply (@generateInlineComments_null
           Service.inlinePrompt (Service.answering "{...}")
           (Service.parsingAs
              (JObj [ (str "code", JStr (str "return 2;"));
                      (str "lineStart", JStr (str "2"));
                      (str "lineEnd", JNum 2) ]))).
  right. right. exists (str "return 1;"). split; [reflexivity|].
  right. right. eexists. split; [reflexivity|].
  right. eexists. split; [reflexivity|].
  right. left. reflexivity.
Defined.

Lemma preprocessed_In getGitFile payload files fetched target :
  preprocessed getGitFile payload files = Ok fetched ->
  In target fetched ->
  filterFile target = false ->
  In target files.
Proof.
  revert fetched. induction files as [|f files IH]; intros fetched H Hin Hf;
    cbn [preprocessed] in H.
  - injection H as <-. destruct Hin.
  - destruct (filterFile f) eqn:Ef.
    + destruct (preprocessFile getGitFile payload f) as [f'|e] eqn:Ep;
        cbn [bindE] in H; [|discriminate].
      destruct (preprocessed getGitFile payload files) as [rest|e];
        cbn [bindE] in H; [|discriminate].
      injection H as <-. destruct Hin as [<-|Hin].
      * rewrite (preprocessFile_filterFile _ _ _ Ep) in Hf. congruence.
      * right. now apply (IH rest).
    + destruct (preprocessed getGitFile payload files) as [rest|e];
        cbn [bindE] in H; [|discriminate].
      injection H as <-. destruct Hin as [<-|Hin]; [now left|].
      right. now apply (IH rest).
Qed.

(** X26. The files that the filter excludes are not fetched. So when the
    excluded files come without a current content, as the listing of the
    host gives them, every inline fix that [processPullRequest] returns
    is for a filename that passes the filter. *)
Theorem processPullRequest_fixes_pass_filter :
  forall encodeChat encode rawPatchStrategy smarterContextPatchStrategy
         generateChatCompletion identity parseStringPromise
         getInlineFixPrompt generateFunctionCall JSON_parse getGitFile
         (payload : Payload) (files : list PRFile) (includeSuggestions : bool)
         (codeFix : CodeSuggestion),
    Forall
      (fun f => filterFile f = false -> current_contents f = None) files ->
    In codeFix
      (suggestions
         (processPullRequest encodeChat encode rawPatchStrategy
            smarterContextPatchStrategy generateChatCompletion identity
            parseStringPromise getInlineFixPrompt generateFunctionCall
            JSON_parse getGitFile payload files includeSuggestions)) ->
    exists target,
      In target files
      /\ filename target = file codeFix
      /\ filterFile target = true.
Proof.
  intros encodeChat encode raw smarter complete identity parseXml prompt
    call parse getGitFile payload files incl codeFix Hnone.
  unfold processPullRequest.
  destruct (length (filter filterFile files) =? 0); [intros []|].
  destruct (preprocessed getGitFile payload files) as [fetched|e] eqn:Ep;
    [|intros []].
  cbv zeta.
  destruct (negb (Regex.test safeName (owner_login payload))
            || negb (Regex.test safeName (repository_name payload)));
    [intros []|].
  destruct (reviewChangesRetry _ _ _ _ _ _ _) as [rc|e]; [|intros []].
  destruct incl; [|intros []].
  cbn [suggestions]. intros Hin.
  destruct (0 <? length (structuredComments rc)); [|destruct Hin].
  apply filterBoolean_In in Hin. apply in_map_iff in Hin.
  destruct Hin as [suggestion [Hfix Hs]].
  destruct (findFile fetched suggestion) as [target|] eqn:Ef;
    [|discriminate].
  apply generateInlineComments_some in Hfix.
  destruct Hfix as (contents & fc & args & Hc & _ & _ & _ & Hfile & _).
  unfold findFile in Ef. apply find_some in Ef. destruct Ef as [Ht Hname].
  apply jstring_eqb_eq in Hname.
  destruct (filterFile target) eqn:Epass.
  - assert (Hn : In (filename target) (map filename files)).
    { rewrite <- (preprocessed_names _ _ _ Ep). now apply in_map. }
    apply in_map_iff in Hn. destruct Hn as [f0 [Hf0 Hin0]].
    exists f0. split; [exact Hin0|]. split; [congruence|].
    now rewrite (filterFile_filename f0 target Hf0).
  - exfalso.
    pose proof (@preprocessed_In getGitFile payload files fetched target
                  Ep Ht Epass) as Hin0.
    rewrite Forall_forall in Hnone.
    rewrite (Hnone target Hin0 Epass) in Hc. discriminate.
Qed.

Lemma processPullRequest_fixes_pass_filter_witness :
  let contents :=
    join NL [str "function f() {"; str "  return 1;"; str "}"] in
  let files :=
    [ Scenario.changed "yarn.lock" (Scenario.addedLine 10);
      Scenario.changed "src/f.js" (Scenario.addedLine 40) ] in
  let codeFix :=
    {| file := str "src/f.js";
       line_start := 2;
       line_end := 2;
       correction := str "  return 2;";
       fix_comment := JStr (str "Use this.") |} in
  exists target,
    In target files
    /\ filename target = file codeFix
    /\ filterFile target = true.
Proof.
  intros contents files codeFix.
  apply (@processPullRequest_fixes_pass_filter
           Scenario.charTokens Scenario.charCount
           Scenario.headerPatch Scenario.headerPatch
           (Host.replying "<review></review>")
           Scenario.contentIdentity
           (Service.parsingXmlAs
              (Host.oneSuggestion "Constant" "improvement" "Return two."
                 "return 2;" "src/f.js"))
           Service.inlinePrompt (Service.answering "{...}")
           (Service.parsingAs (Service.fixArgs "return 2;" 2 2))
           (Host.holding contents) Service.pullRequest files true codeFix).
  - repeat constructor.
  - vm_compute. left. reflexivity.
Defined.

(** ** Reading a chunk header *)

(** The greedy loop over a class takes the whole run when what follows
    the run is accepted there. *)
Lemma repeat_class_then (C : ascii -> bool) k :
  forall run fuel p c0 rest cs x,
    forallb C run = true ->
    C c0 = false ->
    length (run ++ c0 :: rest) < fuel ->
    k (Regex.mkState (p + length run) (c0 :: rest) cs) = Some x ->
    Regex.repeatRe (Regex.matchRe (Regex.Chr C)) true k fuel 0 None
      (Regex.mkState p (run ++ c0 :: rest) cs)
    = Some x.
Proof.
  induction run as [|c run IH]; intros fuel p c0 rest cs x Hrun Hc0 Hlen Hk;
    (destruct fuel as [|fuel]; [inversion Hlen|]);
    cbn [Regex.repeatRe Regex.maxIsZero app].
  - rewrite matchRe_Chr_cons, Hc0.
    cbn [length] in Hk. rewrite Nat.add_0_r in Hk. exact Hk.
  - cbn [forallb] in Hrun. apply andb_true_iff in Hrun.
    destruct Hrun as [Hc Hrun].
    rewrite matchRe_Chr_cons, Hc.
    cbn [Regex.rest length].
    rewrite (proj2 (Nat.ltb_lt _ _) (Nat.lt_succ_diag_r _)).
    cbn [Regex.predMax option_map].
    rewrite (IH fuel (S p) c0 rest cs x); try assumption.
    + reflexivity.
    + cbn [app length] in Hlen. lia.
    + cbn [length] in Hk. now rewrite Nat.add_succ_r in Hk.
Qed.

Lemma plus_class_then (C : ascii -> bool) k run p c0 rest cs x :
  run <> [] ->
  forallb C run = true ->
  C c0 = false ->
  k (Regex.mkState (p + length run) (c0 :: rest) cs) = Some x ->
  Regex.matchRe (Regex.plus (Regex.Chr C))
    (Regex.mkState p (run ++ c0 :: rest) cs) k
  = Some x.
Proof.
  intros Hne Hrun Hc0 Hk. destruct run as [|c run]; [congruence|].
  unfold Regex.plus.
  change (Regex.matchRe (Regex.Rep true 1 None (Regex.Chr C))
            (Regex.mkState p ((c :: run) ++ c0 :: rest) cs) k)
    with (Regex.matchRe (Regex.Chr C)
            (Regex.mkState p (c :: run ++ c0 :: rest) cs)
            (fun s1 =>
               Regex.repeatRe (Regex.matchRe (Regex.Chr C)) true k
                 (length (c :: run ++ c0 :: rest) + 1) 0 None s1)).
  cbn [forallb] in Hrun. apply andb_true_iff in Hrun.
  destruct Hrun as [Hc Hrun].
  rewrite matchRe_Chr_cons, Hc.
  apply repeat_class_then; try assumption; [cbn [length]; lia|].
  cbn [length] in Hk. now rewrite Nat.add_succ_r in Hk.
Qed.

Lemma matchRe_Seq a b s k :
  Regex.matchRe (Regex.Seq a b) s k
  = Regex.matchRe a s (fun s1 => Regex.matchRe b s1 k).
Proof. reflexivity. Qed.

Lemma matchRe_Group i a s k :
  Regex.matchRe (Regex.Group i a) s k
  = Regex.matchRe a s
      (fun s1 =>
         k (Regex.mkState (Regex.pos s1) (Regex.rest s1)
              (Regex.caps s1
                 ++ [(i, firstn (Regex.pos s1 - Regex.pos s) (Regex.rest s))]))).
Proof. reflexivity. Qed.

Lemma hunkHeader_match da db dc dd rest :
  da <> [] -> db <> [] -> dc <> [] -> dd <> [] ->
  forallb Regex.is_digit da = true ->
  forallb Regex.is_digit db = true ->
  forallb Regex.is_digit dc = true ->
  forallb Regex.is_digit dd = true ->
  exists e,
    Regex.matchRe hunkHeader
      (Regex.mkState 0
         (str "@@ -" ++ da ++ str "," ++ db ++ str " +" ++ dc ++ str ","
            ++ dd ++ str " @@" ++ rest) [])
      Some
    = Some e
    /\ Regex.caps e = [(1, dc)].
Proof.
  intros Na Nb Nc Nd Ha Hb Hc Hd.
  change (str "@@ -" ++ da ++ str "," ++ db ++ str " +" ++ dc ++ str ","
            ++ dd ++ str " @@" ++ rest)
    with ("@" :: "@" :: " " :: "-"
          :: (da ++ "," :: (db ++ " " :: "+"
          :: (dc ++ "," :: (dd ++ " " :: "@" :: "@" :: rest)))))%char.
  change hunkHeader
    with (Regex.Seq
            (Regex.Seq (Regex.chr "@")
               (Regex.Seq (Regex.chr "@")
                  (Regex.Seq (Regex.chr " ") (Regex.chr "-"))))
            (Regex.Seq (Regex.plus Regex.digit)
               (Regex.Seq (Regex.chr ",")
                  (Regex.Seq (Regex.plus Regex.digit)
                     (Regex.Seq
                        (Regex.Seq (Regex.chr " ") (Regex.chr "+"))
                        (Regex.Seq (Regex.Group 1 (Regex.plus Regex.digit))
                           (Regex.Seq (Regex.chr ",")
                              (Regex.Seq (Regex.plus Regex.digit)
                                 (Regex.Seq (Regex.chr " ")
                                    (Regex.Seq (Regex.chr "@")
                                       (Regex.chr "@"))))))))))).
  eexists. split.
  - unfold Regex.chr, Regex.digit.
    repeat (rewrite matchRe_Seq
            || (rewrite matchRe_Chr_cons; rewrite Ascii.eqb_refl)).
    apply plus_class_then; [assumption|assumption|reflexivity|].
    repeat (rewrite matchRe_Seq
            || (rewrite matchRe_Chr_cons; rewrite Ascii.eqb_refl)).
    apply plus_class_then; [assumption|assumption|reflexivity|].
    repeat (rewrite matchRe_Seq
            || (rewrite matchRe_Chr_cons; rewrite Ascii.eqb_refl)).
    rewrite matchRe_Group.
    apply plus_class_then; [assumption|assumption|reflexivity|].
    cbn [Regex.pos Regex.rest Regex.caps app].
    repeat (rewrite matchRe_Seq
            || (rewrite matchRe_Chr_cons; rewrite Ascii.eqb_refl)).
    apply plus_class_then; [assumption|assumption|reflexivity|].
    repeat (rewrite matchRe_Seq
            || (rewrite matchRe_Chr_cons; rewrite Ascii.eqb_refl)).
    reflexivity.
  - cbn [Regex.caps].
    match goal with
    | |- [(1, firstn ?n _)] = _ => replace n with (length dc) by lia
    end.
    now rewrite firstn_app, firstn_all, Nat.sub_diag, firstn_0, app_nil_r.
Qed.

Lemma search_hit r p s m :
  Regex.matchAt r p s = Some m -> Regex.search r p s = Some m.
Proof. intros H. destruct s; cbn [Regex.search]; now rewrite H. Qed.

Lemma hunkStart_header da db dc dd rest :
  da <> [] -> db <> [] -> dc <> [] -> dd <> [] ->
  forallb Regex.is_digit da = true ->
  forallb Regex.is_digit db = true ->
  forallb Regex.is_digit dc = true ->
  forallb Regex.is_digit dd = true ->
  hunkStart
    (str "@@ -" ++ da ++ str "," ++ db ++ str " +" ++ dc ++ str ","
       ++ dd ++ str " @@" ++ rest)
  = Ok (parseInt dc).
Proof.
  intros Na Nb Nc Nd Ha Hb Hc Hd.
  destruct (hunkHeader_match rest Na Nb Nc Nd Ha Hb Hc Hd) as [e [He Hcaps]].
  unfold hunkStart, Regex.firstMatch, Regex.exec.
  cbn [Nat.ltb Nat.leb skipn].
  erewrite search_hit; [|unfold Regex.matchAt; rewrite He; reflexivity].
  cbn [Regex.groups]. rewrite Hcaps. reflexivity.
Qed.

(** X27. A chunk header of the form that the host writes for a hunk of
    several lines, with decimal numbers for the old start and count and
    the new start and count and any text after the closing at-signs, is
    kept as it is wherever it stands in the diff, and restarts the
    numbering: the lines after it, up to the next line that starts with
    two at-signs, are numbered upwards from the new start when they do
    not start with a minus sign, and dropped when they do. The lines
    before the header and the lines after the hunk give as many output
    lines as they have lines that do not start with a minus sign. The
    numbers of the hunk stay below 2^53, where the numbers of the source
    are exact. *)
Theorem assignLineNumbers_header_restarts :
  forall (diff : jstring) (oldStart oldCount newStart newCount : jstring)
         (heading : jstring) (pre body post : list jstring),
    oldStart <> [] -> oldCount <> [] -> newStart <> [] -> newCount <> [] ->
    forallb Regex.is_digit oldStart = true ->
    forallb Regex.is_digit oldCount = true ->
    forallb Regex.is_digit newStart = true ->
    forallb Regex.is_digit newCount = true ->
    let header :=
      str "@@ -" ++ oldStart ++ str "," ++ oldCount ++ str " +" ++ newStart
        ++ str "," ++ newCount ++ str " @@" ++ heading in
    let kept :=
      filter (fun line => negb (startsWith line (str "-"))) body in
    split LF diff = pre ++ header :: body ++ post ->
    Forall wellFormedLine (pre ++ post) ->
    Forall (fun line => startsWith line (str "@@") = false) body ->
    (parseInt newStart + N.of_nat (length kept) < 2 ^ 53)%N ->
    exists outPre outPost,
      length outPre
      = length (filter (fun line => negb (startsWith line (str "-"))) pre)
      /\ length outPost
         = length (filter (fun line => negb (startsWith line (str "-"))) post)
      /\ assignLineNumbers diff
         = Ok (join NL
                 (outPre
                    ++ header :: numbered (parseInt newStart) kept
                    ++ outPost)).
Proof.
  intros diff da db dc dd heading pre body post Na Nb Nc Nd Ha Hb Hc Hd
    header kept Hsplit Hwf Hbody _.
  apply Forall_app in Hwf. destruct Hwf as [Hpre Hpost].
  destruct (numberLines_total 0 Hpre) as [outPre HoutPre].
  destruct (numberLines_total
              (parseInt dc + N.of_nat (length kept)) Hpost)
    as [outPost HoutPost].
  exists outPre, outPost.
  split; [exact (numberLines_length _ _ HoutPre)|].
  split; [exact (numberLines_length _ _ HoutPost)|].
  unfold assignLineNumbers. rewrite Hsplit, numberLines_app, HoutPre.
  cbn [bindE numberLines].
  assert (Hs : startsWith header (str "@@") = true) by reflexivity.
  rewrite Hs. unfold header at 1.
  rewrite (hunkStart_header heading Na Nb Nc Nd Ha Hb Hc Hd).
  cbn [bindE]. rewrite numberLines_app.
  destruct (numberLines_body (parseInt dc) Hbody) as [Hout Hnext].
  change (fun l => negb (isRemoved l))
    with (fun line => negb (startsWith line (str "-"))) in Hout, Hnext.
  fold kept in Hout, Hnext.
  rewrite Hout, Hnext, HoutPost. reflexivity.
Qed.

Lemma assignLineNumbers_header_restarts_witness :
  exists outPre outPost,
    length outPre = 3
    /\ length outPost = 2
    /\ assignLineNumbers
         (join NL
            [ str "@@ -1,2 +1,2 @@"; str " a"; str "+b";
              str "@@ -3,2 +7,2 @@ def f():"; str " x"; str "-y"; str "+z";
              str "@@ -30,1 +40,1 @@"; str " q" ])
       = Ok (join NL
               (outPre
                  ++ str "@@ -3,2 +7,2 @@ def f():"
                  :: [str "7:  x"; str "8: +z"]
                  ++ outPost)).
Proof.
  apply (@assignLineNumbers_header_restarts
           (join NL
              [ str "@@ -1,2 +1,2 @@"; str " a"; str "+b";
                str "@@ -3,2 +7,2 @@ def f():"; str " x"; str "-y"; str "+z";
                str "@@ -30,1 +40,1 @@"; str " q" ])
           (str "3") (str "2") (str "7") (str "2") (str " def f():")
           [str "@@ -1,2 +1,2 @@"; str " a"; str "+b"]
           [str " x"; str "-y"; str "+z"]
           [str "@@ -30,1 +40,1 @@"; str " q"]);
    try discriminate; try reflexivity.
  - repeat constructor; intros H; vm_compute in H |- *;
      try discriminate H; eexists; reflexivity.
  - repeat constructor.
Defined.

(** ** A patch without removed lines *)

Lemma join_split_lines s : join NL (split LF s) = s.
Proof.
  induction s as [|c s IH]; [reflexivity|].
  cbn [split]. destruct (Ascii.eqb c LF) eqn:E.
  - apply Ascii.eqb_eq in E. subst c.
    destruct (split LF s) as [|w ws] eqn:Es.
    + cbn [join] in IH. now subst s.
    + change (join NL ([] :: w :: ws)) with (LF :: join NL (w :: ws)).
      now rewrite IH.
  - destruct (split LF s) as [|w ws] eqn:Es.
    + cbn [join] in *. now subst s.
    + rewrite <- IH. destruct ws; reflexivity.
Qed.

(** X28. [stripRemovedLines] returns the file as it is exactly when no
    line of its patch starts with a minus sign. *)
Theorem stripRemovedLines_unchanged_iff :
  forall originalFile : PRFile,
    stripRemovedLines originalFile = originalFile
    <-> Forall (fun line => startsWith line (str "-") = false)
          (split LF (patch originalFile)).
Proof.
  intros f. split.
  - intros H. apply (f_equal patch) in H.
    pose proof (stripped_lines (patch f)) as Hl. cbv zeta in Hl.
    change (join NL
              (filter (fun line => negb (startsWith line (str "-")))
                 (split LF (patch f))))
      with (patch (stripRemovedLines f)) in Hl.
    rewrite H in Hl. rewrite Hl.
    destruct (filter _ (split LF (patch f))) as [|l0 kept] eqn:E.
    + constructor; [reflexivity|constructor].
    + rewrite <- E. apply Forall_forall. intros line Hin.
      apply filter_In in Hin. destruct Hin as [_ Hin].
      now apply negb_true_iff in Hin.
  - intros H. destruct f as [name p old cur len].
    unfold stripRemovedLines.
    cbn [filename patch old_contents current_contents patchTokenLength] in *.
    f_equal. rewrite filter_all.
    + apply join_split_lines.
    + rewrite Forall_forall in *. intros line Hin.
      apply negb_true_iff. now apply H.
Qed.

(** ** The fallback parser and the fenced blocks of a reply *)

(** ** Where the matcher calls its continuation *)





(** ** Fences *)

Local Abbreviation tripleBacktick := (str "```").


Lemma indexOf_Some s needle i :
  indexOf s needle = Some i ->
  startsWith (skipn i s) needle = true
  /\ (forall i', i' < i -> startsWith (skipn i' s) needle = false)
  /\ i <= length s.
Proof.
  revert i. induction s as [|c s IH]; intros i H; cbn [indexOf] in H.
  - destruct (startsWith [] needle) eqn:E; [|discriminate].
    injection H as <-. repeat split; [exact E| |apply Nat.le_refl].
    intros i' Hi. inversion Hi.
  - destruct (startsWith (c :: s) needle) eqn:E.
    + injection H as <-. repeat split; [exact E| |apply Nat.le_0_l].
      intros i' Hi. inversion Hi.
    + destruct (indexOf s needle) as [j|] eqn:Ej; [|discriminate].
      injection H as <-. destruct (IH j eq_refl) as (H1 & H2 & H3).
      repeat split.
      * exact H1.
      * intros i' Hi. destruct i' as [|i']; [exact E|].
        cbn [skipn]. apply H2. lia.
      * cbn [length]. lia.
Qed.

Lemma indexOf_None s needle :
  indexOf s needle = None ->
  forall n, startsWith (skipn n s) needle = false.
Proof.
  induction s as [|c s IH]; intros H n; cbn [indexOf] in H.
  - destruct (startsWith [] needle) eqn:E; [discriminate|].
    now destruct n.
  - destruct (startsWith (c :: s) needle) eqn:E; [discriminate|].
    destruct (indexOf s needle) eqn:Ej; [discriminate|].
    destruct n as [|n]; [exact E|]. cbn [skipn]. now apply IH.
Qed.

Lemma indexOf_first s needle i :
  startsWith (skipn i s) needle = true ->
  (forall i', i' < i -> startsWith (skipn i' s) needle = false) ->
  i <= length s ->
  indexOf s needle = Some i.
Proof.
  intros H1 H2 H3.
  destruct (indexOf s needle) as [j|] eqn:E.
  - destruct (indexOf_Some _ _ E) as (J1 & J2 & J3).
    destruct (Nat.lt_trichotomy i j) as [L|[L|L]].
    + rewrite (J2 i L) in H1. discriminate.
    + now subst.
    + rewrite (H2 j L) in J1. discriminate.
  - rewrite (indexOf_None _ _ E i) in H1. discriminate.
Qed.


(** ** The parts of a block *)







Lemma backtick_not_word : Regex.is_word "`" = false.
Proof. reflexivity. Qed.

Lemma backtick_not_space : is_space "`" = false.
Proof. reflexivity. Qed.






(** ** The loop of the parser goes through the fenced blocks *)




Lemma fencedFrom_S fuel offset s :
  fencedFrom (S fuel) offset s
  = match indexOf s tripleBacktick with
    | None => []
    | Some i =>
        let after := skipn (i + 3) s in
        match indexOf after tripleBacktick with
        | None => []
        | Some j =>
            let content := firstn j after in
            let tag := languageTag content in
            {| fence_index := offset + i;
               fence_language := tag;
               fence_body := trimStart (skipn (length tag) content) |}
              :: fencedFrom fuel (offset + i + 3 + j + 3)
                   (skipn (j + 3) after)
        end
    end.
Proof. reflexivity. Qed.

(** The fuel of [fencedFrom] is never used up. *)
Lemma fencedFrom_fuel :
  forall fuel offset s,
    length s <= fuel ->
    fencedFrom (S fuel) offset s = fencedFrom fuel offset s.
Proof.
  induction fuel as [|fuel IH]; intros offset s Hlen.
  - destruct s; [reflexivity|inversion Hlen].
  - rewrite (fencedFrom_S (S fuel)), (fencedFrom_S fuel).
    destruct (indexOf s tripleBacktick) as [i|] eqn:Ei; [|reflexivity].
    cbv zeta.
    destruct (indexOf (skipn (i + 3) s) tripleBacktick) as [j|]; [|reflexivity].
    f_equal. apply IH.
    rewrite !length_skipn.
    destruct (indexOf_Some _ _ Ei) as (Hi & _ & _).
    destruct s as [|c s]; [destruct i; discriminate|].
    cbn [length] in *. lia.
Qed.





(** ** The planner of a run in which the tokenizer returns *)

Lemma mapE_returns {A B} (f : A -> B) (fE : A -> Exc B) l :
  (forall x, fE x = Ok (f x)) ->
  Throwing.mapE fE l = Ok (map f l).
Proof.
  intros H. induction l as [|x l IH]; [reflexivity|].
  cbn [Throwing.mapE map]. rewrite H, IH. reflexivity.
Qed.

Lemma partitionE_returns {A} (test : A -> bool) (testE : A -> Exc bool) l :
  (forall x, testE x = Ok (test x)) ->
  Throwing.partitionE testE l
  = Ok (filter test l, filter (fun x => negb (test x)) l).
Proof.
  intros H. induction l as [|x l IH]; [reflexivity|].
  cbn [Throwing.partitionE filter]. rewrite H, IH. cbn [bindE fst snd].
  now destruct (test x).
Qed.

Lemma foldE_returns {A S} (step : S -> A -> S) (stepE : S -> A -> Exc S) l :
  (forall st x, stepE st x = Ok (step st x)) ->
  forall st, Throwing.foldE stepE l st = Ok (fold_left step l st).
Proof.
  intros H. induction l as [|x l IH]; intros st; [reflexivity|].
  cbn [Throwing.foldE fold_left]. rewrite H. cbn [bindE]. apply IH.
Qed.

Section Returns.

Variable encodeChat : Conversation -> N.
Variable encode : jstring -> N.
Variable rawPatchStrategy : PRFile -> jstring.
Variable smarterContextPatchStrategy : PRFile -> jstring.

(** The same calls, as calls that return. *)
Local Abbreviation encodeChatE := (fun convo => Ok (encodeChat convo)).
Local Abbreviation encodeE := (fun blob => Ok (encode blob)).
Local Abbreviation rawE := (fun file => Ok (rawPatchStrategy file)).
Local Abbreviation smarterE :=
  (fun file => Ok (smarterContextPatchStrategy file)).

Lemma buildPatchPrompt_returns file :
  Throwing.buildPatchPrompt rawE smarterE file
  = Ok (buildPatchPrompt rawPatchStrategy smarterContextPatchStrategy file).
Proof.
  unfold Throwing.buildPatchPrompt, buildPatchPrompt.
  now destruct (old_contents file).
Qed.

Section PlannerReturns.

Variable patchBuilder : PRFile -> jstring.
Variable patchBuilderE : PRFile -> Exc jstring.
Hypothesis patchBuilder_returns :
  forall file, patchBuilderE file = Ok (patchBuilder file).
Variable convoBuilder : jstring -> Conversation.

Lemma fits_returns files :
  Throwing.fits encodeChatE patchBuilderE convoBuilder files
  = Ok (fits encodeChat patchBuilder convoBuilder files).
Proof.
  unfold Throwing.fits, Throwing.constructPrompt, fits, constructPrompt.
  rewrite (mapE_returns patchBuilder patchBuilderE files patchBuilder_returns).
  reflexivity.
Qed.

Lemma packExtension_returns processGroups filesForExt :
  Throwing.packExtension encodeChatE patchBuilderE convoBuilder
    processGroups filesForExt
  = Ok (packExtension encodeChat patchBuilder convoBuilder
          processGroups filesForExt).
Proof.
  unfold Throwing.packExtension, packExtension.
  rewrite (foldE_returns (packStep encodeChat patchBuilder convoBuilder)).
  - cbn [bindE].
    now destruct (fold_left _ _ _).
  - intros [groups current] file. unfold Throwing.packStep, packStep.
    rewrite fits_returns. reflexivity.
Qed.

Lemma processWithinLimitFiles_returns files :
  Throwing.processWithinLimitFiles encodeChatE patchBuilderE convoBuilder
    files
  = Ok (processWithinLimitFiles encodeChat patchBuilder convoBuilder files).
Proof.
  unfold Throwing.processWithinLimitFiles, processWithinLimitFiles.
  rewrite fits_returns. cbn [bindE].
  destruct (negb (fits encodeChat patchBuilder convoBuilder files));
    [|reflexivity].
  apply foldE_returns. intros groups entry. rewrite fits_returns.
  cbn [bindE].
  destruct (fits encodeChat patchBuilder convoBuilder (snd entry));
    [reflexivity|apply packExtension_returns].
Qed.

Lemma processOutsideLimitFiles_returns files :
  Throwing.processOutsideLimitFiles encodeChatE patchBuilderE convoBuilder
    files
  = Ok (processOutsideLimitFiles encodeChat patchBuilder convoBuilder files).
Proof.
  unfold Throwing.processOutsideLimitFiles, processOutsideLimitFiles.
  destruct files as [|f0 files0]; [reflexivity|].
  rewrite fits_returns. cbn [bindE]. cbv zeta.
  destruct (fits encodeChat patchBuilder convoBuilder
              (map stripRemovedLines (f0 :: files0))); [reflexivity|].
  rewrite (partitionE_returns
             (fun file => fits encodeChat patchBuilder convoBuilder [file])).
  - cbn [bindE fst]. apply processWithinLimitFiles_returns.
  - intros file. apply fits_returns.
Qed.

End PlannerReturns.

Lemma reviewGroups_returns convoBuilder files :
  Throwing.reviewGroups encodeChatE encodeE rawE smarterE convoBuilder files
  = Ok (reviewGroups encodeChat encode rawPatchStrategy
          smarterContextPatchStrategy convoBuilder files).
Proof.
  unfold Throwing.reviewGroups, reviewGroups.
  rewrite (mapE_returns
             (setPatchTokenLength encode rawPatchStrategy
                smarterContextPatchStrategy)).
  2:{ intros file. unfold Throwing.setPatchTokenLength, setPatchTokenLength.
      rewrite buildPatchPrompt_returns. reflexivity. }
  cbn [bindE].
  rewrite (partitionE_returns
             (fun file =>
                fits encodeChat
                  (buildPatchPrompt rawPatchStrategy
                     smarterContextPatchStrategy)
                  convoBuilder [file])).
  2:{ intros file. apply fits_returns. apply buildPatchPrompt_returns. }
  cbn [bindE fst snd].
  rewrite (processWithinLimitFiles_returns _ _ buildPatchPrompt_returns).
  cbn [bindE].
  rewrite (processOutsideLimitFiles_returns _ _ buildPatchPrompt_returns).
  reflexivity.
Qed.

(** With calls that return, the review of this module is the review
    above. *)
Lemma reviewChanges_returns generateChatCompletion files convoBuilder
    responseBuilder :
  Throwing.reviewChanges encodeChatE encodeE rawE smarterE
    generateChatCompletion files convoBuilder responseBuilder
  = reviewChanges encodeChat encode rawPatchStrategy
      smarterContextPatchStrategy generateChatCompletion files convoBuilder
      responseBuilder.
Proof.
  unfold Throwing.reviewChanges, reviewChanges.
  rewrite reviewGroups_returns. cbn [bindE].
  f_equal. f_equal. f_equal. apply map_ext. intros patchGroup.
  unfold Throwing.reviewFiles, reviewFiles.
  rewrite (mapE_returns _ _ patchGroup buildPatchPrompt_returns).
  reflexivity.
Qed.

End Returns.

(** ** The review with a tokenizer that can throw *)

(** X22. [reviewChanges] has four outcomes. When the tokenizer or a
    patch strategy throws while the groups are planned, which is before
    the [try], the promise is rejected with what they threw. Otherwise
    the groups are planned and the result is returned: when the request
    of one of the groups fails, it is the comment that an error
    occurred, without suggestions, whatever the other requests gave;
    when every request is answered, it is what the response builder
    makes of the answers, in the order of the groups; and when the
    response builder fails on them, it is the comment that the response
    could not be processed, without suggestions. *)
Theorem reviewChanges_outcomes :
  forall encodeChat encode rawPatchStrategy smarterContextPatchStrategy
         generateChatCompletion (files : list PRFile)
         (builder : jstring -> Conversation)
         (responseBuilder : list jstring -> Exc BuilderResponse),
    let patchBuilder :=
      Throwing.buildPatchPrompt rawPatchStrategy smarterContextPatchStrategy in
    let planned :=
      Throwing.reviewGroups encodeChat encode rawPatchStrategy
        smarterContextPatchStrategy builder files in
    let request patchGroup :=
      Throwing.reviewFiles generateChatCompletion patchGroup patchBuilder
        builder in
    let result :=
      Throwing.reviewChanges encodeChat encode rawPatchStrategy
        smarterContextPatchStrategy generateChatCompletion files builder
        responseBuilder in
    (forall e, planned = Raise e -> result = Raise e)
    /\ (forall groups,
           planned = Ok groups ->
           ((exists patchGroup e,
                In patchGroup groups /\ request patchGroup = Raise e) ->
            result
            = Ok {| comment := str "Error occurred during review process";
                    structuredComments := [] |})
           /\ (forall feedbacks,
                  map request groups = map (@Ok jstring) feedbacks ->
                  result
                  = match responseBuilder feedbacks with
                    | Ok response => Ok response
                    | Raise _ =>
                        Ok {| comment :=
                                str "Unable to process XML response correctly. Review generated but parsing failed.";
                              structuredComments := [] |}
                    end))
    /\ (forall e, result = Raise e -> planned = Raise e).
Proof.
  intros encodeChat encode raw smarter complete files builder parser
    patchBuilder planned request result.
  unfold result, Throwing.reviewChanges. fold planned. fold patchBuilder.
  split; [|split].
  - intros e ->. reflexivity.
  - intros groups ->. cbn [bindE]. fold request. split.
    + intros (g & e & Hg & He).
      assert (Hin : In (Raise e) (map request groups)).
      { rewrite <- He. now apply in_map. }
      destruct (@promiseAll_raises _ (map request groups) e Hin) as [e' ->].
      reflexivity.
    + intros feedbacks ->. rewrite promiseAll_values. cbn [bindE tryCatch].
      now destruct (parser feedbacks).
  - intros e. destruct planned as [groups|e0]; cbn [bindE].
    + unfold tryCatch.
      destruct (promiseAll _) as [feedbacks|e1]; cbn [bindE];
        [|discriminate].
      destruct (parser feedbacks); discriminate.
    + congruence.
Qed.

(** X15. [reviewChangesRetry] moves on to the next strategy only when
    the planning of a strategy throws. When the groups of a strategy are
    planned, the retry returns the result of that strategy, whatever its
    requests and its response builder do, and the strategies after it
    are not tried. When the planning of a strategy throws, the retry
    goes on with the strategies after it. It throws that all strategies
    failed exactly when the planning of every strategy throws. *)
Theorem reviewChangesRetry_first_planned :
  forall encodeChat encode rawPatchStrategy smarterContextPatchStrategy
         generateChatCompletion (files : list PRFile),
    let planned (b : Builders) :=
      Throwing.reviewGroups encodeChat encode rawPatchStrategy
        smarterContextPatchStrategy (convoBuilder b) files in
    let reviewOf (b : Builders) :=
      Throwing.reviewChanges encodeChat encode rawPatchStrategy
        smarterContextPatchStrategy generateChatCompletion files
        (convoBuilder b) (responseBuilder b) in
    let retry :=
      Throwing.reviewChangesRetry encodeChat encode rawPatchStrategy
        smarterContextPatchStrategy generateChatCompletion files in
    (forall b rest groups,
        planned b = Ok groups ->
        retry (b :: rest) = reviewOf b
        /\ exists response, retry (b :: rest) = Ok response)
    /\ (forall b rest e,
           planned b = Raise e -> retry (b :: rest) = retry rest)
    /\ (forall builders,
           (exists e, retry builders = Raise e)
           <-> Forall (fun b => exists e, planned b = Raise e) builders)
    /\ (forall builders e,
           retry builders = Raise e -> e = str "All convoBuilders failed.").
Proof.
  intros encodeChat encode raw smarter complete files planned reviewOf retry.
  assert (Hplanned : forall b groups,
             planned b = Ok groups -> exists response, reviewOf b = Ok response).
  { intros b groups H. unfold reviewOf, Throwing.reviewChanges.
    fold (planned b). rewrite H. cbn [bindE]. unfold tryCatch.
    destruct (promiseAll _) as [feedbacks|e]; cbn [bindE]; [|eauto].
    destruct (responseBuilder b feedbacks); eauto. }
  assert (Hthrows : forall b e, planned b = Raise e -> reviewOf b = Raise e).
  { intros b e H. unfold reviewOf, Throwing.reviewChanges.
    fold (planned b). now rewrite H. }
  assert (Hfirst : forall b rest groups,
             planned b = Ok groups -> retry (b :: rest) = reviewOf b).
  { intros b rest groups H. destruct (Hplanned b groups H) as [r Hr].
    unfold retry. cbn [Throwing.reviewChangesRetry]. fold (reviewOf b).
    now rewrite Hr. }
  assert (Hnext : forall b rest e,
             planned b = Raise e -> retry (b :: rest) = retry rest).
  { intros b rest e H. unfold retry. cbn [Throwing.reviewChangesRetry].
    fold (reviewOf b). now rewrite (Hthrows b e H). }
  split; [|split; [|split]].
  - intros b rest groups H. split; [now apply (Hfirst b rest groups)|].
    rewrite (Hfirst b rest groups H). now apply (Hplanned b groups).
  - exact Hnext.
  - induction builders as [|b rest IH].
    + split; [constructor|]. intros _. eexists. reflexivity.
    + destruct (planned b) as [groups|e] eqn:E.
      * split.
        -- intros [e He]. rewrite (Hfirst b rest groups E) in He.
           destruct (Hplanned b groups E) as [r Hr]. congruence.
        -- intros H. inversion H as [|? ? [e He] _]; subst. congruence.
      * rewrite (Hnext b rest e E). rewrite IH. split.
        -- intros H. constructor; [eauto|exact H].
        -- intros H. now inversion H.
  - induction builders as [|b rest IH]; intros e H.
    + unfold retry in H. cbn [Throwing.reviewChangesRetry] in H. congruence.
    + destruct (planned b) as [groups|e0] eqn:E.
      * rewrite (Hfirst b rest groups E) in H.
        destruct (Hplanned b groups E) as [r Hr]. congruence.
      * rewrite (Hnext b rest e0 E) in H. now apply IH.
Qed.
